(** * jets: a modal JSON editor (vj) and a JSON-aware diff (jvim)

    A shallow embedding of [src/vj/editor.py] (class [JsonEditor]) and of
    [src/jvim/diff.py], with the properties their specification states.

    Python values are modelled as follows.
    - [int] is [Z]; a cursor coordinate may be negative or too large between
      an assignment and the next [_clamp_cursor].
    - [str] is a list of Unicode code points ([N]); [len] counts code points.
    - [list] is [list]; indexing follows Python: a negative index counts from
      the end, an index out of range raises [IndexError], a slice never raises.
    - an exception aborts the computation: [Outcome] is [Ok] or [Raise]. *)

From Stdlib Require Import ZArith NArith Lia String Ascii DecimalString.
From stdpp Require Import base tactics option list numbers.

Local Open Scope Z_scope.

(** ** Strings and lists as Python has them *)

Abbreviation char := N (only parsing).
Abbreviation str := (list N) (only parsing).

(** A string literal of the source, as code points. *)
Definition lit (s : string) : str :=
  List.map N_of_ascii (list_ascii_of_string s).
Arguments lit s%_string.

Definition ch (a : ascii) : N := N_of_ascii a.
Arguments ch a%_char : simpl never.

(** [a == b] on strings. *)
Fixpoint str_eqb (a b : str) : bool :=
  match a, b with
  | [], [] => true
  | x :: a', y :: b' => (x =? y)%N && str_eqb a' b'
  | _, _ => false
  end.

Definition len {A} (l : list A) : Z := Z.of_nat (length l).
Arguments len {A} l : simpl never.

Inductive Exn :=
  IndexError | ValueError | TypeError | RecursionError | ZeroDivisionError.

Inductive Outcome (A : Type) : Type :=
| Ok (a : A)
| Raise (e : Exn).
Arguments Ok {A} a.
Arguments Raise {A} e.

Definition bind {A B} (m : Outcome A) (k : A → Outcome B) : Outcome B :=
  match m with
  | Ok a => k a
  | Raise e => Raise e
  end.

Notation "'let!' x ':=' m 'in' k" := (bind m (fun x => k))
  (at level 10, x name, m at level 100, k at level 200,
   format "'[v' 'let!'  x  :=  m  'in' '/' k ']'").

Definition of_option {A} (e : Exn) (o : option A) : Outcome A :=
  match o with
  | Some a => Ok a
  | None => Raise e
  end.

(** [for x in xs: s = step(s, x)], stopping at the first exception. *)
Fixpoint for_each {A S} (step : S → A → Outcome S) (xs : list A) (s : S) : Outcome S :=
  match xs with
  | [] => Ok s
  | x :: xs' => let! s := step s x in for_each step xs' s
  end.

(** [l[i]]: the position Python reads, or [None] when it raises. *)
Definition norm_index (n i : Z) : option nat :=
  if (0 <=? i) && (i <? n) then Some (Z.to_nat i)
  else if (i <? 0) && (0 <=? i + n) then Some (Z.to_nat (i + n))
  else None.

Definition py_get {A} (l : list A) (i : Z) : Outcome A :=
  of_option IndexError (k ← norm_index (len l) i; l !! k).

(** [l[i] = x] *)
Definition py_set {A} (l : list A) (i : Z) (x : A) : Outcome (list A) :=
  match norm_index (len l) i with
  | Some k => Ok (<[k := x]> l)
  | None => Raise IndexError
  end.

(** [l.pop(i)], keeping only the remaining list. *)
Definition py_pop {A} (l : list A) (i : Z) : Outcome (list A) :=
  match norm_index (len l) i with
  | Some k => Ok (delete k l)
  | None => Raise IndexError
  end.

(** A slice bound: negative bounds count from the end, then clamp. *)
Definition slice_bound (n i : Z) : nat :=
  Z.to_nat (if i <? 0 then Z.max 0 (i + n) else Z.min i n).

(** [l[:hi]], [l[lo:]], [l[lo:hi]] *)
Definition slice_to {A} (l : list A) (hi : Z) : list A :=
  take (slice_bound (len l) hi) l.
Definition slice_from {A} (l : list A) (lo : Z) : list A :=
  drop (slice_bound (len l) lo) l.
Definition slice {A} (l : list A) (lo hi : Z) : list A :=
  drop (slice_bound (len l) lo) (take (slice_bound (len l) hi) l).

(** [l.insert(i, x)] *)
Definition py_insert {A} (l : list A) (i : Z) (x : A) : list A :=
  take (slice_bound (len l) i) l ++ x :: drop (slice_bound (len l) i) l.

(** [" " * n] *)
Definition spaces (n : Z) : str := replicate (Z.to_nat n) (ch " ").

(** [str.isspace] for one code point (CPython's [_PyUnicode_IsWhitespace]). *)
Definition isspace (c : char) : bool :=
  ((9 <=? c) && (c <=? 13) || (28 <=? c) && (c <=? 32) || (c =? 133)
   || (c =? 160) || (c =? 5760) || (8192 <=? c) && (c <=? 8202)
   || (c =? 8232) || (c =? 8233) || (c =? 8239) || (c =? 8287)
   || (c =? 12288))%N.

Fixpoint lstrip (s : str) : str :=
  match s with
  | c :: s' => if isspace c then lstrip s' else s
  | [] => []
  end.

Definition rstrip (s : str) : str := reverse (lstrip (reverse s)).
Definition strip (s : str) : str := rstrip (lstrip s).

(** [s.split(sep)] for a one-character separator. *)
Fixpoint split_on (sep : char) (s : str) : list str :=
  match s with
  | [] => [[]]
  | c :: s' =>
      if (c =? sep)%N then [] :: split_on sep s'
      else match split_on sep s' with
           | w :: ws => (c :: w) :: ws
           | [] => [[c]]
           end
  end.

(** [sep.join(parts)] *)
Fixpoint join (sep : str) (parts : list str) : str :=
  match parts with
  | [] => []
  | [p] => p
  | p :: ps => p ++ sep ++ join sep ps
  end.

(** [s.split()]: maximal runs of non-whitespace. *)
Fixpoint split_ws_aux (cur : str) (s : str) : list str :=
  match s with
  | [] => if bool_decide (cur = []) then [] else [reverse cur]
  | c :: s' =>
      if isspace c
      then (if bool_decide (cur = []) then split_ws_aux [] s'
            else reverse cur :: split_ws_aux [] s')
      else split_ws_aux (c :: cur) s'
  end.
Definition split_ws (s : str) : list str := split_ws_aux [] s.

Fixpoint break_ws (s : str) : str * str :=
  match s with
  | [] => ([], [])
  | c :: s' =>
      if isspace c then ([], s)
      else let '(w, r) := break_ws s' in (c :: w, r)
  end.

(** [s.split(None, 1)] *)
Definition split_ws1 (s : str) : list str :=
  match lstrip s with
  | [] => []
  | t =>
      let '(w, r) := break_ws t in
      match lstrip r with
      | [] => [w]
      | r' => [w; r']
      end
  end.

(** [s.endswith(c)] for a one-character suffix. *)
Definition ends_with (s : str) (c : char) : bool :=
  match list.last s with
  | Some d => (d =? c)%N
  | None => false
  end.

(** [before.endswith(("{", "["))] *)
Definition ends_with_open (s : str) : bool :=
  ends_with s (ch "{") || ends_with s (ch "[").

Definition isascii (s : str) : bool := forallb (fun c => (c <? 128)%N) s.

(** [str(n)] for an [int]. *)
Definition str_of_Z (n : Z) : str := lit (NilZero.string_of_int (Z.to_int n)).

(** ** What the code takes from Python's libraries

    [unicodedata], [str] predicates over Unicode, [int], [json] and
    [difflib.SequenceMatcher] are not code of this repository: the model
    takes them as one record of functions. *)

#[local] Unset Elimination Schemes.
Inductive JSON :=
| JNull
| JBool (b : bool)
| JNum (text : str)
| JStr (s : str)
| JList (items : list JSON)
| JDict (members : list (str * JSON)).
#[local] Set Elimination Schemes.

Inductive OpTag := OpEqual | OpDelete | OpInsert | OpReplace.

(** One tuple [(tag, i1, i2, j1, j2)] of [get_opcodes()]. *)
Record Opcode := MkOp { op_tag : OpTag; op_i1 : Z; op_i2 : Z; op_j1 : Z; op_j2 : Z }.

Class Runtime := {
  (** [unicodedata.east_asian_width(ch) in ("W", "F")] *)
  east_asian_wide : char → bool;
  (** [ch.isalnum()], [ch.isprintable()], [ch.isdigit()] for one code point *)
  isalnum : char → bool;
  isprintable : char → bool;
  isdigit : char → bool;
  (** [int(s)]; [None] when it raises [ValueError] *)
  int_of_str : str → option Z;
  (** [json.loads(s)]: the value, or [(e.msg, e.lineno)] of the
      [JSONDecodeError] *)
  json_loads : str → JSON + (str * Z);
  (** [json.dumps(v, indent=..., ensure_ascii=False, sort_keys=...)] *)
  json_dumps : option Z → bool → JSON → str;
  (** [SequenceMatcher(None, a, b).get_opcodes()] *)
  get_opcodes : list str → list str → list Opcode;
  (** how many replays may nest inside a replay before Python's recursion
      limit is hit *)
  recursion_limit : nat
}.

(** ** Layout: display width and wrapping ([JsonEditor._make_segments],
    [JsonEditor._wrap_rows]) *)

Section Layout.
Context {R : Runtime}.

Definition _char_width (c : char) : Z :=
  if (c <? 256)%N then 1
  else if east_asian_wide c then 2 else 1.

(** [range(0, stop, step)] *)
Fixpoint range_from (fuel : nat) (s stop step : Z) : list Z :=
  match fuel with
  | O => []
  | S fuel' => if s <? stop then s :: range_from fuel' (s + step) stop step else []
  end.

Definition range_step (stop step : Z) : Outcome (list Z) :=
  if step =? 0 then Raise ValueError
  else if step <? 0 then Ok []
  else Ok (range_from (Z.to_nat stop) 0 stop step).

(** The loop state of [_make_segments]: [(segs, seg_start, w)], at
    index [i]. *)
Definition seg_step (avail : Z) (st : list (Z * Z) * Z * Z * Z) (c : char)
  : list (Z * Z) * Z * Z * Z :=
  let '(segs, seg_start, w, i) := st in
  let cw := _char_width c in
  if (avail <? w + cw) && (seg_start <? i)
  then (segs ++ [(seg_start, i)], i, cw, i + 1)
  else (segs, seg_start, w + cw, i + 1).

Definition _make_segments (line : str) (avail : Z) : Outcome (list (Z * Z)) :=
  if bool_decide (line = []) then Ok [(0, 0)]
  else if isascii line then
    let! starts := range_step (len line) avail in
    Ok ((λ s, (s, Z.min (s + avail) (len line))) <$> starts)
  else
    let '(segs, seg_start, _, _) := fold_left (seg_step avail) line ([], 0, 0, 0) in
    Ok (segs ++ [(seg_start, len line)]).

(** The loop state of [_wrap_rows]: [(rows, w)]. *)
Definition row_step (avail : Z) (st : Z * Z) (c : char) : Z * Z :=
  let '(rows, w) := st in
  let cw := _char_width c in
  if avail <? w + cw then (rows + 1, cw) else (rows, w + cw).

Definition _wrap_rows (line : str) (avail : Z) : Outcome Z :=
  if bool_decide (line = []) then Ok 1
  else if isascii line then
    if avail =? 0 then Raise ZeroDivisionError
    else Ok (- (- len line / avail))
  else Ok (fst (fold_left (row_step avail) line (1, 0))).

(** Segments that tile [0 .. n]: each starts where the previous one ends. *)
Fixpoint tiles (from : Z) (segs : list (Z * Z)) (n : Z) : Prop :=
  match segs with
  | [] => from = n
  | (s, e) :: rest => s = from ∧ s ≤ e ∧ tiles e rest n
  end.

End Layout.

(** ** The editor state ([JsonEditor.__init__]) *)

Inductive EditorMode := NORMAL | INSERT | COMMAND.

#[global] Instance EditorMode_eq_dec : EqDecision EditorMode.
Proof. solve_decision. Defined.

(** A key event: [event.key] and [event.character]. The dot buffer holds
    the same pairs. *)
Record KeyEvent := MkKey { key : str; character : option str }.

Inductive Message :=
| JsonValidated (content : str) (valid : bool) (error : str)
| FileSaveRequested (content file_path : str) (quit_after : bool)
| FileOpenRequested (file_path : str)
| Quit
| ForceQuit
| HelpToggleRequested
| EmbeddedEditRequested (content : str)
    (source_row source_col_start source_col_end : Z).

(** An undo or redo entry: [(lines[:], cursor_row, cursor_col)]. *)
Definition Snapshot : Type := list str * Z * Z.

Record JsonEditor := MkEditor {
  read_only : bool;
  jsonl : bool;
  lines : list str;
  cursor_row : Z;
  cursor_col : Z;
  _mode : EditorMode;
  command_buffer : str;
  pending : str;
  status_msg : str;
  undo_stack : list Snapshot;
  redo_stack : list Snapshot;
  yank_buffer : list str;
  _scroll_top : Z;
  _dot_buffer : list KeyEvent;
  _dot_recording : bool;
  _dot_replaying : bool;
  (** the messages handed to [post_message], oldest first *)
  outbox : list Message
}.

Definition set_jsonl (v : bool) (s : JsonEditor) : JsonEditor :=
  MkEditor (read_only s) v (lines s) (cursor_row s) (cursor_col s)
    (_mode s) (command_buffer s) (pending s) (status_msg s) (undo_stack s)
    (redo_stack s) (yank_buffer s) (_scroll_top s) (_dot_buffer s)
    (_dot_recording s) (_dot_replaying s) (outbox s).
Definition set_lines (v : list str) (s : JsonEditor) : JsonEditor :=
  MkEditor (read_only s) (jsonl s) v (cursor_row s) (cursor_col s)
    (_mode s) (command_buffer s) (pending s) (status_msg s) (undo_stack s)
    (redo_stack s) (yank_buffer s) (_scroll_top s) (_dot_buffer s)
    (_dot_recording s) (_dot_replaying s) (outbox s).
Definition set_cursor_row (v : Z) (s : JsonEditor) : JsonEditor :=
  MkEditor (read_only s) (jsonl s) (lines s) v (cursor_col s)
    (_mode s) (command_buffer s) (pending s) (status_msg s) (undo_stack s)
    (redo_stack s) (yank_buffer s) (_scroll_top s) (_dot_buffer s)
    (_dot_recording s) (_dot_replaying s) (outbox s).
Definition set_cursor_col (v : Z) (s : JsonEditor) : JsonEditor :=
  MkEditor (read_only s) (jsonl s) (lines s) (cursor_row s) v
    (_mode s) (command_buffer s) (pending s) (status_msg s) (undo_stack s)
    (redo_stack s) (yank_buffer s) (_scroll_top s) (_dot_buffer s)
    (_dot_recording s) (_dot_replaying s) (outbox s).
Definition set_mode (v : EditorMode) (s : JsonEditor) : JsonEditor :=
  MkEditor (read_only s) (jsonl s) (lines s) (cursor_row s) (cursor_col s)
    v (command_buffer s) (pending s) (status_msg s) (undo_stack s)
    (redo_stack s) (yank_buffer s) (_scroll_top s) (_dot_buffer s)
    (_dot_recording s) (_dot_replaying s) (outbox s).
Definition set_command_buffer (v : str) (s : JsonEditor) : JsonEditor :=
  MkEditor (read_only s) (jsonl s) (lines s) (cursor_row s) (cursor_col s)
    (_mode s) v (pending s) (status_msg s) (undo_stack s)
    (redo_stack s) (yank_buffer s) (_scroll_top s) (_dot_buffer s)
    (_dot_recording s) (_dot_replaying s) (outbox s).
Definition set_pending (v : str) (s : JsonEditor) : JsonEditor :=
  MkEditor (read_only s) (jsonl s) (lines s) (cursor_row s) (cursor_col s)
    (_mode s) (command_buffer s) v (status_msg s) (undo_stack s)
    (redo_stack s) (yank_buffer s) (_scroll_top s) (_dot_buffer s)
    (_dot_recording s) (_dot_replaying s) (outbox s).
Definition set_status_msg (v : str) (s : JsonEditor) : JsonEditor :=
  MkEditor (read_only s) (jsonl s) (lines s) (cursor_row s) (cursor_col s)
    (_mode s) (command_buffer s) (pending s) v (undo_stack s)
    (redo_stack s) (yank_buffer s) (_scroll_top s) (_dot_buffer s)
    (_dot_recording s) (_dot_replaying s) (outbox s).
Definition set_undo_stack (v : list Snapshot) (s : JsonEditor) : JsonEditor :=
  MkEditor (read_only s) (jsonl s) (lines s) (cursor_row s) (cursor_col s)
    (_mode s) (command_buffer s) (pending s) (status_msg s) v
    (redo_stack s) (yank_buffer s) (_scroll_top s) (_dot_buffer s)
    (_dot_recording s) (_dot_replaying s) (outbox s).
Definition set_redo_stack (v : list Snapshot) (s : JsonEditor) : JsonEditor :=
  MkEditor (read_only s) (jsonl s) (lines s) (cursor_row s) (cursor_col s)
    (_mode s) (command_buffer s) (pending s) (status_msg s) (undo_stack s)
    v (yank_buffer s) (_scroll_top s) (_dot_buffer s)
    (_dot_recording s) (_dot_replaying s) (outbox s).
Definition set_yank_buffer (v : list str) (s : JsonEditor) : JsonEditor :=
  MkEditor (read_only s) (jsonl s) (lines s) (cursor_row s) (cursor_col s)
    (_mode s) (command_buffer s) (pending s) (status_msg s) (undo_stack s)
    (redo_stack s) v (_scroll_top s) (_dot_buffer s)
    (_dot_recording s) (_dot_replaying s) (outbox s).
Definition set_scroll_top (v : Z) (s : JsonEditor) : JsonEditor :=
  MkEditor (read_only s) (jsonl s) (lines s) (cursor_row s) (cursor_col s)
    (_mode s) (command_buffer s) (pending s) (status_msg s) (undo_stack s)
    (redo_stack s) (yank_buffer s) v (_dot_buffer s)
    (_dot_recording s) (_dot_replaying s) (outbox s).
Definition set_dot_buffer (v : list KeyEvent) (s : JsonEditor) : JsonEditor :=
  MkEditor (read_only s) (jsonl s) (lines s) (cursor_row s) (cursor_col s)
    (_mode s) (command_buffer s) (pending s) (status_msg s) (undo_stack s)
    (redo_stack s) (yank_buffer s) (_scroll_top s) v
    (_dot_recording s) (_dot_replaying s) (outbox s).
Definition set_dot_recording (v : bool) (s : JsonEditor) : JsonEditor :=
  MkEditor (read_only s) (jsonl s) (lines s) (cursor_row s) (cursor_col s)
    (_mode s) (command_buffer s) (pending s) (status_msg s) (undo_stack s)
    (redo_stack s) (yank_buffer s) (_scroll_top s) (_dot_buffer s)
    v (_dot_replaying s) (outbox s).
Definition set_dot_replaying (v : bool) (s : JsonEditor) : JsonEditor :=
  MkEditor (read_only s) (jsonl s) (lines s) (cursor_row s) (cursor_col s)
    (_mode s) (command_buffer s) (pending s) (status_msg s) (undo_stack s)
    (redo_stack s) (yank_buffer s) (_scroll_top s) (_dot_buffer s)
    (_dot_recording s) v (outbox s).
(** [self.post_message(m)] *)
Definition post_message (m : Message) (s : JsonEditor) : JsonEditor :=
  MkEditor (read_only s) (jsonl s) (lines s) (cursor_row s) (cursor_col s)
    (_mode s) (command_buffer s) (pending s) (status_msg s) (undo_stack s)
    (redo_stack s) (yank_buffer s) (_scroll_top s) (_dot_buffer s)
    (_dot_recording s) (_dot_replaying s) (outbox s ++ [m]).

(** [a == "text"] against a literal of the source. *)
Definition is_lit (a : str) (b : string) : bool := str_eqb a (lit b).
Arguments is_lit a b%_string.
Infix "==" := is_lit (at level 70, no associativity).

Definition NL : char := 10%N.

(** [self.lines[self.cursor_row]] *)
Definition cur_line (s : JsonEditor) : Outcome str :=
  py_get (lines s) (cursor_row s).

(** [len(line) - len(line.lstrip())] *)
Definition leading_ws (line : str) : Z := len line - len (lstrip line).

(** [len(line) - len(line.lstrip()) if line.strip() else 0] *)
Definition indent_of (line : str) : Z :=
  if bool_decide (strip line = []) then 0 else leading_ws line.

(** [s.isdigit()], [s.isprintable()] for a whole string. *)
Definition str_isdigit `{Runtime} (s : str) : bool :=
  negb (bool_decide (s = [])) && forallb isdigit s.
Definition str_isprintable `{Runtime} (s : str) : bool := forallb isprintable s.

(** ** The editor's operations ([src/vj/editor.py]) *)

Section Editor.
Context {R : Runtime}.

Definition _dot_start (event : KeyEvent) (s : JsonEditor) : JsonEditor :=
  if _dot_replaying s then s
  else set_dot_recording true (set_dot_buffer [event] s).

Definition _dot_stop (s : JsonEditor) : JsonEditor :=
  set_dot_recording false s.

Definition _save_undo (s : JsonEditor) : JsonEditor :=
  let st := undo_stack s ++ [(lines s, cursor_row s, cursor_col s)] in
  let st := if 200 <? len st then drop 1 st else st in
  set_redo_stack [] (set_undo_stack st s).

Definition _clamp_cursor (s : JsonEditor) : Outcome JsonEditor :=
  let s := set_cursor_row (Z.max 0 (Z.min (cursor_row s) (len (lines s) - 1))) s in
  let! line := cur_line s in
  let line_len := len line in
  let max_col :=
    match _mode s with
    | NORMAL => if line_len =? 0 then 0 else Z.max 0 (line_len - 1)
    | _ => line_len
    end in
  Ok (set_cursor_col (Z.max 0 (Z.min (cursor_col s) max_col)) s).

(** [max(1, self.content_region.height - 2)]; the widget's height is the
    host's. *)
Definition _visible_height (height : Z) : Z := Z.max 1 (height - 2).

Definition get_content (s : JsonEditor) : str := join [NL] (lines s).

(** *** JSON and JSONL helpers *)

(** The loop of [_split_jsonl_blocks]: [current] holds the lines of the
    open block. *)
Fixpoint split_blocks_loop (current : list str) (ls : list str) : list str :=
  match ls with
  | [] => if bool_decide (current = []) then [] else [join [NL] current]
  | line :: ls' =>
      if negb (bool_decide (strip line = []))
      then split_blocks_loop (current ++ [line]) ls'
      else if bool_decide (current = []) then split_blocks_loop [] ls'
      else join [NL] current :: split_blocks_loop [] ls'
  end.

Definition _split_jsonl_blocks (content : str) : list str :=
  split_blocks_loop [] (split_on NL content).

Definition _jsonl_to_pretty (content : str) : str :=
  join [NL; NL]
    (omap (λ line,
       let stripped := strip line in
       if bool_decide (stripped = []) then None
       else match json_loads stripped with
            | inl parsed => Some (json_dumps (Some 4) false parsed)
            | inr _ => Some stripped
            end)
     (split_on NL content)).

Definition _pretty_to_jsonl (content : str) : str :=
  join [NL]
    ((λ block,
       match json_loads block with
       | inl parsed => json_dumps None false parsed
       | inr _ => join (lit " ") (split_ws block)
       end) <$> _split_jsonl_blocks content).

(** The loop of [_jsonl_line_records]: the record number on the first line
    of each block, 0 elsewhere. *)
Fixpoint line_records_loop (record : Z) (in_block : bool) (ls : list str) : list Z :=
  match ls with
  | [] => []
  | line :: ls' =>
      if negb (bool_decide (strip line = []))
      then (if in_block then 0 :: line_records_loop record true ls'
            else (record + 1) :: line_records_loop (record + 1) true ls')
      else 0 :: line_records_loop record false ls'
  end.

Definition _jsonl_line_records (s : JsonEditor) : list Z :=
  line_records_loop 0 false (lines s).

(** The loop of [_check_content] over [enumerate(blocks, i)]: the number of
    the first block that does not parse, with [e.msg]. *)
Fixpoint first_bad_block (i : Z) (blocks : list str) : option (Z * str) :=
  match blocks with
  | [] => None
  | block :: rest =>
      match json_loads block with
      | inl _ => first_bad_block (i + 1) rest
      | inr (msg, _) => Some (i, msg)
      end
  end.

Definition _check_content (s : JsonEditor) (content : str) : bool * str :=
  if jsonl s then
    match first_bad_block 1 (_split_jsonl_blocks content) with
    | Some (i, msg) =>
        (false, lit "JSONL error: record " ++ str_of_Z i ++ lit ": " ++ msg)
    | None => (true, [])
    end
  else
    match json_loads content with
    | inl _ => (true, [])
    | inr (msg, lineno) =>
        (false, lit "JSON error: " ++ msg ++ lit " (line " ++ str_of_Z lineno ++ lit ")")
    end.

(** The loop of [_format_jsonl] over [enumerate(blocks)] from index [i]:
    the serialized records, or the index and [e.msg] of the first block that
    does not parse. *)
Fixpoint format_blocks_loop (i : Z) (blocks : list str) (formatted : list str)
  : list str + Z * str :=
  match blocks with
  | [] => inl formatted
  | block :: rest =>
      match json_loads block with
      | inl parsed =>
          format_blocks_loop (i + 1) rest
            (formatted ++ [json_dumps (Some 4) false parsed])
      | inr (msg, _) => inr (i, msg)
      end
  end.

Definition _format_jsonl (s : JsonEditor) : JsonEditor :=
  let content := get_content s in
  let blocks := _split_jsonl_blocks content in
  match format_blocks_loop 0 blocks [] with
  | inr (i, msg) =>
      set_status_msg
        (lit "cannot format: record " ++ str_of_Z (i + 1) ++ lit ": " ++ msg) s
  | inl formatted =>
      let s := _save_undo s in
      let s := set_lines (split_on NL (join [NL; NL] formatted)) s in
      let s := set_cursor_row 0 s in
      let s := set_cursor_col 0 s in
      set_status_msg (lit "formatted") s
  end.

Definition _format_json (s : JsonEditor) : JsonEditor :=
  if jsonl s then _format_jsonl s
  else
    let content := get_content s in
    match json_loads content with
    | inl parsed =>
        let formatted := json_dumps (Some 4) false parsed in
        let s := _save_undo s in
        let s := set_lines (split_on NL formatted) s in
        let s := set_cursor_row 0 s in
        let s := set_cursor_col 0 s in
        set_status_msg (lit "formatted") s
    | inr (msg, lineno) =>
        set_status_msg
          (lit "cannot format: " ++ msg ++ lit " (line " ++ str_of_Z lineno ++ lit ")") s
    end.

Definition QUOTE : char := 34%N.
Definition BACKSLASH : char := 92%N.

(** The [while] loop of [_find_string_at_cursor] from index [i] on; [rest]
    is [line[i:]] and [prev] is [line[i - 1]] ([None] at [i = 0]). *)
Fixpoint find_string_loop (line : str) (col : Z) (rest : str) (i : Z)
    (prev : option char) (in_string : bool) (string_start : Z)
  : option (Z * Z * JSON) :=
  match rest with
  | [] => None
  | c :: rest' =>
      if (c =? QUOTE)%N && negb (bool_decide (prev = Some BACKSLASH)) then
        if negb in_string
        then find_string_loop line col rest' (i + 1) (Some c) true i
        else if (string_start <=? col) && (col <=? i) then
          let raw := slice line (string_start + 1) i in
          match json_loads ([QUOTE] ++ raw ++ [QUOTE]) with
          | inl content => Some (string_start, i + 1, content)
          | inr _ => None
          end
        else find_string_loop line col rest' (i + 1) (Some c) false (-1)
      else find_string_loop line col rest' (i + 1) (Some c) in_string string_start
  end.

Definition _find_string_at_cursor (s : JsonEditor) : Outcome (option (Z * Z * JSON)) :=
  let! line := cur_line s in
  Ok (find_string_loop line (cursor_col s) line 0 None false (-1)).

Definition _edit_embedded_json (s : JsonEditor) : Outcome JsonEditor :=
  let! result := _find_string_at_cursor s in
  match result with
  | None => Ok (set_status_msg (lit "cursor not on a string value") s)
  | Some (col_start, col_end, content) =>
      match content with
      | JStr text =>
          match json_loads text with
          | inr _ => Ok (set_status_msg (lit "string is not valid JSON") s)
          | inl parsed =>
              match parsed with
              | JList _ | JDict _ =>
                  let formatted := json_dumps (Some 4) false parsed in
                  Ok (post_message
                        (EmbeddedEditRequested formatted (cursor_row s) col_start col_end) s)
              | _ => Ok (set_status_msg (lit "string is not a list or dict") s)
              end
          end
      | _ => Raise TypeError
      end
  end.

(** *** Movement helpers *)

Definition is_word (c : char) : bool := isalnum c || (c =? ch "_")%N.

(** [while col < len(line) and p(line[col]): col += 1] *)
Fixpoint scan_fwd (fuel : nat) (p : char → bool) (line : str) (col : Z) : Outcome Z :=
  match fuel with
  | O => Ok col
  | S fuel' =>
      if col <? len line then
        let! c := py_get line col in
        if p c then scan_fwd fuel' p line (col + 1) else Ok col
      else Ok col
  end.

Definition skip_fwd (p : char → bool) (line : str) (col : Z) : Outcome Z :=
  scan_fwd (Z.to_nat (len line - col)) p line col.

(** [while col > 0 and p(line[col + off]): col -= 1] *)
Fixpoint scan_back (fuel : nat) (p : char → bool) (line : str) (off col : Z) : Outcome Z :=
  match fuel with
  | O => Ok col
  | S fuel' =>
      if 0 <? col then
        let! c := py_get line (col + off) in
        if p c then scan_back fuel' p line off (col - 1) else Ok col
      else Ok col
  end.

Definition skip_back (p : char → bool) (line : str) (off col : Z) : Outcome Z :=
  scan_back (Z.to_nat col) p line off col.

Definition _move_word_forward (s : JsonEditor) : Outcome JsonEditor :=
  let! line := cur_line s in
  let col := cursor_col s in
  let! col := skip_fwd is_word line col in
  let! col := skip_fwd (λ c, negb (is_word c)) line col in
  if (len line <=? col) && (cursor_row s <? len (lines s) - 1) then
    let s := set_cursor_row (cursor_row s + 1) s in
    let! nline := cur_line s in
    Ok (set_cursor_col (leading_ws nline) s)
  else Ok (set_cursor_col (Z.min col (Z.max 0 (len line - 1))) s).

Definition _move_word_backward (s : JsonEditor) : Outcome JsonEditor :=
  let! line := cur_line s in
  let col := cursor_col s in
  if col =? 0 then
    if 0 <? cursor_row s then
      let s := set_cursor_row (cursor_row s - 1) s in
      let! pline := cur_line s in
      Ok (set_cursor_col (Z.max 0 (len pline - 1)) s)
    else Ok s
  else
    let col := col - 1 in
    let! col := skip_back (λ c, negb (is_word c)) line 0 col in
    let! col := skip_back is_word line (-1) col in
    Ok (set_cursor_col col s).

(** The inner loop of the bracket searches, on one line: the column of the
    match, or the depth the scan ends with. *)
Fixpoint bracket_scan_fwd (fuel : nat) (incr decr : char) (line : str) (col depth : Z)
  : Outcome (Z + Z) :=
  match fuel with
  | O => Ok (inr depth)
  | S fuel' =>
      if col <? len line then
        let! c := py_get line col in
        if (c =? incr)%N then bracket_scan_fwd fuel' incr decr line (col + 1) (depth + 1)
        else if (c =? decr)%N then
          if depth - 1 =? 0 then Ok (inl col)
          else bracket_scan_fwd fuel' incr decr line (col + 1) (depth - 1)
        else bracket_scan_fwd fuel' incr decr line (col + 1) depth
      else Ok (inr depth)
  end.

Fixpoint bracket_scan_back (fuel : nat) (incr decr : char) (line : str) (col depth : Z)
  : Outcome (Z + Z) :=
  match fuel with
  | O => Ok (inr depth)
  | S fuel' =>
      if 0 <=? col then
        let! c := py_get line col in
        if (c =? incr)%N then bracket_scan_back fuel' incr decr line (col - 1) (depth + 1)
        else if (c =? decr)%N then
          if depth - 1 =? 0 then Ok (inl col)
          else bracket_scan_back fuel' incr decr line (col - 1) (depth - 1)
        else bracket_scan_back fuel' incr decr line (col - 1) depth
      else Ok (inr depth)
  end.

(** The outer loop of [_search_bracket_forward], from [(row, col)]. *)
Fixpoint search_fwd_rows (fuel : nat) (open_ch close_ch : char) (s : JsonEditor)
    (row col depth : Z) : Outcome JsonEditor :=
  match fuel with
  | O => Ok s
  | S fuel' =>
      if row <? len (lines s) then
        let! line := py_get (lines s) row in
        let! r := bracket_scan_fwd (Z.to_nat (len line - col)) open_ch close_ch line col depth in
        match r with
        | inl c => Ok (set_cursor_col c (set_cursor_row row s))
        | inr depth' => search_fwd_rows fuel' open_ch close_ch s (row + 1) 0 depth'
        end
      else Ok s
  end.

Definition _search_bracket_forward (open_ch close_ch : char) (s : JsonEditor)
  : Outcome JsonEditor :=
  search_fwd_rows (Z.to_nat (len (lines s) - cursor_row s)) open_ch close_ch s
    (cursor_row s) (cursor_col s + 1) 1.

(** The outer loop of [_search_bracket_backward], from [(row, col)]. *)
Fixpoint search_back_rows (fuel : nat) (close_ch open_ch : char) (s : JsonEditor)
    (row col depth : Z) : Outcome JsonEditor :=
  match fuel with
  | O => Ok s
  | S fuel' =>
      if 0 <=? row then
        let! line := py_get (lines s) row in
        let! r := bracket_scan_back (Z.to_nat (col + 1)) close_ch open_ch line col depth in
        match r with
        | inl c => Ok (set_cursor_col c (set_cursor_row row s))
        | inr depth' =>
            let row := row - 1 in
            if 0 <=? row then
              let! pline := py_get (lines s) row in
              search_back_rows fuel' close_ch open_ch s row (len pline - 1) depth'
            else search_back_rows fuel' close_ch open_ch s row col depth'
        end
      else Ok s
  end.

Definition _search_bracket_backward (close_ch open_ch : char) (s : JsonEditor)
  : Outcome JsonEditor :=
  search_back_rows (Z.to_nat (cursor_row s + 1)) close_ch open_ch s
    (cursor_row s) (cursor_col s - 1) 1.

Definition _jump_matching_bracket (s : JsonEditor) : Outcome JsonEditor :=
  let! line := cur_line s in
  if len line <=? cursor_col s then Ok s
  else
    let! c := py_get line (cursor_col s) in
    if (c =? ch "{")%N then _search_bracket_forward c (ch "}") s
    else if (c =? ch "[")%N then _search_bracket_forward c (ch "]") s
    else if (c =? ch "(")%N then _search_bracket_forward c (ch ")") s
    else if (c =? ch "}")%N then _search_bracket_backward c (ch "{") s
    else if (c =? ch "]")%N then _search_bracket_backward c (ch "[") s
    else if (c =? ch ")")%N then _search_bracket_backward c (ch "(") s
    else Ok s.


(** *** Edit helpers *)

Definition _delete_word (s : JsonEditor) : Outcome JsonEditor :=
  let! line := cur_line s in
  let col := cursor_col s in
  let start := col in
  let! col := skip_fwd is_word line col in
  let! col := skip_fwd (λ c, (c =? ch " ")%N) line col in
  let col := if (col =? start) && (col <? len line) then col + 1 else col in
  let! ls := py_set (lines s) (cursor_row s) (slice_to line start ++ slice_from line col) in
  Ok (set_lines ls s).

(** [for i, line in enumerate(items): ls.insert(start + i, line)] *)
Fixpoint insert_lines (ls : list str) (start : Z) (items : list str) : list str :=
  match items with
  | [] => ls
  | line :: rest => insert_lines (py_insert ls start line) (start + 1) rest
  end.

Definition _paste_after (s : JsonEditor) : JsonEditor :=
  if bool_decide (yank_buffer s = []) then s
  else
    let s := _save_undo s in
    let s := set_lines (insert_lines (lines s) (cursor_row s + 1) (yank_buffer s)) s in
    let s := set_cursor_row (cursor_row s + 1) s in
    set_cursor_col 0 s.

Definition _paste_before (s : JsonEditor) : JsonEditor :=
  if bool_decide (yank_buffer s = []) then s
  else
    let s := _save_undo s in
    let s := set_lines (insert_lines (lines s) (cursor_row s) (yank_buffer s)) s in
    set_cursor_col 0 s.

Definition _join_lines (s : JsonEditor) : Outcome JsonEditor :=
  if len (lines s) - 1 <=? cursor_row s then Ok s
  else
    let s := _save_undo s in
    let! cur0 := cur_line s in
    let cur := rstrip cur0 in
    let! nxt0 := py_get (lines s) (cursor_row s + 1) in
    let nxt := lstrip nxt0 in
    let s := set_cursor_col (len cur) s in
    let! ls := py_set (lines s) (cursor_row s) (cur ++ lit " " ++ nxt) in
    let! ls := py_pop ls (cursor_row s + 1) in
    Ok (set_lines ls s).

(** [stack.pop()]: the stack without its last entry. *)
Definition drop_last {A} (st : list A) : list A := take (length st - 1)%nat st.

Definition _undo (s : JsonEditor) : JsonEditor :=
  match list.last (undo_stack s) with
  | None => set_status_msg (lit "nothing to undo") s
  | Some (ls, row, col) =>
      let s := set_redo_stack
                 (redo_stack s ++ [(lines s, cursor_row s, cursor_col s)]) s in
      let s := set_undo_stack (drop_last (undo_stack s)) s in
      let s := set_lines ls s in
      let s := set_cursor_row row s in
      let s := set_cursor_col col s in
      set_status_msg (lit "undone") s
  end.

Definition _redo (s : JsonEditor) : JsonEditor :=
  match list.last (redo_stack s) with
  | None => set_status_msg (lit "nothing to redo") s
  | Some (ls, row, col) =>
      let s := set_undo_stack
                 (undo_stack s ++ [(lines s, cursor_row s, cursor_col s)]) s in
      let s := set_redo_stack (drop_last (redo_stack s)) s in
      let s := set_lines ls s in
      let s := set_cursor_row row s in
      let s := set_cursor_col col s in
      set_status_msg (lit "redone") s
  end.

Definition _enter_insert (s : JsonEditor) : JsonEditor :=
  if read_only s then set_status_msg (lit "[readonly]") s
  else set_status_msg (lit "-- INSERT --") (set_mode INSERT s).

(** *** Pending two-character commands *)

Definition _handle_pending (s : JsonEditor) (char key : str) : Outcome JsonEditor :=
  if (key == "escape") || bool_decide (char = []) then
    Ok (_dot_stop (set_status_msg [] (set_pending [] s)))
  else
    let combo := pending s ++ char in
    let s := set_pending [] s in
    if read_only s && negb ((combo == "yy") || (combo == "gg") || (combo == "ej")) then
      Ok (set_status_msg (lit "[readonly]") s)
    else if combo == "dd" then
      let s := _save_undo s in
      let! line := cur_line s in
      let s := set_yank_buffer [line] s in
      let! s :=
        if 1 <? len (lines s) then
          let! ls := py_pop (lines s) (cursor_row s) in
          let s := set_lines ls s in
          Ok (if len (lines s) <=? cursor_row s
              then set_cursor_row (len (lines s) - 1) s else s)
        else
          let! ls := py_set (lines s) 0 [] in
          Ok (set_lines ls s) in
      let s := set_cursor_col 0 s in
      let s := set_status_msg (lit "line deleted") s in
      Ok (_dot_stop s)
    else if combo == "dw" then
      let s := _save_undo s in
      let! s := _delete_word s in
      Ok (_dot_stop s)
    else if combo == "d$" then
      let s := _save_undo s in
      let! line := cur_line s in
      let! ls := py_set (lines s) (cursor_row s) (slice_to line (cursor_col s)) in
      Ok (_dot_stop (set_lines ls s))
    else if combo == "d0" then
      let s := _save_undo s in
      let! line := cur_line s in
      let! ls := py_set (lines s) (cursor_row s) (slice_from line (cursor_col s)) in
      let s := set_lines ls s in
      let s := set_cursor_col 0 s in
      Ok (_dot_stop s)
    else if combo == "cw" then
      let s := _save_undo s in
      let! s := _delete_word s in
      Ok (_enter_insert s)
    else if combo == "cc" then
      let s := _save_undo s in
      let! line := cur_line s in
      let indent := indent_of line in
      let s := set_yank_buffer [line] s in
      let! ls := py_set (lines s) (cursor_row s) (spaces indent) in
      let s := set_lines ls s in
      let s := set_cursor_col indent s in
      Ok (_enter_insert s)
    else if combo == "yy" then
      let! line := cur_line s in
      let s := set_yank_buffer [line] s in
      Ok (set_status_msg (lit "line yanked") s)
    else if combo == "gg" then
      Ok (set_cursor_col 0 (set_cursor_row 0 s))
    else if (len combo =? 2) && bool_decide (combo !! 0%nat = Some (ch "r")) then
      let s := _save_undo s in
      let! line := cur_line s in
      let! s :=
        if cursor_col s <? len line then
          let! ls := py_set (lines s) (cursor_row s)
                       (slice_to line (cursor_col s) ++ slice combo 1 2
                        ++ slice_from line (cursor_col s + 1)) in
          Ok (set_lines ls s)
        else Ok s in
      Ok (_dot_stop s)
    else if combo == "ej" then _edit_embedded_json s
    else
      let s := _dot_stop s in
      Ok (set_status_msg (lit "unknown: " ++ combo) s).

(** *** Insert mode *)

Definition _handle_insert (s : JsonEditor) (event : KeyEvent) : Outcome JsonEditor :=
  let key := key event in
  let char := character event in
  if key == "escape" then
    let s := _dot_stop s in
    let s := set_mode NORMAL s in
    let s := set_cursor_col (Z.max 0 (cursor_col s - 1)) s in
    Ok (set_status_msg [] s)
  else if key == "backspace" then
    let s := _save_undo s in
    if 0 <? cursor_col s then
      let! line := cur_line s in
      let! ls := py_set (lines s) (cursor_row s)
                   (slice_to line (cursor_col s - 1) ++ slice_from line (cursor_col s)) in
      let s := set_lines ls s in
      Ok (set_cursor_col (cursor_col s - 1) s)
    else if 0 <? cursor_row s then
      let! prev := py_get (lines s) (cursor_row s - 1) in
      let s := set_cursor_col (len prev) s in
      let! line := cur_line s in
      let! ls := py_set (lines s) (cursor_row s - 1) (prev ++ line) in
      let! ls := py_pop ls (cursor_row s) in
      let s := set_lines ls s in
      Ok (set_cursor_row (cursor_row s - 1) s)
    else Ok s
  else if key == "enter" then
    let s := _save_undo s in
    let! line := cur_line s in
    let indent := indent_of line in
    let before := rstrip (slice_to line (cursor_col s)) in
    let after := lstrip (slice_from line (cursor_col s)) in
    if ends_with_open before
       && match after with
          | c :: _ => (c =? ch "}")%N || (c =? ch "]")%N
          | [] => false
          end
    then
      let closing_indent := spaces indent in
      let new_indent := spaces indent ++ lit "    " in
      let! ls := py_set (lines s) (cursor_row s) (slice_to line (cursor_col s)) in
      let ls := py_insert ls (cursor_row s + 1) new_indent in
      let ls := py_insert ls (cursor_row s + 2)
                  (closing_indent ++ lstrip (slice_from line (cursor_col s))) in
      let s := set_lines ls s in
      let s := set_cursor_row (cursor_row s + 1) s in
      Ok (set_cursor_col (len new_indent) s)
    else
      let extra := if ends_with_open before then lit "    " else [] in
      let! ls := py_set (lines s) (cursor_row s) (slice_to line (cursor_col s)) in
      let new_line := spaces indent ++ extra ++ slice_from line (cursor_col s) in
      let s := set_lines ls s in
      let s := set_cursor_row (cursor_row s + 1) s in
      let s := set_lines (py_insert (lines s) (cursor_row s) new_line) s in
      Ok (set_cursor_col (indent + len extra) s)
  else if key == "tab" then
    let s := _save_undo s in
    let! line := cur_line s in
    let! ls := py_set (lines s) (cursor_row s)
                 (slice_to line (cursor_col s) ++ lit "    "
                  ++ slice_from line (cursor_col s)) in
    let s := set_lines ls s in
    Ok (set_cursor_col (cursor_col s + 4) s)
  else if key == "end" then
    let! line := cur_line s in
    Ok (set_cursor_col (len line) s)
  else if key == "home" then
    let! line := cur_line s in
    Ok (set_cursor_col (leading_ws line) s)
  else if key == "left" then Ok (set_cursor_col (cursor_col s - 1) s)
  else if key == "right" then Ok (set_cursor_col (cursor_col s + 1) s)
  else if key == "up" then Ok (set_cursor_row (cursor_row s - 1) s)
  else if key == "down" then Ok (set_cursor_row (cursor_row s + 1) s)
  else
    (** auto-dedent for closing brackets: returns early only on a blank
        prefix *)
    let! r :=
      match char with
      | Some c =>
          if (c == "}") || (c == "]") then
            let s := _save_undo s in
            let! line := cur_line s in
            let before := slice_to line (cursor_col s) in
            if bool_decide (strip before = []) then
              let new_indent := Z.max 0 (len before - 4) in
              let! ls := py_set (lines s) (cursor_row s)
                           (spaces new_indent ++ c ++ slice_from line (cursor_col s)) in
              let s := set_lines ls s in
              Ok (inl (set_cursor_col (new_indent + 1) s))
            else Ok (inr s)
          else Ok (inr s)
      | None => Ok (inr s)
      end in
    match r with
    | inl s => Ok s
    | inr s =>
        match char with
        | Some c =>
            if negb (bool_decide (c = [])) && str_isprintable c then
              let s := _save_undo s in
              let! line := cur_line s in
              let! ls := py_set (lines s) (cursor_row s)
                           (slice_to line (cursor_col s) ++ c
                            ++ slice_from line (cursor_col s)) in
              let s := set_lines ls s in
              Ok (set_cursor_col (cursor_col s + 1) s)
            else Ok s
        | None => Ok s
        end
    end.

(** *** Command mode *)

(** [for i, rec in enumerate(records): if rec == num: ...]: the first index
    whose record number is [num]. *)
Fixpoint find_record (i : Z) (records : list Z) (num : Z) : option Z :=
  match records with
  | [] => None
  | rec :: rest => if rec =? num then Some i else find_record (i + 1) rest num
  end.

(** [stripped[0] == c and stripped[1:].isdigit()] with [len(stripped) > 1] *)
Definition prefixed_number (c : char) (stripped : str) : bool :=
  (1 <? len stripped) && bool_decide (stripped !! 0%nat = Some c)
  && str_isdigit (slice_from stripped 1).

Definition goto_line (num : Z) (s : JsonEditor) : JsonEditor :=
  let s := set_cursor_row (Z.max 0 (Z.min (num - 1) (len (lines s) - 1))) s in
  set_cursor_col 0 s.

(** The [w] and [wq]/[x] branches after the read-only test. *)
Definition request_save (force : bool) (arg : str) (quit_after : bool)
    (s : JsonEditor) : JsonEditor :=
  let content := get_content s in
  let '(valid, err) := if force then (true, []) else _check_content s content in
  if negb valid then set_status_msg err s
  else
    let save := if jsonl s then _pretty_to_jsonl content else content in
    post_message (FileSaveRequested save arg quit_after) s.

Definition _exec_command (s : JsonEditor) (cmd : str) : Outcome JsonEditor :=
  let stripped := strip cmd in
  if stripped == "$" then
    Ok (set_cursor_col 0 (set_cursor_row (len (lines s) - 1) s))
  else if prefixed_number (ch "l") stripped then
    let! num := of_option ValueError (int_of_str (slice_from stripped 1)) in
    Ok (goto_line num s)
  else if str_isdigit stripped || prefixed_number (ch "p") stripped then
    let! num := of_option ValueError
                  (int_of_str (if str_isdigit stripped then stripped
                               else slice_from stripped 1)) in
    if jsonl s then
      match find_record 0 (_jsonl_line_records s) num with
      | Some i => Ok (set_cursor_col 0 (set_cursor_row i s))
      | None =>
          Ok (set_status_msg (lit "record " ++ str_of_Z num ++ lit " not found") s)
      end
    else Ok (goto_line num s)
  else
    let parts := split_ws1 cmd in
    let verb := default [] (parts !! 0%nat) in
    let arg := default [] (parts !! 1%nat) in
    let force := ends_with verb (ch "!") in
    let verb := if force then slice_to verb (-1) else verb in
    if verb == "w" then
      if read_only s then Ok (set_status_msg (lit "[readonly]") s)
      else Ok (request_save force arg false s)
    else if verb == "q" then
      Ok (post_message (if force then ForceQuit else Quit) s)
    else if (verb == "wq") || (verb == "x") then
      if read_only s then Ok (post_message Quit s)
      else Ok (request_save force arg true s)
    else if verb == "e" then
      if bool_decide (arg = []) then Ok (set_status_msg (lit "Usage: :e <file>") s)
      else Ok (post_message (FileOpenRequested arg) s)
    else if (verb == "fmt") || (verb == "format") then
      if read_only s then Ok (set_status_msg (lit "[readonly]") s)
      else Ok (_format_json s)
    else if verb == "help" then Ok (post_message HelpToggleRequested s)
    else Ok (set_status_msg (lit "unknown command: :" ++ cmd) s).

Definition _handle_command (s : JsonEditor) (event : KeyEvent) : Outcome JsonEditor :=
  let key := key event in
  let char := character event in
  if key == "escape" then
    Ok (set_status_msg [] (set_command_buffer [] (set_mode NORMAL s)))
  else if key == "enter" then
    let! s := _exec_command s (strip (command_buffer s)) in
    let s := if bool_decide (_mode s = COMMAND) then set_mode NORMAL s else s in
    Ok (set_command_buffer [] s)
  else if key == "backspace" then
    if negb (bool_decide (command_buffer s = []))
    then Ok (set_command_buffer (slice_to (command_buffer s) (-1)) s)
    else Ok (set_mode NORMAL s)
  else
    match char with
    | Some c =>
        if negb (bool_decide (c = [])) && str_isprintable c
        then Ok (set_command_buffer (command_buffer s ++ c) s)
        else Ok s
    | None => Ok s
    end.

(** *** Normal mode and dot-repeat *)

(** [self._mode.name] *)
Definition mode_name (m : EditorMode) : str :=
  match m with
  | NORMAL => lit "NORMAL"
  | INSERT => lit "INSERT"
  | COMMAND => lit "COMMAND"
  end.

(** [_handle_normal]; [replay] is what the [.] branch calls
    ([self._dot_replay]) and [height] the widget's height. *)
Definition handle_normal_with (replay : JsonEditor → Outcome JsonEditor)
    (height : Z) (s : JsonEditor) (event : KeyEvent) : Outcome JsonEditor :=
  let key := key event in
  let char := default [] (character event) in
  if negb (bool_decide (pending s = [])) then _handle_pending s char key
  (* movement *)
  else if (char == "h") || (key == "left") then
    Ok (set_cursor_col (cursor_col s - 1) s)
  else if (char == "j") || (key == "down") then
    Ok (set_cursor_row (cursor_row s + 1) s)
  else if (char == "k") || (key == "up") then
    Ok (set_cursor_row (cursor_row s - 1) s)
  else if (char == "l") || (key == "right") then
    Ok (set_cursor_col (cursor_col s + 1) s)
  else if char == "w" then _move_word_forward s
  else if char == "b" then _move_word_backward s
  else if char == "0" then Ok (set_cursor_col 0 s)
  else if (char == "$") || (key == "end") then
    let! line := cur_line s in
    Ok (set_cursor_col (Z.max 0 (len line - 1)) s)
  else if (char == "^") || (key == "home") then
    let! line := cur_line s in
    Ok (set_cursor_col (leading_ws line) s)
  else if char == "G" then Ok (set_cursor_row (len (lines s) - 1) s)
  else if char == "%" then _jump_matching_bracket s
  else if (key == "pagedown") || (key == "ctrl+f") then
    Ok (set_cursor_row (cursor_row s + _visible_height height) s)
  else if (key == "pageup") || (key == "ctrl+b") then
    Ok (set_cursor_row (cursor_row s - _visible_height height) s)
  else if key == "ctrl+d" then
    Ok (set_cursor_row (cursor_row s + _visible_height height / 2) s)
  else if key == "ctrl+u" then
    Ok (set_cursor_row (cursor_row s - _visible_height height / 2) s)
  else if key == "ctrl+e" then
    Ok (set_scroll_top (Z.min (_scroll_top s + 1) (len (lines s) - 1)) s)
  else if key == "ctrl+y" then
    Ok (set_scroll_top (Z.max (_scroll_top s - 1) 0) s)
  else if key == "ctrl+g" then
    let total := len (lines s) in
    let pct := if total =? 0 then 0 else (cursor_row s + 1) * 100 / total in
    Ok (set_status_msg
          ([QUOTE] ++ mode_name (_mode s) ++ [QUOTE] ++ lit " line "
           ++ str_of_Z (cursor_row s + 1) ++ lit " of " ++ str_of_Z total
           ++ lit " --" ++ str_of_Z pct ++ lit "%--") s)
  (* enter insert mode *)
  else if char == "i" then
    let s := if negb (read_only s) then _dot_start event s else s in
    Ok (_enter_insert s)
  else if char == "I" then
    let s := if negb (read_only s) then _dot_start event s else s in
    let! line := cur_line s in
    let s := set_cursor_col (leading_ws line) s in
    Ok (_enter_insert s)
  else if char == "a" then
    let s := if negb (read_only s) then _dot_start event s else s in
    let s := set_cursor_col (cursor_col s + 1) s in
    Ok (_enter_insert s)
  else if char == "A" then
    let s := if negb (read_only s) then _dot_start event s else s in
    let! line := cur_line s in
    let s := set_cursor_col (len line) s in
    Ok (_enter_insert s)
  else if char == "o" then
    if read_only s then Ok (set_status_msg (lit "[readonly]") s)
    else
      let s := _dot_start event s in
      let s := _save_undo s in
      let! line := cur_line s in
      let indent := indent_of line in
      let before := rstrip line in
      let extra := if ends_with_open before then lit "    " else [] in
      let s := set_cursor_row (cursor_row s + 1) s in
      let s := set_lines (py_insert (lines s) (cursor_row s) (spaces indent ++ extra)) s in
      let s := set_cursor_col (indent + len extra) s in
      Ok (_enter_insert s)
  else if char == "O" then
    if read_only s then Ok (set_status_msg (lit "[readonly]") s)
    else
      let s := _dot_start event s in
      let s := _save_undo s in
      let! line := cur_line s in
      let indent := indent_of line in
      let s := set_lines (py_insert (lines s) (cursor_row s) (spaces indent)) s in
      let s := set_cursor_col indent s in
      Ok (_enter_insert s)
  (* single-key edits *)
  else if char == "x" then
    if read_only s then Ok (set_status_msg (lit "[readonly]") s)
    else
      let s := _dot_start event s in
      let s := _dot_stop s in
      let s := _save_undo s in
      let! line := cur_line s in
      if negb (bool_decide (line = [])) && (cursor_col s <? len line) then
        let! ls := py_set (lines s) (cursor_row s)
                     (slice_to line (cursor_col s) ++ slice_from line (cursor_col s + 1)) in
        Ok (set_lines ls s)
      else Ok s
  else if char == "p" then
    if read_only s then Ok (set_status_msg (lit "[readonly]") s)
    else Ok (_paste_after (_dot_stop (_dot_start event s)))
  else if char == "P" then
    if read_only s then Ok (set_status_msg (lit "[readonly]") s)
    else Ok (_paste_before (_dot_stop (_dot_start event s)))
  else if char == "u" then
    if read_only s then Ok (set_status_msg (lit "[readonly]") s)
    else Ok (_undo s)
  else if key == "ctrl+r" then
    if read_only s then Ok (set_status_msg (lit "[readonly]") s)
    else Ok (_redo s)
  else if char == "J" then
    if read_only s then Ok (set_status_msg (lit "[readonly]") s)
    else _join_lines (_dot_stop (_dot_start event s))
  (* dot repeat *)
  else if char == "." then
    if negb (read_only s) then replay s else Ok s
  (* multi-key starters *)
  else if (char == "d") || (char == "c") || (char == "y") || (char == "r")
          || (char == "g") || (char == "e") then
    let passive := (char == "y") || (char == "g") || (char == "e") in
    if read_only s && negb passive then Ok (set_status_msg (lit "[readonly]") s)
    else
      let s := if negb passive then _dot_start event s else s in
      Ok (set_pending char s)
  (* command mode *)
  else if char == ":" then
    Ok (set_status_msg [] (set_command_buffer [] (set_mode COMMAND s)))
  else Ok s.

(** One turn of the loop of [_dot_replay]: the recorded event goes to the
    handler of the current mode, then the cursor is clamped. *)
Definition replay_step (normal : JsonEditor → KeyEvent → Outcome JsonEditor)
    (s : JsonEditor) (recorded : KeyEvent) : Outcome JsonEditor :=
  let! s :=
    match _mode s with
    | NORMAL => normal s recorded
    | INSERT => _handle_insert s recorded
    | COMMAND => Ok s
    end in
  _clamp_cursor s.

Definition dot_replay_with (normal : JsonEditor → KeyEvent → Outcome JsonEditor)
    (s : JsonEditor) : Outcome JsonEditor :=
  if bool_decide (_dot_buffer s = []) then Ok s
  else
    let recorded := _dot_buffer s in
    let s := set_dot_replaying true s in
    let! s := for_each (replay_step normal) recorded s in
    Ok (set_dot_replaying false s).

(** [_dot_replay] with [depth] further replays allowed inside it; one more
    raises [RecursionError]. *)
Fixpoint _dot_replay (depth : nat) (height : Z) (s : JsonEditor) : Outcome JsonEditor :=
  dot_replay_with
    (handle_normal_with
       match depth with
       | O => λ _, Raise RecursionError
       | S depth' => _dot_replay depth' height
       end
       height) s.

Definition _handle_normal (height : Z) (s : JsonEditor) (event : KeyEvent)
  : Outcome JsonEditor :=
  handle_normal_with (_dot_replay recursion_limit height) height s event.

(** *** The key handler and the public API *)

Definition on_key (height : Z) (s : JsonEditor) (event : KeyEvent) : Outcome JsonEditor :=
  let s := if negb (_dot_replaying s) && _dot_recording s
           then set_dot_buffer (_dot_buffer s ++ [event]) s else s in
  let! s :=
    match _mode s with
    | NORMAL => _handle_normal height s event
    | INSERT => _handle_insert s event
    | COMMAND => _handle_command s event
    end in
  _clamp_cursor s.

(** [JsonEditor(initial_content, read_only=..., jsonl=...)] *)
Definition init (initial_content : str) (ro is_jsonl : bool) : JsonEditor :=
  let initial_content :=
    if is_jsonl && negb (bool_decide (initial_content = []))
    then _jsonl_to_pretty initial_content else initial_content in
  {| read_only := ro; jsonl := is_jsonl;
     lines := if negb (bool_decide (initial_content = []))
              then split_on NL initial_content else [[]];
     cursor_row := 0; cursor_col := 0; _mode := NORMAL;
     command_buffer := []; pending := []; status_msg := [];
     undo_stack := []; redo_stack := []; yank_buffer := [];
     _scroll_top := 0; _dot_buffer := []; _dot_recording := false;
     _dot_replaying := false; outbox := [] |}.

Definition set_content (s : JsonEditor) (content : str) : JsonEditor :=
  let content :=
    if jsonl s && negb (bool_decide (content = []))
    then _jsonl_to_pretty content else content in
  let s := set_lines (if negb (bool_decide (content = []))
                      then split_on NL content else [[]]) s in
  set_cursor_col 0 (set_cursor_row 0 s).

Definition update_embedded_string (s : JsonEditor) (row col_start col_end : Z)
    (new_content : str) : Outcome JsonEditor :=
  let s := _save_undo s in
  let escaped := json_dumps None false (JStr new_content) in
  let! line := py_get (lines s) row in
  let! ls := py_set (lines s) row
               (slice_to line col_start ++ escaped ++ slice_from line col_end) in
  Ok (set_lines ls s).

(** The key events of a session, in order, each with the widget height the
    host reports at that time. *)
Definition run_keys (s : JsonEditor) (events : list (Z * KeyEvent)) : Outcome JsonEditor :=
  for_each (λ s he, on_key he.1 s he.2) events s.

End Editor.

(** ** The diff engine ([src/jvim/diff.py]) *)

Module DiffTag.
Inductive t := EQUAL | INSERT | DELETE | REPLACE.
End DiffTag.

#[global] Instance DiffTag_eq_dec : EqDecision DiffTag.t.
Proof. solve_decision. Defined.

Record DiffHunk := MkHunk {
  left_start : Z;
  left_count : Z;
  right_start : Z;
  right_count : Z;
  tag : DiffTag.t
}.

Record DiffResult := MkResult {
  left_lines : list str;
  right_lines : list str;
  left_line_tags : list DiffTag.t;
  right_line_tags : list DiffTag.t;
  hunks : list DiffHunk
}.

(** [DiffResult()] *)
Definition empty_result : DiffResult := MkResult [] [] [] [] [].

Definition append_pair (r : DiffResult) (left right : str) (t : DiffTag.t) : DiffResult :=
  MkResult (left_lines r ++ [left]) (right_lines r ++ [right])
    (left_line_tags r ++ [t]) (right_line_tags r ++ [t]) (hunks r).

Definition add_hunk (h : DiffHunk) (r : DiffResult) : DiffResult :=
  MkResult (left_lines r) (right_lines r) (left_line_tags r) (right_line_tags r)
    (hunks r ++ [h]).

(** [for i in range(len(left)): self.append_pair(left[i], right[i], EQUAL)] *)
Definition append_equal (r : DiffResult) (left right : list str) : Outcome DiffResult :=
  for_each (λ r i,
      let! l := py_get left i in
      let! x := py_get right i in
      Ok (append_pair r l x DiffTag.EQUAL))
    (seqZ 0 (len left)) r.

(** [left[k] if k < lc else ""] for [0 <= k] *)
Definition get_or_empty (l : list str) (k : Z) : str :=
  default [] (l !! Z.to_nat k).

Definition append_hunk (r : DiffResult) (left right : list str) (t : DiffTag.t)
  : DiffResult :=
  let hunk_start := len (left_lines r) in
  let count := Z.max (len left) (len right) in
  let r := foldl (λ r k, append_pair r (get_or_empty left k) (get_or_empty right k) t)
             r (seqZ 0 count) in
  if count =? 0 then r
  else add_hunk (MkHunk hunk_start count hunk_start count t) r.

Section Diff.
Context {R : Runtime}.

Definition _dumps (obj : JSON) (sort_keys : bool) : str :=
  json_dumps (Some 4) sort_keys obj.

Definition _try_format (content : str) (sort_keys : bool) : str :=
  match json_loads content with
  | inl v => _dumps v sort_keys
  | inr _ => content
  end.

Definition format_json (content : str) : str := _try_format content false.
Definition normalize_json (content : str) : str := _try_format content true.

Definition _format_jsonl_records (content : str) (sort_keys : bool) : list str :=
  omap (λ line,
      let stripped := strip line in
      if bool_decide (stripped = []) then None
      else Some (match json_loads stripped with
                 | inl v => _dumps v sort_keys
                 | inr _ => stripped
                 end))
    (split_on NL content).

Definition format_jsonl (content : str) : str :=
  join [NL; NL] (_format_jsonl_records content false).
Definition normalize_jsonl (content : str) : str :=
  join [NL; NL] (_format_jsonl_records content true).

(** [DiffTag[_STR_TO_TAG[tag]]]; the caller has dealt with ["equal"]. *)
Definition tag_of_op (t : OpTag) : DiffTag.t :=
  match t with
  | OpEqual => DiffTag.EQUAL
  | OpDelete => DiffTag.DELETE
  | OpInsert => DiffTag.INSERT
  | OpReplace => DiffTag.REPLACE
  end.

(** The loop state of [_line_diff] is [(result, total)]. *)
Definition line_diff_step (left right : list str) (st : DiffResult * Z) (op : Opcode)
  : Outcome (DiffResult * Z) :=
  let '(r, total) := st in
  let '(MkOp t i1 i2 j1 j2) := op in
  match t with
  | OpEqual =>
      let! r := append_equal r (slice left i1 i2) (slice right j1 j2) in
      Ok (r, total + (i2 - i1))
  | _ =>
      let dt := tag_of_op t in
      let mc := Z.max (i2 - i1) (j2 - j1) in
      let lc := i2 - i1 in
      let rc := j2 - j1 in
      let! r := for_each (λ r k,
                   let! l := if k <? lc then py_get left (i1 + k) else Ok [] in
                   let! x := if k <? rc then py_get right (j1 + k) else Ok [] in
                   Ok (append_pair r l x dt))
                 (seqZ 0 mc) r in
      Ok (r, total + mc)
  end.

Definition _line_diff (r : DiffResult) (left right : list str) : Outcome DiffResult :=
  let hunk_start := len (left_lines r) in
  let! st := for_each (line_diff_step left right) (get_opcodes left right) (r, 0) in
  let '(r, total) := st in
  if total =? 0 then Ok r
  else Ok (add_hunk (MkHunk hunk_start total hunk_start total DiffTag.REPLACE) r).

Definition _FULL_DIFF_LIMIT : Z := 50000.

(** [indent_counts[indent] = indent_counts.get(indent, 0) + 1] on a dict,
    which keeps its keys in insertion order. *)
Fixpoint count_incr (indent : Z) (counts : list (Z * Z)) : list (Z * Z) :=
  match counts with
  | [] => [(indent, 1)]
  | (k, v) :: rest =>
      if k =? indent then (k, v + 1) :: rest else (k, v) :: count_incr indent rest
  end.

(** [stripped and stripped[0] in ("{", "[")] *)
Definition starts_open (stripped : str) : bool :=
  match stripped with
  | c :: _ => (c =? ch "{")%N || (c =? ch "[")%N
  | [] => false
  end.

Definition starts_close (stripped : str) : bool :=
  match stripped with
  | c :: _ => (c =? ch "}")%N || (c =? ch "]")%N
  | [] => false
  end.

(** [max(indent_counts, key=indent_counts.get)]: the first key, in insertion
    order, with the largest count. *)
Fixpoint max_count (best : Z * Z) (counts : list (Z * Z)) : Z * Z :=
  match counts with
  | [] => best
  | (k, v) :: rest => max_count (if best.2 <? v then (k, v) else best) rest
  end.

Definition _detect_blocks (ls : list str) : option (Z * Z) :=
  let indent_counts :=
    foldl (λ counts line,
        let stripped := lstrip line in
        if starts_open stripped then count_incr (len line - len stripped) counts
        else counts)
      [] ls in
  match indent_counts with
  | [] => None
  | first :: rest =>
      let '(best_indent, count) := max_count first rest in
      if count <? 4 then None else Some (best_indent, count)
  end.

(** The loop state of [_build_segments]: [(segments, block_start,
    gap_start)], at index [i]. *)
Definition build_step (target_indent : Z)
    (st : list (Z * Z) * option Z * Z * Z) (line : str)
  : list (Z * Z) * option Z * Z * Z :=
  let '(segments, block_start, gap_start, i) := st in
  let stripped := lstrip line in
  if bool_decide (stripped = []) then (segments, block_start, gap_start, i + 1)
  else if negb (len line - len stripped =? target_indent)
  then (segments, block_start, gap_start, i + 1)
  else if starts_open stripped && bool_decide (block_start = None) then
    ((if gap_start <? i then segments ++ [(gap_start, i)] else segments),
     Some i, gap_start, i + 1)
  else
    match block_start with
    | Some b =>
        if starts_close stripped
        then (segments ++ [(b, i + 1)], None, i + 1, i + 1)
        else (segments, block_start, gap_start, i + 1)
    | None => (segments, block_start, gap_start, i + 1)
    end.

Definition _build_segments (ls : list str) (target_indent : Z) : list (Z * Z) :=
  let '(segments, block_start, gap_start, _) :=
    foldl (build_step target_indent) ([], None, 0, 0) ls in
  match block_start with
  | Some b => segments ++ [(b, len ls)]
  | None => if gap_start <? len ls then segments ++ [(gap_start, len ls)] else segments
  end.

Definition _handle_replace_segments (r : DiffResult) (left_src right_src : list str)
    (left_segs right_segs : list (Z * Z)) : Outcome DiffResult :=
  let paired := Z.min (len left_segs) (len right_segs) in
  let! r := for_each (λ r k,
               let! l := py_get left_segs k in
               let! x := py_get right_segs k in
               let l_lines := slice left_src l.1 l.2 in
               let r_lines := slice right_src x.1 x.2 in
               if bool_decide (l_lines = r_lines) then append_equal r l_lines r_lines
               else _line_diff r l_lines r_lines)
             (seqZ 0 paired) r in
  let! r := for_each (λ r k,
               let! l := py_get left_segs k in
               Ok (append_hunk r (slice left_src l.1 l.2) [] DiffTag.DELETE))
             (seqZ paired (len left_segs - paired)) r in
  for_each (λ r k,
      let! x := py_get right_segs k in
      Ok (append_hunk r [] (slice right_src x.1 x.2) DiffTag.INSERT))
    (seqZ paired (len right_segs - paired)) r.

Definition block_diff_step (left_src right_src : list str)
    (left_segs right_segs : list (Z * Z)) (r : DiffResult) (op : Opcode)
  : Outcome DiffResult :=
  let '(MkOp t i1 i2 j1 j2) := op in
  match t with
  | OpEqual =>
      for_each (λ r k,
          let! l := py_get left_segs (i1 + k) in
          let! x := py_get right_segs (j1 + k) in
          append_equal r (slice left_src l.1 l.2) (slice right_src x.1 x.2))
        (seqZ 0 (i2 - i1)) r
  | OpDelete =>
      for_each (λ r k,
          let! l := py_get left_segs (i1 + k) in
          Ok (append_hunk r (slice left_src l.1 l.2) [] DiffTag.DELETE))
        (seqZ 0 (i2 - i1)) r
  | OpInsert =>
      for_each (λ r k,
          let! x := py_get right_segs (j1 + k) in
          Ok (append_hunk r [] (slice right_src x.1 x.2) DiffTag.INSERT))
        (seqZ 0 (j2 - j1)) r
  | OpReplace =>
      _handle_replace_segments r left_src right_src
        (slice left_segs i1 i2) (slice right_segs j1 j2)
  end.

Definition segment_keys (src : list str) (segs : list (Z * Z)) : list str :=
  (λ se, join [NL] (slice src se.1 se.2)) <$> segs.

Definition _compute_block_diff (left_src right_src : list str)
    (left_segs right_segs : list (Z * Z)) : Outcome DiffResult :=
  let left_keys := segment_keys left_src left_segs in
  let right_keys := segment_keys right_src right_segs in
  for_each (block_diff_step left_src right_src left_segs right_segs)
    (get_opcodes left_keys right_keys) empty_result.

Definition _make_full_replace (left_src right_src : list str) : DiffResult :=
  append_hunk empty_result left_src right_src DiffTag.REPLACE.

Definition full_diff_step (left_src right_src : list str) (r : DiffResult) (op : Opcode)
  : Outcome DiffResult :=
  let '(MkOp t i1 i2 j1 j2) := op in
  match t with
  | OpEqual => append_equal r (slice left_src i1 i2) (slice right_src j1 j2)
  | OpDelete => Ok (append_hunk r (slice left_src i1 i2) [] DiffTag.DELETE)
  | OpInsert => Ok (append_hunk r [] (slice right_src j1 j2) DiffTag.INSERT)
  | OpReplace =>
      Ok (append_hunk r (slice left_src i1 i2) (slice right_src j1 j2) DiffTag.REPLACE)
  end.

Definition _compute_line_diff_full (left_src right_src : list str) : Outcome DiffResult :=
  if _FULL_DIFF_LIMIT <? len left_src + len right_src
  then Ok (_make_full_replace left_src right_src)
  else for_each (full_diff_step left_src right_src)
         (get_opcodes left_src right_src) empty_result.

Definition _compute_line_diff (left_src right_src : list str) : Outcome DiffResult :=
  match _detect_blocks left_src, _detect_blocks right_src with
  | Some (li, _), Some (ri, _) =>
      if li =? ri then
        let target_indent := li in
        let left_segs := _build_segments left_src target_indent in
        let right_segs := _build_segments right_src target_indent in
        _compute_block_diff left_src right_src left_segs right_segs
      else _compute_line_diff_full left_src right_src
  | _, _ => _compute_line_diff_full left_src right_src
  end.

(** [_jsonl_sep]: the blank pair between records, and [first] cleared. *)
Definition _jsonl_sep (r : DiffResult) (t : DiffTag.t) (first : bool) : DiffResult * bool :=
  (if negb first then append_pair r [] [] t else r, false).

(** The loop state of [_compute_jsonl_diff] is [(result, first)]. *)
Definition jsonl_diff_step (left_records right_records : list str)
    (st : DiffResult * bool) (op : Opcode) : Outcome (DiffResult * bool) :=
  let '(MkOp t i1 i2 j1 j2) := op in
  let delete_records := λ st from to,
    for_each (λ (st : DiffResult * bool) k,
        let '(r, first) := _jsonl_sep st.1 DiffTag.DELETE st.2 in
        let! rec := py_get left_records (i1 + k) in
        Ok (append_hunk r (split_on NL rec) [] DiffTag.DELETE, first))
      (seqZ from (to - from)) st in
  let insert_records := λ st from to,
    for_each (λ (st : DiffResult * bool) k,
        let '(r, first) := _jsonl_sep st.1 DiffTag.INSERT st.2 in
        let! rec := py_get right_records (j1 + k) in
        Ok (append_hunk r [] (split_on NL rec) DiffTag.INSERT, first))
      (seqZ from (to - from)) st in
  match t with
  | OpEqual =>
      for_each (λ (st : DiffResult * bool) k,
          let '(r, first) := _jsonl_sep st.1 DiffTag.EQUAL st.2 in
          let! rec := py_get left_records (i1 + k) in
          Ok (foldl (λ r line, append_pair r line line DiffTag.EQUAL) r
                (split_on NL rec), first))
        (seqZ 0 (i2 - i1)) st
  | OpDelete => delete_records st 0 (i2 - i1)
  | OpInsert => insert_records st 0 (j2 - j1)
  | OpReplace =>
      let l_count := i2 - i1 in
      let r_count := j2 - j1 in
      let paired := Z.min l_count r_count in
      let! st := for_each (λ (st : DiffResult * bool) k,
                    let '(r, first) := _jsonl_sep st.1 DiffTag.REPLACE st.2 in
                    let! lrec := py_get left_records (i1 + k) in
                    let! rrec := py_get right_records (j1 + k) in
                    let l_lines := split_on NL lrec in
                    let r_lines := split_on NL rrec in
                    if bool_decide (lrec = rrec) then
                      Ok (foldl (λ r line, append_pair r line line DiffTag.EQUAL) r
                            l_lines, first)
                    else
                      let! r := _line_diff r l_lines r_lines in
                      Ok (r, first))
                  (seqZ 0 paired) st in
      let! st := delete_records st paired l_count in
      insert_records st paired r_count
  end.

Definition _compute_jsonl_diff (left right : str) (normalize : bool) : Outcome DiffResult :=
  let left_records := _format_jsonl_records left normalize in
  let right_records := _format_jsonl_records right normalize in
  let! st := for_each (jsonl_diff_step left_records right_records)
               (get_opcodes left_records right_records) (empty_result, true) in
  Ok st.1.

Definition compute_json_diff (left right : str) (normalize is_jsonl : bool)
  : Outcome DiffResult :=
  if is_jsonl then _compute_jsonl_diff left right normalize
  else
    let fmt := if normalize then normalize_json else format_json in
    _compute_line_diff (split_on NL (fmt left)) (split_on NL (fmt right)).

End Diff.

(** ** A concrete runtime

    The library functions restricted to what the examples below need: ASCII
    character classes, the wide ranges of CJK ideographs, Hangul syllables and
    fullwidth forms, decimal [int], a JSON reader that knows [{}], [[]] and
    string literals without escapes, and a matcher that reports two equal
    sequences as one [equal] block and anything else as one change. *)

Definition ascii_wide (c : char) : bool :=
  ((19968 <=? c) && (c <=? 40959) || (44032 <=? c) && (c <=? 55203)
   || (65281 <=? c) && (c <=? 65376))%N.

Definition ascii_isdigit (c : char) : bool := ((48 <=? c) && (c <=? 57))%N.

Definition ascii_isalnum (c : char) : bool :=
  (ascii_isdigit c || (65 <=? c) && (c <=? 90) || (97 <=? c) && (c <=? 122))%N.

Definition ascii_isprintable (c : char) : bool := ((32 <=? c) && (c <=? 126))%N.

Definition decimal_int (s : str) : option Z :=
  if negb (bool_decide (s = [])) && forallb ascii_isdigit s && (len s <=? 4300)
  then Some (foldl (λ acc c, 10 * acc + (Z.of_N c - 48)) 0 s)
  else None.

Definition plain_text (raw : str) : bool :=
  forallb (λ c, negb ((c =? 34) || (c =? 92) || (c <? 32))%N) raw.

Definition tiny_loads (s : str) : JSON + str * Z :=
  if str_eqb s (lit "{}") then inl (JDict [])
  else if str_eqb s (lit "[]") then inl (JList [])
  else match s with
       | 34%N :: rest =>
           match list.last rest with
           | Some 34%N =>
               let raw := take (length rest - 1)%nat rest in
               if plain_text raw then inl (JStr raw)
               else inr (lit "Invalid control character at", 1)
           | _ => inr (lit "Unterminated string starting at", 1)
           end
       | _ => inr (lit "Expecting value", 1)
       end.

Definition tiny_dumps (indent : option Z) (sort_keys : bool) (v : JSON) : str :=
  match v with
  | JDict [] => lit "{}"
  | JList [] => lit "[]"
  | JStr t => [34%N] ++ t ++ [34%N]
  | _ => lit "null"
  end.

Definition whole_opcodes (a b : list str) : list Opcode :=
  if bool_decide (a = b) then
    (if bool_decide (a = []) then [] else [MkOp OpEqual 0 (len a) 0 (len b)])
  else if bool_decide (a = []) then [MkOp OpInsert 0 0 0 (len b)]
  else if bool_decide (b = []) then [MkOp OpDelete 0 (len a) 0 0]
  else [MkOp OpReplace 0 (len a) 0 (len b)].

Definition ascii_runtime : Runtime := {|
  east_asian_wide := ascii_wide;
  isalnum := ascii_isalnum;
  isprintable := ascii_isprintable;
  isdigit := ascii_isdigit;
  int_of_str := decimal_int;
  json_loads := tiny_loads;
  json_dumps := tiny_dumps;
  get_opcodes := whole_opcodes;
  recursion_limit := 300
|}.

(** ** The vocabulary of the properties *)

(** [safe P o]: the computation ends normally in a value with [P], or stops
    with the [ValueError] of [int()]. *)
Definition safe {A} (P : A → Prop) (o : Outcome A) : Prop :=
  match o with
  | Ok a => P a
  | Raise e => e = ValueError
  end.

(** The cursor is on the buffer: [0 <= cursor_row < len(lines)],
    [0 <= cursor_col <= len(lines[cursor_row])], and in Normal mode on a line
    that is not empty [cursor_col <= len(line) - 1]. *)
Definition cursor_ok (s : JsonEditor) : Prop :=
  0 ≤ cursor_row s < len (lines s)
  ∧ ∃ line, lines s !! Z.to_nat (cursor_row s) = Some line
            ∧ 0 ≤ cursor_col s ≤ len line
            ∧ (_mode s = NORMAL → line ≠ [] → cursor_col s ≤ len line - 1).

(** What a cursor movement leaves alone. *)
Definition moved (s s' : JsonEditor) : Prop :=
  s' = set_cursor_col (cursor_col s') (set_cursor_row (cursor_row s') s).

(** Every undo and redo entry holds a buffer that is not empty. *)
Definition stacks_ok (s : JsonEditor) : Prop :=
  Forall (λ e : Snapshot, e.1.1 ≠ []) (undo_stack s)
  ∧ Forall (λ e : Snapshot, e.1.1 ≠ []) (redo_stack s).

(** The state between two key events. *)
Definition wf (s : JsonEditor) : Prop := cursor_ok s ∧ stacks_ok s.

(** What a handler must leave for [_clamp_cursor] to restore [wf]. *)
Definition buffer_ok (s : JsonEditor) : Prop := lines s ≠ [] ∧ stacks_ok s.

(** [json.loads] of a text in double quotes yields a [str], if anything. *)
Definition loads_literal_is_str `{Runtime} : Prop :=
  ∀ raw v, json_loads ([QUOTE] ++ raw ++ [QUOTE]) = inl v → ∃ text, v = JStr text.

(** *** The control skeleton of the key handlers

    Which mode and pending prefix follow a key depends on the key alone, not on
    the buffer. The skeleton below repeats the tests of [_handle_normal] and
    [_handle_pending] in their order and keeps, for each branch, only that
    effect. It is stated for a session that is not read-only. *)

Inductive NormalKey :=
| KMotion       (* moves, scrolls or reports: no edit *)
| KEnterInsert  (* i I a A o O *)
| KShot         (* x p P J: recorded and stopped at once *)
| KHistory      (* u ctrl+r *)
| KReplay       (* . *)
| KPrefix (recorded : bool)  (* d c r, or y g e *)
| KColon
| KIgnored.

Definition is_motion (key char : str) : bool :=
  ((char == "h") || (key == "left")) || ((char == "j") || (key == "down"))
  || ((char == "k") || (key == "up")) || ((char == "l") || (key == "right"))
  || (char == "w") || (char == "b") || (char == "0")
  || ((char == "$") || (key == "end")) || ((char == "^") || (key == "home"))
  || (char == "G") || (char == "%")
  || ((key == "pagedown") || (key == "ctrl+f"))
  || ((key == "pageup") || (key == "ctrl+b"))
  || (key == "ctrl+d") || (key == "ctrl+u") || (key == "ctrl+e")
  || (key == "ctrl+y") || (key == "ctrl+g").

Definition normal_key (key char : str) : NormalKey :=
  if is_motion key char then KMotion
  else if (char == "i") || (char == "I") || (char == "a") || (char == "A")
          || (char == "o") || (char == "O") then KEnterInsert
  else if (char == "x") || (char == "p") || (char == "P") then KShot
  else if char == "u" then KHistory
  else if key == "ctrl+r" then KHistory
  else if char == "J" then KShot
  else if char == "." then KReplay
  else if (char == "d") || (char == "c") || (char == "y") || (char == "r")
          || (char == "g") || (char == "e")
  then KPrefix (negb ((char == "y") || (char == "g") || (char == "e")))
  else if char == ":" then KColon
  else KIgnored.

(** The second key of a pending command cancels it. *)
Definition pending_cancelled (char key : str) : bool :=
  (key == "escape") || bool_decide (char = []).

(** The pending command is [cw] or [cc], which go on in Insert mode. *)
Definition pending_enters_insert (pend char key : str) : bool :=
  negb (pending_cancelled char key)
  && ((pend ++ char == "cw") || (pend ++ char == "cc")).

(** The pending command is [yy], [gg] or [ej], which record nothing. *)
Definition pending_passive (pend char key : str) : bool :=
  negb (pending_cancelled char key)
  && ((pend ++ char == "yy") || (pend ++ char == "gg") || (pend ++ char == "ej")).

(** One key of the control skeleton, from mode and pending prefix; [None]
    where the key would start a replay. *)
Definition ctl_step (c : EditorMode * str) (ev : KeyEvent) : option (EditorMode * str) :=
  let char := default [] (character ev) in
  match c.1 with
  | NORMAL =>
      if negb (bool_decide (c.2 = [])) then
        Some (if pending_enters_insert c.2 char (key ev) then INSERT else NORMAL, [])
      else
        match normal_key (key ev) char with
        | KReplay => None
        | KEnterInsert => Some (INSERT, [])
        | KPrefix _ => Some (NORMAL, char)
        | KColon => Some (COMMAND, [])
        | _ => Some (NORMAL, [])
        end
  | INSERT => Some (if key ev == "escape" then NORMAL else INSERT, c.2)
  | COMMAND => Some c
  end.

Fixpoint ctl_run (evs : list KeyEvent) (c : EditorMode * str) : option (EditorMode * str) :=
  match evs with
  | [] => Some c
  | ev :: evs' =>
      match ctl_step c ev with
      | Some c' => ctl_run evs' c'
      | None => None
      end
  end.

(** The prefixes that start a recorded edit. *)
Definition edit_prefix (p : str) : Prop := p = lit "d" ∨ p = lit "c" ∨ p = lit "r".

(** The dot buffer can be replayed: run from Normal mode, its keys never
    reach a [.] in Normal mode; and while recording, the editor is where the
    buffer leads, in Insert mode or inside a pending edit. *)
Definition dot_ok (s : JsonEditor) : Prop :=
  read_only s = false →
  _dot_replaying s = false
  ∧ ∃ c, ctl_run (_dot_buffer s) (NORMAL, []) = Some c
         ∧ (_dot_recording s = true →
            c = (_mode s, pending s)
            ∧ (_mode s = INSERT ∨ (_mode s = NORMAL ∧ edit_prefix (pending s)))).

(** A handler left the dot recorder alone. *)
Definition dot_same (s s' : JsonEditor) : Prop :=
  _dot_buffer s' = _dot_buffer s ∧ _dot_recording s' = _dot_recording s
  ∧ _dot_replaying s' = _dot_replaying s.

(** A handler called [_dot_start(event)], and [_dot_stop()] after it unless
    [keep]: during a replay nothing is recorded. *)
Definition dot_started (ev : KeyEvent) (keep : bool) (s s' : JsonEditor) : Prop :=
  _dot_replaying s' = _dot_replaying s
  ∧ if _dot_replaying s
    then _dot_buffer s' = _dot_buffer s ∧ _dot_recording s' = _dot_recording s && keep
    else _dot_buffer s' = [ev] ∧ _dot_recording s' = keep.

(** A handler at most called [_dot_stop()]. *)
Definition dot_stopped (s s' : JsonEditor) : Prop :=
  _dot_buffer s' = _dot_buffer s ∧ _dot_replaying s' = _dot_replaying s
  ∧ (_dot_recording s' = true → _dot_recording s = true).

(** The undo and redo stacks together hold at most 200 entries. *)
Definition history_ok (s : JsonEditor) : Prop :=
  len (undo_stack s) + len (redo_stack s) ≤ 200.

(** What every operation keeps: the session flags and the bound on the
    history. *)
Definition kept (s s' : JsonEditor) : Prop :=
  read_only s' = read_only s ∧ jsonl s' = jsonl s
  ∧ (history_ok s → history_ok s').

(** *** Key events as the host delivers them *)

(** A key that types the character(s) [c]: Textual gives a letter or digit
    key the name of its character. *)
Definition char_key (c : string) : KeyEvent := MkKey (lit c) (Some (lit c)).

(** A key without a character, such as [escape] or [ctrl+r]. *)
Definition named_key (name : string) : KeyEvent := MkKey (lit name) None.

(** The entry [_save_undo] pushes in state [s]. *)
Definition snapshot (s : JsonEditor) : Snapshot :=
  (lines s, cursor_row s, cursor_col s).

(** The undo stack after a push in state [s]: the entry is appended, and the
    oldest entry goes when 200 are there already. *)
Definition pushed (s : JsonEditor) : list Snapshot :=
  (if len (undo_stack s) <? 200 then undo_stack s else drop 1 (undo_stack s))
  ++ [snapshot s].

(** The states a session can be in: it starts in [init], the host sends key
    events and may call the public API or switch the JSONL flag. *)
Inductive reachable `{Runtime} : JsonEditor → Prop :=
| reach_init content ro is_jsonl : reachable (init content ro is_jsonl)
| reach_key height s ev s' :
    reachable s → on_key height s ev = Ok s' → reachable s'
| reach_set_content s content : reachable s → reachable (set_content s content)
| reach_set_jsonl s v : reachable s → reachable (set_jsonl v s)
| reach_update s row col_start col_end new_content s' :
    reachable s →
    update_embedded_string s row col_start col_end new_content = Ok s' →
    reachable s'.

(** *** Edits of Normal mode that end in Normal mode

    The single-key edits [x], [p], [P] and [J] and the pending commands
    [dd], [dw], [d$], [d0] and [r{c}]: each leaves the editor in Normal mode
    and pushes one undo entry. *)
Inductive Edit : Type :=
| EDelChar | EPasteAfter | EPasteBefore | EJoin
| EDelLine | EDelWord | EDelToEnd | EDelToStart
| EReplace (c : char).

(** The keys of an edit. *)
Definition keys_of (e : Edit) : list KeyEvent :=
  match e with
  | EDelChar => [char_key "x"]
  | EPasteAfter => [char_key "p"]
  | EPasteBefore => [char_key "P"]
  | EJoin => [char_key "J"]
  | EDelLine => [char_key "d"; char_key "d"]
  | EDelWord => [char_key "d"; char_key "w"]
  | EDelToEnd => [char_key "d"; char_key "$"]
  | EDelToStart => [char_key "d"; char_key "0"]
  | EReplace c => [char_key "r"; MkKey [c] (Some [c])]
  end.

(** The edit finds something to do: there is something to paste, or a line
    to join with. *)
Definition applies (e : Edit) (s : JsonEditor) : Prop :=
  match e with
  | EPasteAfter | EPasteBefore => yank_buffer s ≠ []
  | EJoin => cursor_row s < len (lines s) - 1
  | _ => True
  end.

(** A session that is not read-only, waiting for a command in Normal mode. *)
Definition ready (s : JsonEditor) : Prop :=
  cursor_ok s ∧ _mode s = NORMAL ∧ pending s = [] ∧ read_only s = false.

(** *** The diff engine's result and what it takes from [difflib] *)

(** The four lists of a result have one length, and the two tag lists are
    one list. *)
Definition aligned (r : DiffResult) : Prop :=
  len (left_lines r) = len (right_lines r)
  ∧ len (right_lines r) = len (left_line_tags r)
  ∧ len (left_line_tags r) = len (right_line_tags r)
  ∧ left_line_tags r = right_line_tags r.

(** An opcode of [SequenceMatcher(None, a, b)] names a range of [a] and a
    range of [b], and an [equal] opcode names equal ranges. *)
Definition opcode_ok (a b : list str) (op : Opcode) : Prop :=
  0 ≤ op_i1 op ≤ op_i2 op ∧ op_i2 op ≤ len a
  ∧ 0 ≤ op_j1 op ≤ op_j2 op ∧ op_j2 op ≤ len b
  ∧ (op_tag op = OpEqual →
     slice a (op_i1 op) (op_i2 op) = slice b (op_j1 op) (op_j2 op)).

Definition opcodes_in_range `{Runtime} : Prop :=
  ∀ a b, Forall (opcode_ok a b) (get_opcodes a b).

(** A line holds no line break, as every item of [s.split("\n")]. *)
Definition newline_free (line : str) : Prop := NL ∉ line.

(** The number of line breaks of a text. *)
Fixpoint breaks (t : str) : nat :=
  match t with
  | [] => 0
  | c :: t' => (if (c =? NL)%N then 1 else 0) + breaks t'
  end.

(** A segment of [_build_segments] is a range of lines that is not empty. *)
Definition segment_in (n : Z) (se : Z * Z) : Prop := 0 ≤ se.1 < se.2 ∧ se.2 ≤ n.

(** The loop invariant of [_build_segments] at index [i]. *)
Definition build_inv (st : list (Z * Z) * option Z * Z * Z) : Prop :=
  let '(segments, block_start, gap_start, i) := st in
  Forall (segment_in i) segments
  ∧ 0 ≤ gap_start ≤ i
  ∧ match block_start with Some b => 0 ≤ b < i | None => True end.

(** [_save_undo] on a stack: the entry is appended, and the oldest entry
    goes when 200 are there already. *)
Definition push_on (us : list Snapshot) (e : Snapshot) : list Snapshot :=
  (if len us <? 200 then us else drop 1 us) ++ [e].

(** What one key does to the history, unless it is [u], [ctrl+r] or [.]:
    nothing, or a push: the buffer and the cursor the key found go on the
    undo stack, the oldest entry goes when 200 are there, and the redo stack
    is cleared. A closing bracket typed after text pushes that entry twice. *)
Definition hist_step (s s' : JsonEditor) : Prop :=
  (undo_stack s' = undo_stack s ∧ redo_stack s' = redo_stack s)
  ∨ (redo_stack s' = []
     ∧ (undo_stack s' = push_on (undo_stack s) (snapshot s)
        ∨ undo_stack s' = push_on (push_on (undo_stack s) (snapshot s)) (snapshot s))).

(** The key is handled by [_undo], [_redo] or [_dot_replay]. *)
Definition history_key (s : JsonEditor) (ev : KeyEvent) : Prop :=
  _mode s = NORMAL ∧ pending s = []
  ∧ (normal_key (key ev) (default [] (character ev)) = KHistory
     ∨ normal_key (key ev) (default [] (character ev)) = KReplay).


(** The segments [_build_segments] has collected reach the open block, or
    the line the next gap starts at. *)
Definition build_tiled (st : list (Z * Z) * option Z * Z * Z) : Prop :=
  let '(segments, block_start, gap_start, i) := st in
  match block_start with
  | Some b => tiles 0 segments b
  | None => tiles 0 segments gap_start
  end.

(** A result read as rows [(left, right, tag)]; both tag lists hold the tags
    of the rows. *)
Definition row_view (r : DiffResult) (rows : list (str * str * DiffTag.t)) : Prop :=
  left_lines r = rows.*1.*1 ∧ right_lines r = rows.*1.*2
  ∧ left_line_tags r = rows.*2 ∧ right_line_tags r = rows.*2.

(** The rows tagged [EQUAL] show the same line on both sides. *)
Definition faithful (r : DiffResult) : Prop :=
  ∃ rows, row_view r rows
          ∧ Forall (λ row : str * str * DiffTag.t,
                      row.2 = DiffTag.EQUAL → row.1.1 = row.1.2) rows.

(** * Properties *)

Example lit_h : lit "h" = [104%N].
Proof. reflexivity. Qed.

Example split_on_trailing : split_on 10 (lit "a" ++ [10%N]) = [lit "a"; []].
Proof. reflexivity. Qed.

Example split_ws1_cmd :
  split_ws1 (lit " wq!  x y ") = [lit "wq!"; lit "x y "].
Proof. reflexivity. Qed.

Example str_of_Z_neg : str_of_Z (-120) = lit "-120".
Proof. reflexivity. Qed.

Example slice_negative : slice_to (lit "abcd") (-1) = lit "abc".
Proof. reflexivity. Qed.


(** ** Strings, indices and outcomes *)

Lemma str_eqb_eq (a b : str) : str_eqb a b = true ↔ a = b.
Proof.
  revert b. induction a as [|x a IH]; intros [|y b]; simpl; try (split; congruence).
  rewrite andb_true_iff, N.eqb_eq, IH. split; [intros []; congruence|].
  intros [= -> ->]. done.
Qed.

Lemma str_eqb_refl (a : str) : str_eqb a a = true.
Proof. by apply str_eqb_eq. Qed.

Lemma len_nonneg {A} (l : list A) : 0 ≤ len l.
Proof. unfold len. lia. Qed.

Lemma len_nil {A} : len (@nil A) = 0.
Proof. done. Qed.

Lemma len_cons {A} (x : A) l : len (x :: l) = len l + 1.
Proof. unfold len. simpl. lia. Qed.

Lemma len_app {A} (l k : list A) : len (l ++ k) = len l + len k.
Proof. unfold len. rewrite length_app. lia. Qed.

Lemma len_insert {A} (l : list A) k x : len (<[k := x]> l) = len l.
Proof. unfold len. by rewrite length_insert. Qed.

Lemma len_pos_nonempty {A} (l : list A) : 0 < len l ↔ l ≠ [].
Proof. destruct l; unfold len; simpl; split; (done || lia). Qed.

Lemma safe_bind {A B} (Q : A → Prop) (P : B → Prop) (m : Outcome A) (k : A → Outcome B) :
  safe Q m → (∀ a, Q a → safe P (k a)) → safe P (bind m k).
Proof. destruct m; simpl; auto. Qed.

Lemma safe_mono {A} (Q P : A → Prop) (o : Outcome A) :
  safe Q o → (∀ a, Q a → P a) → safe P o.
Proof. destruct o; simpl; auto. Qed.

Lemma norm_index_in (n i : Z) :
  0 ≤ i < n → norm_index n i = Some (Z.to_nat i).
Proof.
  intros. unfold norm_index.
  destruct (Z.leb_spec 0 i), (Z.ltb_spec i n); simpl; (done || lia).
Qed.

Lemma py_get_in {A} (l : list A) (i : Z) :
  0 ≤ i < len l → ∃ x, py_get l i = Ok x ∧ l !! Z.to_nat i = Some x.
Proof.
  intros Hi. unfold py_get. rewrite norm_index_in by done. simpl.
  destruct (l !! Z.to_nat i) as [x|] eqn:E; [by exists x|].
  apply lookup_ge_None in E. unfold len in Hi. lia.
Qed.

Lemma safe_py_get {A} (l : list A) (i : Z) :
  0 ≤ i < len l → safe (λ x, l !! Z.to_nat i = Some x) (py_get l i).
Proof. intros Hi. destruct (py_get_in l i Hi) as (x & -> & E). done. Qed.

Lemma py_set_in {A} (l : list A) (i : Z) (x : A) :
  0 ≤ i < len l → py_set l i x = Ok (<[Z.to_nat i := x]> l).
Proof. intros. unfold py_set. by rewrite norm_index_in. Qed.

Lemma py_pop_in {A} (l : list A) (i : Z) :
  0 ≤ i < len l → py_pop l i = Ok (delete (Z.to_nat i) l).
Proof. intros. unfold py_pop. by rewrite norm_index_in. Qed.

Lemma len_delete {A} (l : list A) (k : nat) :
  (k < length l)%nat → len (delete k l) = len l - 1.
Proof.
  intros Hk. unfold len. rewrite length_delete by by apply lookup_lt_is_Some_2.
  lia.
Qed.

Lemma len_py_insert {A} (l : list A) (i : Z) (x : A) :
  len (py_insert l i x) = len l + 1.
Proof.
  unfold py_insert. rewrite len_app, len_cons. unfold len.
  rewrite length_take, length_drop. lia.
Qed.

Lemma slice_bound_le (n i : Z) : 0 ≤ n → Z.of_nat (slice_bound n i) ≤ n.
Proof. unfold slice_bound. destruct (Z.ltb_spec i 0); lia. Qed.

Lemma slice_bound_in (n i : Z) : 0 ≤ i ≤ n → slice_bound n i = Z.to_nat i.
Proof. intros. unfold slice_bound. destruct (Z.ltb_spec i 0); f_equal; lia. Qed.

Lemma len_slice_to {A} (l : list A) (i : Z) :
  0 ≤ i ≤ len l → len (slice_to l i) = i.
Proof.
  intros. unfold slice_to. rewrite slice_bound_in by done.
  unfold len in *. rewrite length_take. lia.
Qed.

Lemma len_slice_from {A} (l : list A) (i : Z) :
  0 ≤ i ≤ len l → len (slice_from l i) = len l - i.
Proof.
  intros. unfold slice_from. rewrite slice_bound_in by done.
  unfold len in *. rewrite length_drop. lia.
Qed.

Lemma len_slice {A} (l : list A) (i j : Z) :
  0 ≤ i ≤ j → j ≤ len l → len (slice l i j) = j - i.
Proof.
  intros. unfold slice. rewrite !slice_bound_in by lia.
  unfold len in *. rewrite length_drop, length_take. lia.
Qed.

Lemma len_spaces (n : Z) : len (spaces n) = Z.max 0 n.
Proof. unfold spaces, len. rewrite length_replicate. lia. Qed.


(** ** Layout *)

Section LayoutFacts.
Context {R : Runtime}.

Lemma char_width_range (c : char) : 1 ≤ _char_width c ≤ 2.
Proof. unfold _char_width. repeat case_match; lia. Qed.

Lemma tiles_snoc (from : Z) (segs : list (Z * Z)) (s e : Z) :
  tiles from segs s → s ≤ e → tiles from (segs ++ [(s, e)]) e.
Proof.
  revert from. induction segs as [|[a b] segs IH]; simpl; intros from H He.
  - subst. done.
  - destruct H as (-> & Hab & H). auto.
Qed.

Lemma tiles_range (avail n : Z) (fuel : nat) (s : Z) :
  1 ≤ avail → 0 ≤ s < n → n - s ≤ Z.of_nat fuel →
  tiles s ((λ s, (s, Z.min (s + avail) n)) <$> range_from fuel s n avail) n.
Proof.
  intros Ha. revert s. induction fuel as [|fuel IH]; intros s Hs Hf; [lia|].
  simpl. destruct (Z.ltb_spec s n); [|lia]. simpl.
  split; [done|]. split; [lia|].
  destruct (Z.ltb_spec (s + avail) n) as [Hlt|Hge].
  - rewrite Z.min_l by lia. apply IH; lia.
  - rewrite Z.min_r by lia. destruct fuel; simpl; [done|].
    destruct (Z.ltb_spec (s + avail) n); [lia|done].
Qed.

Lemma range_from_length (avail n : Z) (fuel : nat) (s : Z) :
  1 ≤ avail → - avail < n - s → n - s ≤ Z.of_nat fuel →
  len (range_from fuel s n avail) = - (- (n - s) / avail).
Proof.
  intros Ha. revert s. induction fuel as [|fuel IH]; intros s Hs Hf.
  - simpl. change (len (@nil Z)) with 0. assert (- (n - s) / avail = 0) as ->; [|done].
    apply Z.div_small. lia.
  - simpl. destruct (Z.ltb_spec s n).
    + rewrite len_cons, IH by lia.
      replace (- (n - s)) with (- (n - (s + avail)) + (-1) * avail) by lia.
      rewrite Z.div_add by lia. lia.
    + change (len (@nil Z)) with 0. assert (- (n - s) / avail = 0) as ->; [|done].
      apply Z.div_small. lia.
Qed.

(** The non-ASCII loop keeps the segments closed so far tiling
    [0 .. seg_start]. *)
Lemma seg_loop_tiles (avail : Z) (line : str) (segs : list (Z * Z)) (ss w i : Z) :
  tiles 0 segs ss → ss ≤ i →
  let '(segs', ss', _, i') := fold_left (seg_step avail) line (segs, ss, w, i) in
  tiles 0 segs' ss' ∧ ss' ≤ i' ∧ i' = i + len line.
Proof.
  revert segs ss w i. induction line as [|c line IH]; intros segs ss w i Ht Hi.
  - simpl. change (len (@nil N)) with 0. repeat split; (done || lia).
  - cbn [fold_left]. unfold seg_step at 2.
    destruct ((avail <? w + _char_width c) && (ss <? i)) eqn:E.
    + apply andb_true_iff in E as [_ E%Z.ltb_lt].
      specialize (IH (segs ++ [(ss, i)]) i (_char_width c) (i + 1)).
      destruct (fold_left _ _ _) as [[[segs' ss'] w'] i'].
      rewrite len_cons. destruct IH as (? & ? & ?); [apply tiles_snoc; (done || lia)|lia|].
      repeat split; (done || lia).
    + specialize (IH segs ss (w + _char_width c) (i + 1)).
      destruct (fold_left _ _ _) as [[[segs' ss'] w'] i'].
      rewrite len_cons. destruct IH as (? & ? & ?); [done|lia|].
      repeat split; (done || lia).
Qed.

(** Every line is cut into segments that tile it, whatever it holds. *)
Lemma make_segments_tiles (line : str) (avail : Z) :
  1 ≤ avail →
  ∃ segs, _make_segments line avail = Ok segs ∧ tiles 0 segs (len line)
          ∧ (line = [] → segs = [(0, 0)]).
Proof.
  intros Ha. unfold _make_segments. case_bool_decide as Hl.
  - subst. exists [(0, 0)]. simpl. repeat split; done.
  - destruct (isascii line).
    + unfold range_step. destruct (Z.eqb_spec avail 0); [lia|].
      destruct (Z.ltb_spec avail 0); [lia|]. simpl. eexists. split; [done|].
      split; [|done]. apply tiles_range; [done| |unfold len; lia].
      apply len_pos_nonempty in Hl. lia.
    + pose proof (seg_loop_tiles avail line [] 0 0 0) as H.
      destruct (fold_left _ _ _) as [[[segs ss] w] i].
      destruct H as (Ht & Hs & ->); [done|done|].
      eexists. split; [done|]. split; [|done].
      apply tiles_snoc; [done|lia].
Qed.

(** Past the first character the two loops break at the same places. *)
Lemma wrap_loops_agree (avail : Z) (line : str) (segs : list (Z * Z))
    (ss w i rows : Z) :
  ss < i →
  let '(segs', _, _, _) := fold_left (seg_step avail) line (segs, ss, w, i) in
  fst (fold_left (row_step avail) line (rows, w)) - rows = len segs' - len segs.
Proof.
  revert segs ss w i rows. induction line as [|c line IH]; intros segs ss w i rows Hi.
  - simpl. lia.
  - cbn [fold_left]. unfold seg_step at 2; unfold row_step at 2.
    destruct (Z.ltb_spec ss i); [|lia]. rewrite andb_true_r.
    destruct (avail <? w + _char_width c).
    + specialize (IH (segs ++ [(ss, i)]) i (_char_width c) (i + 1) (rows + 1)).
      destruct (fold_left (seg_step avail) _ _) as [[[segs' ss'] w'] i'].
      rewrite len_app, len_cons in IH. change (len (@nil (Z*Z))) with 0 in IH. lia.
    + specialize (IH segs ss (w + _char_width c) (i + 1) rows).
      destruct (fold_left (seg_step avail) _ _) as [[[segs' ss'] w'] i'].
      lia.
Qed.

(** Where the first character fits the width, [_wrap_rows] counts the
    segments of [_make_segments]. *)
Lemma wrap_rows_counts_segments (line : str) (avail : Z) :
  1 ≤ avail →
  (∀ c, line !! 0%nat = Some c → _char_width c ≤ avail) →
  ∃ segs, _make_segments line avail = Ok segs
          ∧ _wrap_rows line avail = Ok (len segs).
Proof.
  intros Ha Hfirst. unfold _make_segments, _wrap_rows. case_bool_decide as Hl.
  - eexists. split; done.
  - destruct (isascii line).
    + unfold range_step. destruct (Z.eqb_spec avail 0); [lia|].
      destruct (Z.ltb_spec avail 0); [lia|]. simpl. eexists. split; [done|].
      f_equal. unfold len at 2. rewrite length_fmap. fold (len (range_from (Z.to_nat (len line)) 0 (len line) avail)).
      rewrite range_from_length; [f_equal; f_equal; lia|done| |unfold len; lia].
      pose proof (len_nonneg line). lia.
    + destruct line as [|c line]; [done|]. cbn [fold_left].
      unfold seg_step at 2; unfold row_step at 2.
      specialize (Hfirst c eq_refl).
      replace (0 <? 0) with false by done. rewrite andb_false_r.
      destruct (Z.ltb_spec avail (0 + _char_width c)); [lia|].
      pose proof (wrap_loops_agree avail line [] 0 (0 + _char_width c) (0 + 1) 1) as Hw.
      destruct (fold_left (seg_step avail) _ _) as [[[segs ss] w] i].
      eexists. split; [done|]. f_equal. rewrite len_app, len_cons in *. change (len (@nil (Z*Z))) with 0 in *. lia.
Qed.

Lemma wrap_rows_counts_segments_wide (line : str) (avail : Z) :
  2 ≤ avail →
  ∃ segs, _make_segments line avail = Ok segs
          ∧ _wrap_rows line avail = Ok (len segs).
Proof.
  intros Ha. apply wrap_rows_counts_segments; [lia|].
  intros c _. pose proof (char_width_range c). lia.
Qed.

End LayoutFacts.

(** C10 (the code departs from the claim). At width 1 a line that starts
    with a wide character occupies one segment in [_make_segments] but
    [_wrap_rows] counts two rows: [_wrap_rows] lacks the [i > seg_start] test
    of [_make_segments]. *)
Theorem wrap_rows_overcounts_wide_first :
  @_make_segments ascii_runtime [20013%N] 1 = Ok [(0, 1)]
  ∧ @_wrap_rows ascii_runtime [20013%N] 1 = Ok 2
  ∧ @east_asian_wide ascii_runtime 20013%N = true.
Proof. repeat split. Qed.


(** ** The editor: no operation leaves the buffer empty or reads outside it *)

Ltac lens :=
  repeat first
    [ rewrite len_cons in * | rewrite len_app in * | rewrite len_insert in *
    | rewrite len_py_insert in * | rewrite len_spaces in * ];
  try change (@len (list N) []) with 0 in *;
  try change (@len N []) with 0 in *.

Section EditorSafety.
Context {R : Runtime}.

Lemma bind_Ok_inv {A B} (m : Outcome A) (k : A → Outcome B) (b : B) :
  bind m k = Ok b → ∃ a, m = Ok a ∧ k a = Ok b.
Proof. destruct m; simpl; [eauto|done]. Qed.

Lemma cursor_ok_row (s : JsonEditor) :
  cursor_ok s → 0 ≤ cursor_row s < len (lines s).
Proof. by intros [? _]. Qed.

Lemma cur_line_in (s : JsonEditor) :
  0 ≤ cursor_row s < len (lines s) →
  ∃ line, cur_line s = Ok line ∧ lines s !! Z.to_nat (cursor_row s) = Some line.
Proof. intros. by apply py_get_in. Qed.

Lemma clamp_cursor_ok (s : JsonEditor) :
  lines s ≠ [] →
  ∃ s', _clamp_cursor s = Ok s' ∧ cursor_ok s'
        ∧ lines s' = lines s ∧ _mode s' = _mode s
        ∧ s' = set_cursor_col (cursor_col s') (set_cursor_row (cursor_row s') s).
Proof.
  intros Hne%len_pos_nonempty. unfold _clamp_cursor.
  set (s1 := set_cursor_row _ s).
  assert (0 ≤ cursor_row s1 < len (lines s1)) as Hrow by (simpl; lia).
  destruct (cur_line_in s1 Hrow) as (line & -> & Hline). simpl.
  eexists. split; [done|]. split; [|done].
  split; [done|]. exists line. simpl in *. split; [done|].
  pose proof (len_nonneg line). split; [repeat case_match; lia|].
  intros -> Hl%len_pos_nonempty. destruct (Z.eqb_spec (len line) 0); lia.
Qed.

Lemma clamp_cursor_id (s : JsonEditor) :
  cursor_ok s → _clamp_cursor s = Ok s.
Proof.
  intros [Hrow (line & Hline & Hcol & Hn)]. unfold _clamp_cursor.
  assert (Z.max 0 (Z.min (cursor_row s) (len (lines s) - 1)) = cursor_row s) as -> by lia.
  assert (set_cursor_row (cursor_row s) s = s) as -> by by destruct s.
  destruct (cur_line_in s Hrow) as (line' & -> & Hline'). simpl.
  assert (line' = line) as -> by congruence.
  match goal with |- Ok (set_cursor_col ?c s) = _ => assert (c = cursor_col s) as -> end.
  { destruct (_mode s); try lia.
    destruct (Z.eqb_spec (len line) 0) as [E|E]; [lia|].
    assert (line ≠ []) as Hl by (intros ->; done). specialize (Hn eq_refl Hl). lia. }
  by destruct s.
Qed.

Lemma scan_fwd_safe (fuel : nat) (p : char → bool) (line : str) (col : Z) :
  0 ≤ col → safe (λ c, col ≤ c) (scan_fwd fuel p line col).
Proof.
  revert col. induction fuel as [|fuel IH]; intros col Hc; simpl; [lia|].
  destruct (Z.ltb_spec col (len line)); simpl; [|lia].
  destruct (py_get_in line col) as (c & -> & _); [lia|]. simpl.
  destruct (p c); simpl; [|lia].
  eapply safe_mono; [apply IH; lia|]. simpl. lia.
Qed.

Lemma skip_fwd_safe (p : char → bool) (line : str) (col : Z) :
  0 ≤ col → safe (λ c, col ≤ c) (skip_fwd p line col).
Proof. apply scan_fwd_safe. Qed.

Lemma scan_back_safe (fuel : nat) (p : char → bool) (line : str) (off col : Z) :
  -1 ≤ off ≤ 0 → col + off < len line →
  safe (λ c, c ≤ col ∧ (0 ≤ col → 0 ≤ c)) (scan_back fuel p line off col).
Proof.
  intros Ho. revert col. induction fuel as [|fuel IH]; intros col Hc; simpl; [lia|].
  destruct (Z.ltb_spec 0 col); simpl; [|lia].
  destruct (py_get_in line (col + off)) as (c & -> & _); [lia|]. simpl.
  destruct (p c); simpl; [|lia].
  eapply safe_mono; [apply IH; lia|]. simpl. lia.
Qed.

Lemma bracket_scan_fwd_safe (fuel : nat) (a b : char) (line : str) (col depth : Z) :
  0 ≤ col →
  safe (λ r, ∀ c, r = inl c → 0 ≤ c < len line) (bracket_scan_fwd fuel a b line col depth).
Proof.
  revert col depth. induction fuel as [|fuel IH]; intros col depth Hc; simpl; [done|].
  destruct (Z.ltb_spec col (len line)); simpl; [|done].
  destruct (py_get_in line col) as (c & -> & _); [lia|]. simpl.
  repeat case_match; simpl; try (apply IH; lia).
  intros ? [= <-]. lia.
Qed.

Lemma bracket_scan_back_safe (fuel : nat) (a b : char) (line : str) (col depth : Z) :
  col < len line →
  safe (λ r, ∀ c, r = inl c → 0 ≤ c < len line) (bracket_scan_back fuel a b line col depth).
Proof.
  revert col depth. induction fuel as [|fuel IH]; intros col depth Hc; simpl; [done|].
  destruct (Z.leb_spec 0 col); simpl; [|done].
  destruct (py_get_in line col) as (c & -> & _); [lia|]. simpl.
  repeat case_match; simpl; try (apply IH; lia).
  intros ? [= <-]. lia.
Qed.

Lemma moved_refl (s : JsonEditor) : moved s s.
Proof. by destruct s. Qed.

Lemma moved_set (s : JsonEditor) (r c : Z) :
  moved s (set_cursor_col c (set_cursor_row r s)).
Proof. done. Qed.

Lemma search_fwd_rows_safe (fuel : nat) (a b : char) (s : JsonEditor) (row col depth : Z) :
  0 ≤ row → 0 ≤ col →
  safe (moved s) (search_fwd_rows fuel a b s row col depth).
Proof.
  revert row col depth. induction fuel as [|fuel IH]; intros row col depth Hr Hc; simpl.
  { apply moved_refl. }
  destruct (Z.ltb_spec row (len (lines s))); simpl; [|apply moved_refl].
  destruct (py_get_in (lines s) row) as (line & -> & _); [lia|]. simpl.
  eapply safe_bind; [by apply bracket_scan_fwd_safe|].
  intros [c|d] _; simpl; [done|]. apply IH; lia.
Qed.

Lemma search_back_rows_safe (fuel : nat) (a b : char) (s : JsonEditor) (row col depth : Z) :
  row < len (lines s) →
  (∀ line, 0 ≤ row → lines s !! Z.to_nat row = Some line → col < len line) →
  safe (moved s) (search_back_rows fuel a b s row col depth).
Proof.
  revert row col depth. induction fuel as [|fuel IH]; intros row col depth Hr Hc; simpl.
  { apply moved_refl. }
  destruct (Z.leb_spec 0 row); simpl; [|apply moved_refl].
  destruct (py_get_in (lines s) row) as (line & -> & Hl); [lia|]. simpl.
  eapply safe_bind; [apply bracket_scan_back_safe; by apply Hc|].
  intros [c|d] _; simpl; [done|].
  destruct (Z.leb_spec 0 (row - 1)); simpl.
  - destruct (py_get_in (lines s) (row - 1)) as (pline & -> & Hp); [lia|]. simpl.
    apply IH; [lia|]. intros line' _ Hl'. assert (line' = pline) as -> by congruence. lia.
  - apply IH; [lia|]. intros; lia.
Qed.

End EditorSafety.


(** ** The editor: no operation empties the buffer or reads outside it *)

Lemma py_get_lookup {A} (l : list A) (i : Z) (x : A) :
  0 ≤ i → l !! Z.to_nat i = Some x → py_get l i = Ok x.
Proof.
  intros Hi Hx. destruct (py_get_in l i) as (y & -> & Hy); [|congruence].
  apply lookup_lt_Some in Hx. unfold len. lia.
Qed.

Lemma lookup_len {A} (l : list A) (i : Z) (x : A) :
  0 ≤ i → l !! Z.to_nat i = Some x → i < len l.
Proof. intros Hi Hx. apply lookup_lt_Some in Hx. unfold len. lia. Qed.

Lemma len_delete_in {A} (l : list A) (i : Z) :
  0 ≤ i < len l → len (delete (Z.to_nat i) l) = len l - 1.
Proof. intros. apply len_delete. unfold len in *. lia. Qed.

Lemma nonempty_len {A} (l : list A) : 0 < len l → l ≠ [].
Proof. apply len_pos_nonempty. Qed.

(** Turn the tests of the code into arithmetic facts. *)
Ltac split_test :=
  match goal with
  | |- context [if ?a <? ?b then _ else _] => destruct (Z.ltb_spec a b)
  | |- context [if ?a <=? ?b then _ else _] => destruct (Z.leb_spec a b)
  | |- context [if ?a =? ?b then _ else _] => destruct (Z.eqb_spec a b)
  | |- context [if bool_decide ?P then _ else _] => destruct (decide P); [rewrite bool_decide_eq_true_2 by done|rewrite bool_decide_eq_false_2 by done]
  | |- context [if negb (bool_decide ?P) then _ else _] => destruct (decide P); [rewrite bool_decide_eq_true_2 by done|rewrite bool_decide_eq_false_2 by done]
  | |- safe _ (if ?c then _ else _) => destruct c eqn:?
  | |- safe _ (match ?c with _ => _ end) => destruct c eqn:?
  | |- safe _ (bind (if ?c then _ else _) _) => destruct c eqn:?
  | |- safe _ (bind (match ?c with _ => _ end) _) => destruct c eqn:?
  end.

Ltac len_goal := lens; try rewrite len_delete_in by (lens; lia); lens; lia.

Ltac run_step :=
  first
  [ progress (unfold cur_line)
  | progress simpl
  | match goal with
    | H : py_get ?l ?i = Ok _ |- context [py_get ?l ?i] => rewrite H
    | |- context [py_set ?l ?i ?x] => rewrite (py_set_in l i x) by len_goal
    | |- context [py_pop ?l ?i] => rewrite (py_pop_in l i) by len_goal
    | |- context [py_get ?l ?i] =>
        let x := fresh "x" in
        let Hx := fresh "Hx" in
        let Hl := fresh "Hl" in
        destruct (py_get_in l i) as (x & Hx & Hl); [len_goal | rewrite Hx]
    end
  | split_test ].

Ltac run := repeat run_step.

(** Use what the tests of a handler gave. *)
Ltac rewrite_tests :=
  repeat match goal with
         | H : (_ == _) = _ |- _ => rewrite H
         | H : (_ || _) = _ |- _ => rewrite H
         end.

Ltac stack_goal :=
  repeat first
    [ assumption
    | apply Forall_nil_2
    | apply Forall_drop
    | apply Forall_take
    | apply Forall_app_2
    | apply Forall_cons_2
    | match goal with |- Forall _ (if ?c then _ else _) => destruct c end ];
  simpl; try done.

Ltac finish :=
  unfold _enter_insert, _dot_start; simpl;
  repeat match goal with
         | |- context [if ?b then _ else _] => is_var b; destruct b; simpl
         | |- context [if negb ?b then _ else _] => destruct b; simpl
         end;
  try match goal with |- moved _ _ => reflexivity end;
  try match goal with
      | |- buffer_ok _ => split; [simpl; try (apply nonempty_len; len_goal)|split; simpl; stack_goal]
      end;
  try (apply nonempty_len; len_goal).

Section EditorSafety2.
Context {R : Runtime}.

Lemma moved_lines (s s' : JsonEditor) : moved s s' → lines s' = lines s.
Proof. intros ->. done. Qed.

Lemma moved_buffer_ok (s s' : JsonEditor) :
  wf s → moved s s' → buffer_ok s'.
Proof.
  intros [[Hrow _] Hst] ->. split; [|done]. simpl. apply nonempty_len. lia.
Qed.

Lemma wf_buffer_ok (s : JsonEditor) : wf s → buffer_ok s.
Proof. intros H. eapply moved_buffer_ok; [done|apply moved_refl]. Qed.

Lemma move_word_forward_safe (s : JsonEditor) :
  cursor_ok s → safe (moved s) (_move_word_forward s).
Proof.
  intros [Hrow (line & Hline & Hcol & _)]. unfold _move_word_forward.
  unfold cur_line. rewrite (py_get_lookup _ _ _ (proj1 Hrow) Hline). simpl.
  eapply safe_bind; [apply skip_fwd_safe; lia|]. intros c1 Hc1. simpl in Hc1 |- *.
  eapply safe_bind; [apply skip_fwd_safe; lia|]. intros c2 Hc2. simpl in Hc2 |- *.
  destruct (_ && _) eqn:E; [|done].
  apply andb_true_iff in E as [_ E%Z.ltb_lt]. unfold cur_line. simpl.
  destruct (py_get_in (lines s) (cursor_row s + 1)) as (x & -> & _); [lia|]. done.
Qed.

Lemma move_word_backward_safe (s : JsonEditor) :
  cursor_ok s → safe (moved s) (_move_word_backward s).
Proof.
  intros [Hrow (line & Hline & Hcol & _)]. unfold _move_word_backward.
  unfold cur_line. rewrite (py_get_lookup _ _ _ (proj1 Hrow) Hline). simpl.
  destruct (Z.eqb_spec (cursor_col s) 0).
  - destruct (Z.ltb_spec 0 (cursor_row s)); [|apply moved_refl].
    unfold cur_line. simpl.
    destruct (py_get_in (lines s) (cursor_row s - 1)) as (x & -> & _); [lia|]. done.
  - eapply safe_bind; [apply scan_back_safe; lia|]. intros c1 Hc1. simpl in Hc1 |- *.
    eapply safe_bind; [apply scan_back_safe; lia|]. intros c2 Hc2. simpl in Hc2 |- *.
    destruct s; done.
Qed.

Lemma search_bracket_forward_safe (a b : char) (s : JsonEditor) :
  cursor_ok s → safe (moved s) (_search_bracket_forward a b s).
Proof. intros [Hrow (line & Hline & Hcol & _)]. apply search_fwd_rows_safe; lia. Qed.

Lemma search_bracket_backward_safe (a b : char) (s : JsonEditor) :
  cursor_ok s → safe (moved s) (_search_bracket_backward a b s).
Proof.
  intros [Hrow (line & Hline & Hcol & _)]. apply search_back_rows_safe; [lia|].
  intros line' _ Hl'. assert (line' = line) as -> by congruence. lia.
Qed.

Lemma jump_matching_bracket_safe (s : JsonEditor) :
  cursor_ok s → safe (moved s) (_jump_matching_bracket s).
Proof.
  intros Hok. pose proof Hok as [Hrow (line & Hline & Hcol & _)].
  unfold _jump_matching_bracket.
  unfold cur_line. rewrite (py_get_lookup _ _ _ (proj1 Hrow) Hline). simpl.
  destruct (Z.leb_spec (len line) (cursor_col s)); [apply moved_refl|].
  destruct (py_get_in line (cursor_col s)) as (c & -> & _); [lia|]. simpl.
  repeat case_match;
    first [by apply search_bracket_forward_safe
          |by apply search_bracket_backward_safe
          |apply moved_refl].
Qed.

Lemma delete_word_safe (s : JsonEditor) :
  cursor_ok s →
  safe (λ s', ∃ ls, s' = set_lines ls s ∧ len ls = len (lines s)) (_delete_word s).
Proof.
  intros [Hrow (line & Hline & Hcol & _)]. unfold _delete_word.
  unfold cur_line. rewrite (py_get_lookup _ _ _ (proj1 Hrow) Hline). simpl.
  eapply safe_bind; [apply skip_fwd_safe; lia|]. intros c1 Hc1. simpl in Hc1 |- *.
  eapply safe_bind; [apply skip_fwd_safe; lia|]. intros c2 Hc2. simpl in Hc2 |- *.
  rewrite py_set_in by lia. simpl. eexists. split; [done|]. by rewrite len_insert.
Qed.

Lemma save_undo_stacks_ok (s : JsonEditor) :
  lines s ≠ [] → stacks_ok s → stacks_ok (_save_undo s).
Proof.
  intros Hl [Hu Hr]. split; simpl; [|done].
  case_match; stack_goal.
Qed.

Lemma last_elem_of {A} (l : list A) (x : A) : list.last l = Some x → x ∈ l.
Proof. apply last_Some_elem_of. Qed.

Lemma undo_buffer_ok (s : JsonEditor) : buffer_ok s → buffer_ok (_undo s).
Proof.
  intros [Hl [Hu Hr]]. unfold _undo.
  destruct (list.last (undo_stack s)) as [[[ls row] col]|] eqn:E; [|done].
  apply last_elem_of in E. pose proof (proj1 (list.Forall_forall _ _) Hu _ E) as Hls.
  split; [done|]. split; simpl; unfold drop_last; stack_goal.
Qed.

Lemma redo_buffer_ok (s : JsonEditor) : buffer_ok s → buffer_ok (_redo s).
Proof.
  intros [Hl [Hu Hr]]. unfold _redo.
  destruct (list.last (redo_stack s)) as [[[ls row] col]|] eqn:E; [|done].
  apply last_elem_of in E. pose proof (proj1 (list.Forall_forall _ _) Hr _ E) as Hls.
  split; [done|]. split; simpl; unfold drop_last; stack_goal.
Qed.

Lemma len_insert_lines (ls : list str) (start : Z) (items : list str) :
  len (insert_lines ls start items) = len ls + len items.
Proof.
  revert ls start. induction items as [|x items IH]; intros ls start; simpl.
  - change (len (@nil (list N))) with 0. lia.
  - rewrite IH, len_py_insert, len_cons. lia.
Qed.

Lemma paste_after_buffer_ok (s : JsonEditor) : buffer_ok s → buffer_ok (_paste_after s).
Proof.
  intros [Hl Hst]. unfold _paste_after. case_bool_decide; [done|].
  split; simpl.
  - apply nonempty_len. rewrite len_insert_lines.
    apply len_pos_nonempty in Hl. pose proof (len_nonneg (yank_buffer s)). lia.
  - by apply save_undo_stacks_ok.
Qed.

Lemma paste_before_buffer_ok (s : JsonEditor) : buffer_ok s → buffer_ok (_paste_before s).
Proof.
  intros [Hl Hst]. unfold _paste_before. case_bool_decide; [done|].
  split; simpl.
  - apply nonempty_len. rewrite len_insert_lines.
    apply len_pos_nonempty in Hl. pose proof (len_nonneg (yank_buffer s)). lia.
  - by apply save_undo_stacks_ok.
Qed.

Lemma join_lines_safe (s : JsonEditor) :
  wf s → safe buffer_ok (_join_lines s).
Proof.
  intros Hwf. pose proof (wf_buffer_ok s Hwf) as Hb.
  destruct Hwf as [[Hrow (line & Hline & Hcol & _)] [Hu Hr]].
  destruct s as [ro jl ls row col m cb pd st us rs yb sc db drec drep ob].
  simpl in *. unfold _join_lines.
  pose proof (py_get_lookup _ _ _ (proj1 Hrow) Hline) as Hget.
  assert (ls ≠ []) by (apply nonempty_len; lia).
  run; finish.
Qed.

Lemma find_string_loop_str (line : str) (col : Z) (rest : str) (i : Z)
    (prev : option char) (in_string : bool) (start : Z) (a b : Z) (v : JSON) :
  loads_literal_is_str →
  find_string_loop line col rest i prev in_string start = Some (a, b, v) →
  ∃ text, v = JStr text.
Proof.
  intros Hlaw. revert i prev in_string start.
  induction rest as [|c rest IH]; intros i prev in_string start; simpl; [done|].
  repeat case_match; try done; try apply IH.
  intros [= ? ? ?]; subst. eapply Hlaw. simpl. eassumption.
Qed.

Lemma edit_embedded_json_safe (s : JsonEditor) :
  loads_literal_is_str → wf s → safe buffer_ok (_edit_embedded_json s).
Proof.
  intros Hlaw Hwf. pose proof (wf_buffer_ok s Hwf) as Hb.
  destruct Hwf as [[Hrow (line & Hline & Hcol & _)] [Hu Hr]].
  unfold _edit_embedded_json, _find_string_at_cursor, cur_line.
  rewrite (py_get_lookup _ _ _ (proj1 Hrow) Hline). simpl.
  destruct (find_string_loop _ _ _ _ _ _ _) as [[[a b] v]|] eqn:E; [|done].
  destruct (find_string_loop_str _ _ _ _ _ _ _ _ _ _ Hlaw E) as [text ->].
  repeat case_match; done.
Qed.

Lemma handle_pending_safe (s : JsonEditor) (char key : str) :
  loads_literal_is_str → wf s → safe buffer_ok (_handle_pending s char key).
Proof.
  intros Hlaw Hwf. unfold _handle_pending.
  destruct (_ || _); [by apply wf_buffer_ok in Hwf|].
  destruct (_ && _); [by apply wf_buffer_ok in Hwf|].
  repeat match goal with
         | |- safe _ (if ?c then _ else _) => destruct c
         end.
  10:{ apply edit_embedded_json_safe; [done|]. by destruct s. }
  all: pose proof (wf_buffer_ok s Hwf) as Hb;
    destruct Hwf as [[Hrow (line & Hline & Hcol & Hn)] [Hu Hr]];
    destruct s as [ro jl ls row col m cb pd st us rs yb sc db drec drep ob];
    simpl in *;
    pose proof (py_get_lookup _ _ _ (proj1 Hrow) Hline) as Hget;
    assert (ls ≠ []) by (apply nonempty_len; lia).
  2,5:
    (eapply safe_bind;
     [apply delete_word_safe; split; [done|]; by exists line|];
     intros s' (ls' & -> & Hlen); simpl in *; finish).
  all: run; finish.
Qed.

Lemma handle_insert_safe (s : JsonEditor) (ev : KeyEvent) :
  wf s → safe buffer_ok (_handle_insert s ev).
Proof.
  intros Hwf. pose proof (wf_buffer_ok s Hwf) as Hb.
  destruct Hwf as [[Hrow (line & Hline & Hcol & _)] [Hu Hr]].
  destruct s as [ro jl ls row col m cb pd st us rs yb sc db drec drep ob].
  simpl in *. unfold _handle_insert.
  pose proof (py_get_lookup _ _ _ (proj1 Hrow) Hline) as Hget.
  assert (ls ≠ []) by (apply nonempty_len; lia).
  run; finish.
Qed.

Lemma goto_line_buffer_ok (num : Z) (s : JsonEditor) : buffer_ok s → buffer_ok (goto_line num s).
Proof. done. Qed.

Lemma format_json_buffer_ok (s : JsonEditor) : buffer_ok s → buffer_ok (_format_json s).
Proof.
  intros [Hl [Hu Hr]].
  assert (∀ t, split_on NL t ≠ []) as Hsplit.
  { intros [|c t]; simpl; [done|]. repeat case_match; done. }
  unfold _format_json, _format_jsonl.
  repeat case_match; try done; (split; [apply Hsplit|by apply save_undo_stacks_ok]).
Qed.

Lemma request_save_buffer_ok (force : bool) (arg : str) (q : bool) (s : JsonEditor) :
  buffer_ok s → buffer_ok (request_save force arg q s).
Proof. intros Hb. unfold request_save. repeat case_match; done. Qed.

Lemma exec_command_safe (s : JsonEditor) (cmd : str) :
  buffer_ok s → safe buffer_ok (_exec_command s cmd).
Proof.
  intros Hb. unfold _exec_command.
  repeat match goal with
         | |- safe _ (let! _ := of_option ValueError ?o in _) => destruct o; simpl; [|done]
         | |- safe _ (if ?c then _ else _) => destruct c
         | |- safe _ (match ?c with _ => _ end) => destruct c
         end;
    simpl; auto using goto_line_buffer_ok, format_json_buffer_ok, request_save_buffer_ok.
Qed.

Lemma handle_command_safe (s : JsonEditor) (ev : KeyEvent) :
  buffer_ok s → safe buffer_ok (_handle_command s ev).
Proof.
  intros Hb. unfold _handle_command.
  destruct (_ == _); [done|].
  destruct (_ == _).
  { eapply safe_bind; [by apply exec_command_safe|]. intros s' Hs'. simpl.
    case_match; done. }
  repeat case_match; done.
Qed.

(** [_handle_normal] is safe as soon as the replay it may start is. *)
Lemma handle_normal_with_safe (replay : JsonEditor → Outcome JsonEditor)
    (height : Z) (s : JsonEditor) (ev : KeyEvent) :
  loads_literal_is_str → wf s →
  (pending s = [] → normal_key (key ev) (default [] (character ev)) = KReplay →
   read_only s = false → safe buffer_ok (replay s)) →
  safe buffer_ok (handle_normal_with replay height s ev).
Proof.
  intros Hlaw Hwf Hrep. unfold handle_normal_with.
  destruct (decide (pending s = [])) as [Hp|Hp];
    [rewrite bool_decide_eq_true_2 by done|rewrite bool_decide_eq_false_2 by done];
    simpl; [|by apply handle_pending_safe].
  specialize (Hrep Hp).
  pose proof (wf_buffer_ok s Hwf) as Hb.
  pose proof Hwf as [Hok Hst].
  repeat match goal with
         | |- safe _ (if ?c || ?d then _ else _) => destruct (c || d) eqn:?
         | |- safe _ (if ?c == ?l then _ else _) => destruct (c == l) eqn:?
         end.
  all: try (eapply safe_mono;
            [first [by apply move_word_forward_safe
                   |by apply move_word_backward_safe
                   |by apply jump_matching_bracket_safe]
            |intros; by eapply moved_buffer_ok]).
  all: try (destruct (read_only s) eqn:Hro; simpl; [done|]; apply Hrep; [|done];
            unfold normal_key, is_motion; rewrite_tests; done).
  all: try match goal with
           | |- safe _ (if read_only ?s then _ else _join_lines _) =>
               destruct (read_only s); [done|]; apply join_lines_safe;
               unfold _dot_start; destruct (_dot_replaying s); by destruct s
           | |- safe _ (if read_only ?s then _ else Ok (_paste_after _)) =>
               destruct (read_only s); [done|]; apply paste_after_buffer_ok;
               unfold _dot_start; destruct (_dot_replaying s); by destruct s
           | |- safe _ (if read_only ?s then _ else Ok (_paste_before _)) =>
               destruct (read_only s); [done|]; apply paste_before_buffer_ok;
               unfold _dot_start; destruct (_dot_replaying s); by destruct s
           | |- safe _ (if read_only ?s then _ else Ok (_undo _)) =>
               destruct (read_only s); [done|]; by apply undo_buffer_ok
           | |- safe _ (if read_only ?s then _ else Ok (_redo _)) =>
               destruct (read_only s); [done|]; by apply redo_buffer_ok
           end.
  all: destruct Hok as [Hrow (line & Hline & Hcol & _)];
    destruct Hst as [Hu Hr];
    destruct s as [ro jl ls row col m cb pd st us rs yb sc db drec drep ob];
    simpl in *;
    pose proof (py_get_lookup _ _ _ (proj1 Hrow) Hline) as Hget;
    assert (ls ≠ []) by (apply nonempty_len; lia);
    destruct ro, drep;
    unfold _enter_insert, _dot_start; simpl.
  all: run; finish.
Qed.

End EditorSafety2.


(** ** The editor: mode, pending prefix and dot recorder after a key *)

Lemma Ok_inj {A} (a b : A) : Ok a = Ok b → a = b.
Proof. by intros [= ->]. Qed.

Lemma inl_inj {A B} (a b : A) : @inl A B a = inl b → a = b.
Proof. by intros [= ->]. Qed.

Lemma inr_inj {A B} (a b : B) : @inr A B a = inr b → a = b.
Proof. by intros [= ->]. Qed.

(** Take a normal return apart, step by step. *)
Ltac ok_step :=
  match goal with
  | H : Raise _ = Ok _ |- _ => discriminate H
  | H : Ok ?a = Ok ?b |- _ => apply Ok_inj in H; try (is_var b; subst b)
  | H : inl ?a = inl ?b |- _ => apply inl_inj in H; try (is_var b; subst b)
  | H : inr ?a = inr ?b |- _ => apply inr_inj in H; try (is_var b; subst b)
  | H : inl _ = inr _ |- _ => discriminate H
  | H : inr _ = inl _ |- _ => discriminate H
  | H : bind _ _ = Ok _ |- _ =>
      let a := fresh "a" in
      let Ha := fresh "Ha" in
      apply bind_Ok_inv in H as (a & Ha & H)
  | H : (if ?c then _ else _) = Ok _ |- _ => destruct c eqn:?
  | H : (match ?c with _ => _ end) = Ok _ |- _ => destruct c eqn:?
  | H : (let _ := _ in _) = Ok _ |- _ => cbv zeta in H
  end.

Ltac ok_inv H := repeat first [ok_step | progress simpl in H].

Section EditorControl.
Context {R : Runtime}.

Lemma search_fwd_rows_moved (fuel : nat) (a b : char) (s s' : JsonEditor) (row col depth : Z) :
  search_fwd_rows fuel a b s row col depth = Ok s' → moved s s'.
Proof.
  revert row col depth. induction fuel as [|fuel IH]; intros row col depth H; simpl in H.
  { ok_inv H. apply moved_refl. }
  ok_inv H; try apply moved_refl; try done.
  all: by eapply IH.
Qed.

Lemma search_back_rows_moved (fuel : nat) (a b : char) (s s' : JsonEditor) (row col depth : Z) :
  search_back_rows fuel a b s row col depth = Ok s' → moved s s'.
Proof.
  revert row col depth. induction fuel as [|fuel IH]; intros row col depth H; simpl in H.
  { ok_inv H. apply moved_refl. }
  ok_inv H; try apply moved_refl; try done.
  all: by eapply IH.
Qed.

Lemma move_word_forward_moved (s s' : JsonEditor) :
  _move_word_forward s = Ok s' → moved s s'.
Proof.
  unfold _move_word_forward. intros H. ok_inv H; by destruct s.
Qed.

Lemma move_word_backward_moved (s s' : JsonEditor) :
  _move_word_backward s = Ok s' → moved s s'.
Proof.
  unfold _move_word_backward. intros H. ok_inv H; by destruct s.
Qed.

Lemma jump_matching_bracket_moved (s s' : JsonEditor) :
  _jump_matching_bracket s = Ok s' → moved s s'.
Proof.
  unfold _jump_matching_bracket, _search_bracket_forward, _search_bracket_backward.
  intros H. ok_inv H;
    first [by eapply search_fwd_rows_moved
          |by eapply search_back_rows_moved
          |apply moved_refl].
Qed.

Lemma delete_word_lines (s s' : JsonEditor) :
  _delete_word s = Ok s' → ∃ ls, s' = set_lines ls s.
Proof. unfold _delete_word. intros H. ok_inv H. eauto. Qed.

Lemma join_lines_frame (s s' : JsonEditor) :
  _join_lines s = Ok s' →
  s' = s ∨ ∃ ls c, s' = set_lines ls (set_cursor_col c (_save_undo s)).
Proof.
  unfold _join_lines. intros H. ok_inv H; [by left|right; eauto].
Qed.

Lemma edit_embedded_json_frame (s s' : JsonEditor) :
  _edit_embedded_json s = Ok s' →
  (∃ m, s' = set_status_msg m s) ∨ (∃ m, s' = post_message m s).
Proof.
  unfold _edit_embedded_json. intros H. ok_inv H; eauto.
Qed.

Lemma clamp_cursor_moved (s s' : JsonEditor) :
  _clamp_cursor s = Ok s' → moved s s'.
Proof. unfold _clamp_cursor. intros H. ok_inv H. done. Qed.

Ltac fields :=
  unfold dot_same, dot_started, dot_stopped in *;
  repeat match goal with
         | H : Ok _ = Ok _ |- _ => injection H as <-
         | H : ∃ _, _ |- _ => destruct H
         | H : _ ∧ _ |- _ => destruct H
         | H : moved _ _ |- _ => rewrite H; clear H
         end;
  subst; simpl in *;
  repeat match goal with
         | |- context [if ?c then _ else _] => destruct c eqn:?; simpl
         | |- context [match ?c with _ => _ end] => destruct c eqn:?; simpl
         end;
  rewrite ?andb_true_r, ?andb_false_r;
  repeat split; try done; try congruence.

Lemma handle_insert_ctl (s s' : JsonEditor) (ev : KeyEvent) :
  _handle_insert s ev = Ok s' →
  read_only s' = read_only s ∧ pending s' = pending s
  ∧ _mode s' = (if key ev == "escape" then NORMAL else _mode s)
  ∧ _dot_buffer s' = _dot_buffer s ∧ _dot_replaying s' = _dot_replaying s
  ∧ _dot_recording s' = (if key ev == "escape" then false else _dot_recording s).
Proof.
  unfold _handle_insert. intros H.
  destruct (key ev == "escape"); [by ok_inv H|].
  ok_inv H; fields.
Qed.

Lemma handle_pending_ctl (s s' : JsonEditor) (char key : str) :
  _handle_pending s char key = Ok s' → read_only s = false →
  read_only s' = false ∧ pending s' = []
  ∧ _mode s' = (if pending_enters_insert (pending s) char key then INSERT else _mode s)
  ∧ dot_stopped s s'
  ∧ (_dot_recording s' = true →
     pending_enters_insert (pending s) char key = true
     ∨ pending_passive (pending s) char key = true).
Proof.
  unfold _handle_pending, pending_enters_insert, pending_passive, pending_cancelled.
  intros H Hro.
  destruct s as [ro jl ls row col m cb pd st us rs yb sc db drec drep ob].
  simpl in *. subst ro.
  destruct (_ || _) eqn:Hc; simpl; [by ok_inv H|].
  repeat match type of H with
         | (if ?c then _ else _) = _ => destruct c eqn:?
         end;
    rewrite_tests; simpl; rewrite ?orb_true_r.
  all: try match goal with
           | E : (?x == ?l) = true |- _ =>
               unfold is_lit in E; apply str_eqb_eq in E; rewrite E in *; simpl
           end.
  all: ok_inv H; unfold _enter_insert in *; simpl in *;
    try match goal with
        | Ha : _delete_word _ = Ok _ |- _ => apply delete_word_lines in Ha as [? ->]
        | Ha : _edit_embedded_json _ = Ok _ |- _ =>
            apply edit_embedded_json_frame in Ha as [[? ->]|[? ->]]
        end;
    fields; auto.
Qed.

(** What the command line leaves alone. *)
Lemma format_json_frame (s : JsonEditor) :
  read_only (_format_json s) = read_only s ∧ pending (_format_json s) = pending s
  ∧ _mode (_format_json s) = _mode s ∧ dot_same s (_format_json s).
Proof. unfold _format_json, _format_jsonl. repeat case_match; fields. Qed.

Lemma request_save_frame (force : bool) (arg : str) (q : bool) (s : JsonEditor) :
  read_only (request_save force arg q s) = read_only s
  ∧ pending (request_save force arg q s) = pending s
  ∧ _mode (request_save force arg q s) = _mode s
  ∧ dot_same s (request_save force arg q s).
Proof. unfold request_save. repeat case_match; fields. Qed.

Lemma exec_command_ctl (s s' : JsonEditor) (cmd : str) :
  _exec_command s cmd = Ok s' →
  read_only s' = read_only s ∧ pending s' = pending s ∧ _mode s' = _mode s
  ∧ dot_same s s'.
Proof.
  unfold _exec_command. intros H.
  pose proof (format_json_frame s) as Hf.
  ok_inv H;
    try match goal with
        | |- context [request_save ?f ?a ?q ?s] =>
            pose proof (request_save_frame f a q s)
        end;
    try done; fields.
Qed.

Lemma handle_command_ctl (s s' : JsonEditor) (ev : KeyEvent) :
  _handle_command s ev = Ok s' →
  read_only s' = read_only s ∧ pending s' = pending s ∧ dot_same s s'
  ∧ (_mode s = COMMAND → _mode s' = COMMAND ∨ _mode s' = NORMAL).
Proof.
  unfold _handle_command. intros H.
  ok_inv H;
    try match goal with
        | Ha : _exec_command _ _ = Ok _ |- _ =>
            apply exec_command_ctl in Ha as (? & ? & ? & ?)
        end;
    fields; auto; try congruence.
  intros Hm. left. congruence.
Qed.

Lemma dot_started_refl_replaying (ev : KeyEvent) (s : JsonEditor) :
  _dot_replaying s = true → dot_started ev true s s.
Proof. intros H. unfold dot_started. rewrite H, andb_true_r. done. Qed.

(** The control skeleton is what [_handle_normal] does to mode, pending
    prefix and recorder, outside a replay. *)
Lemma handle_normal_ctl (replay : JsonEditor → Outcome JsonEditor) (height : Z)
    (s s' : JsonEditor) (ev : KeyEvent) :
  handle_normal_with replay height s ev = Ok s' →
  read_only s = false → pending s = [] →
  let char := default [] (character ev) in
  match normal_key (key ev) char with
  | KReplay => True
  | KMotion | KHistory | KIgnored =>
      read_only s' = false ∧ _mode s' = _mode s ∧ pending s' = [] ∧ dot_same s s'
  | KEnterInsert =>
      read_only s' = false ∧ _mode s' = INSERT ∧ pending s' = []
      ∧ dot_started ev true s s'
  | KShot =>
      read_only s' = false ∧ _mode s' = _mode s ∧ pending s' = []
      ∧ dot_started ev false s s'
  | KPrefix recorded =>
      read_only s' = false ∧ _mode s' = _mode s ∧ pending s' = char
      ∧ (if recorded then dot_started ev true s s' else dot_same s s')
      ∧ (recorded = true → edit_prefix char)
  | KColon =>
      read_only s' = false ∧ _mode s' = COMMAND ∧ pending s' = [] ∧ dot_same s s'
  end.
Proof.
  unfold handle_normal_with. intros H Hro Hp.
  destruct s as [ro jl ls row col m cb pd st us rs yb sc db drec drep ob].
  simpl in *. subst ro pd. simpl in H.
  unfold normal_key, is_motion.
  repeat match type of H with
         | (if ?c then _ else _) = _ => destruct c eqn:?
         end;
    rewrite_tests; simpl; rewrite ?orb_true_r; simpl; try done.
  all: repeat match goal with
           | E : (?x == ?l) = true |- _ =>
               unfold is_lit in E; apply str_eqb_eq in E; rewrite E in *; simpl
           end.
  all: unfold _enter_insert, _dot_start, _paste_after, _paste_before, _undo, _redo in *;
    simpl in *.
  all: try match goal with
           | Ha : _move_word_forward _ = Ok _ |- _ => apply move_word_forward_moved in Ha
           | Ha : _move_word_backward _ = Ok _ |- _ => apply move_word_backward_moved in Ha
           | Ha : _jump_matching_bracket _ = Ok _ |- _ => apply jump_matching_bracket_moved in Ha
           | Ha : _join_lines _ = Ok _ |- _ =>
               apply join_lines_frame in Ha as [->|(? & ? & ->)]
           end.
  all: destruct drep; simpl in *.
  all: ok_inv H; fields.
  all: intros _; unfold edit_prefix, is_lit in *;
    set (c := default [] (character ev)) in *;
    destruct (str_eqb c (lit "d")) eqn:Ed; [left; by apply str_eqb_eq|];
    destruct (str_eqb c (lit "c")) eqn:Ec; [right; left; by apply str_eqb_eq|];
    destruct (str_eqb c (lit "r")) eqn:Er; [right; right; by apply str_eqb_eq|];
    exfalso;
    destruct (str_eqb c (lit "y")), (str_eqb c (lit "g")), (str_eqb c (lit "e"));
    simpl in *; discriminate.
Qed.

End EditorControl.


(** ** The editor: a replay never starts a replay *)

Section EditorReplay.
Context {R : Runtime}.

Lemma ctl_run_app (B : list KeyEvent) (ev : KeyEvent) (c0 c : EditorMode * str) :
  ctl_run B c0 = Some c → ctl_run (B ++ [ev]) c0 = ctl_step c ev.
Proof.
  revert c0. induction B as [|e B IH]; intros c0; simpl.
  - intros [= ->]. by destruct (ctl_step c ev).
  - destruct (ctl_step c0 e); [apply IH|done].
Qed.

(** Where the skeleton says [.], [_handle_normal] replays. *)
Lemma handle_normal_replays (replay : JsonEditor → Outcome JsonEditor) (height : Z)
    (s : JsonEditor) (ev : KeyEvent) :
  pending s = [] → read_only s = false →
  normal_key (key ev) (default [] (character ev)) = KReplay →
  handle_normal_with replay height s ev = replay s.
Proof.
  intros Hp Hro Hk. unfold handle_normal_with. rewrite Hp, Hro. simpl.
  unfold normal_key, is_motion in Hk.
  repeat match type of Hk with
         | (if ?c then _ else _) = _ => destruct c eqn:?; try discriminate Hk
         end.
  repeat match goal with
         | H : _ || _ = false |- _ => apply orb_false_iff in H as [? ?]
         end.
  rewrite_tests. done.
Qed.

Lemma wf_moved (s s' : JsonEditor) :
  moved s s' → cursor_ok s' → stacks_ok s → wf s'.
Proof. intros Hm Hc Hs. split; [done|]. rewrite Hm. done. Qed.

(** One key handled in Normal mode, as the skeleton has it. *)
Lemma normal_step_ctl (replay : JsonEditor → Outcome JsonEditor) (height : Z)
    (s s' : JsonEditor) (ev : KeyEvent) (c : EditorMode * str) :
  handle_normal_with replay height s ev = Ok s' →
  read_only s = false → _mode s = NORMAL →
  ctl_step (NORMAL, pending s) ev = Some c →
  read_only s' = false ∧ (_mode s', pending s') = c
  ∧ _dot_replaying s' = _dot_replaying s
  ∧ (_dot_replaying s = true →
     _dot_buffer s' = _dot_buffer s ∧ (_dot_recording s' = true → _dot_recording s = true)).
Proof.
  intros H Hro Hm Hc. unfold ctl_step in Hc. simpl in Hc.
  destruct (decide (pending s = [])) as [Hp|Hp].
  - rewrite bool_decide_eq_true_2 in Hc by done. simpl in Hc.
    pose proof (handle_normal_ctl _ _ _ _ _ H Hro Hp) as Hn. simpl in Hn.
    destruct (normal_key _ _) as [| | | | |recorded| |]; try done;
      injection Hc as <-; unfold dot_same, dot_started in Hn.
    all: try destruct recorded.
    all: destruct (_dot_replaying s) eqn:Hrep.
    all: repeat match goal with H : _ ∧ _ |- _ => destruct H end.
    all: repeat split; try congruence; try done.
    all: intros Hr.
    all: match goal with
         | E : _dot_recording _ = _ && _ |- _ =>
             rewrite E in Hr; by apply andb_true_iff in Hr as [? _]
         end.
  - rewrite bool_decide_eq_false_2 in Hc by done. simpl in Hc. injection Hc as <-.
    unfold handle_normal_with in H. rewrite bool_decide_eq_false_2 in H by done.
    simpl in H.
    pose proof (handle_pending_ctl _ _ _ _ H Hro) as (? & ? & Hmode & (? & ? & ?) & _).
    repeat split; try done. rewrite Hmode, Hm. by f_equal.
Qed.

Lemma clamp_cursor_safe (s : JsonEditor) :
  buffer_ok s → safe (λ s', wf s' ∧ moved s s') (_clamp_cursor s).
Proof.
  intros [Hl Hst]. destruct (clamp_cursor_ok s Hl) as (s' & -> & Hok & _ & _ & Hm).
  simpl. split; [|done]. by eapply wf_moved.
Qed.

(** What one replayed key leaves, before the cursor is clamped. *)
Lemma replay_handler_safe (nested : JsonEditor → Outcome JsonEditor) (height : Z)
    (s : JsonEditor) (ev : KeyEvent) (c : EditorMode * str) :
  loads_literal_is_str → wf s → read_only s = false → _dot_replaying s = true →
  ctl_step (_mode s, pending s) ev = Some c →
  safe (λ s', buffer_ok s' ∧ read_only s' = false ∧ (_mode s', pending s') = c
              ∧ _dot_replaying s' = true ∧ _dot_buffer s' = _dot_buffer s
              ∧ (_dot_recording s' = true → _dot_recording s = true))
    match _mode s with
    | NORMAL => handle_normal_with nested height s ev
    | INSERT => _handle_insert s ev
    | COMMAND => Ok s
    end.
Proof.
  intros Hlaw Hwf Hro Hrep Hstep. destruct (_mode s) eqn:Hm.
  - assert (safe buffer_ok (handle_normal_with nested height s ev)) as Hsafe.
    { apply handle_normal_with_safe; [done|done|]. intros Hp Hk _. exfalso.
      unfold ctl_step in Hstep. simpl in Hstep. rewrite Hp, Hk in Hstep. done. }
    destruct (handle_normal_with nested height s ev) as [s1|e] eqn:Hh; [|done].
    simpl in *. split; [done|].
    destruct (normal_step_ctl _ _ _ _ _ _ Hh Hro Hm Hstep) as (? & ? & ? & Hd).
    destruct (Hd Hrep) as [? ?]. repeat split; (done || congruence).
  - pose proof (handle_insert_safe s ev Hwf) as Hsafe.
    destruct (_handle_insert s ev) as [s1|e] eqn:Hh; [|done].
    simpl in *. split; [done|].
    destruct (handle_insert_ctl _ _ _ Hh) as (? & Hp & Hmode & ? & ? & Hrec).
    injection Hstep as <-. rewrite Hmode, Hp, Hm.
    repeat split; try congruence.
    rewrite Hrec. by destruct (key ev == "escape").
  - simpl. injection Hstep as <-. split; [by apply wf_buffer_ok|].
    rewrite Hm. done.
Qed.

(** The loop of [_dot_replay] runs through a buffer that the skeleton
    accepts, whatever a nested replay would do. *)
Lemma replay_loop_safe (nested : JsonEditor → Outcome JsonEditor) (height : Z)
    (B : list KeyEvent) (s : JsonEditor) (c : EditorMode * str) :
  loads_literal_is_str → wf s → read_only s = false → _dot_replaying s = true →
  ctl_run B (_mode s, pending s) = Some c →
  safe (λ s', wf s' ∧ read_only s' = false ∧ _dot_replaying s' = true
              ∧ _dot_buffer s' = _dot_buffer s
              ∧ (_dot_recording s' = true → _dot_recording s = true))
    (for_each (replay_step (handle_normal_with nested height)) B s).
Proof.
  intros Hlaw. revert s. induction B as [|ev B IH]; intros s Hwf Hro Hrep Hrun.
  { simpl. done. }
  simpl in Hrun. destruct (ctl_step _ ev) as [c1|] eqn:Hstep; [|done].
  simpl. unfold replay_step at 1.
  eapply safe_bind.
  { eapply safe_bind; [by eapply replay_handler_safe|].
    intros s1 (Hb & Hro1 & Hc1 & Hrep1 & Hbuf1 & Hrec1). simpl.
    eapply safe_mono; [by apply clamp_cursor_safe|].
    intros s2 [Hwf2 Hm2].
    instantiate (1 := λ s2, wf s2 ∧ read_only s2 = false
                            ∧ (_mode s2, pending s2) = c1
                            ∧ _dot_replaying s2 = true
                            ∧ _dot_buffer s2 = _dot_buffer s
                            ∧ (_dot_recording s2 = true → _dot_recording s = true)).
    simpl. split; [done|]. rewrite Hm2. simpl. done. }
  intros s2 (Hwf2 & Hro2 & Hc2 & Hrep2 & Hbuf2 & Hrec2). simpl.
  eapply safe_mono; [apply IH; try done; by rewrite Hc2|].
  intros s3 (? & ? & ? & Hb3 & Hr3). simpl.
  split; [done|]. split; [done|]. split; [done|]. split; [congruence|auto].
Qed.

(** [_dot_replay] at any depth, from Normal mode with nothing pending. *)
Lemma dot_replay_safe (depth : nat) (height : Z) (s : JsonEditor) :
  loads_literal_is_str → wf s → dot_ok s → read_only s = false →
  _mode s = NORMAL → pending s = [] → _dot_recording s = false →
  safe (λ s', buffer_ok s' ∧ read_only s' = false ∧ dot_ok s'
              ∧ _dot_recording s' = false)
    (_dot_replay depth height s).
Proof.
  intros Hlaw Hwf Hdot Hro Hm Hp Hrec.
  destruct (Hdot Hro) as (Hrep & c & Hrun & _).
  assert (_dot_replay depth height s
          = dot_replay_with
              (handle_normal_with
                 match depth with
                 | O => λ _, Raise RecursionError
                 | S d => _dot_replay d height
                 end height) s) as -> by by destruct depth.
  unfold dot_replay_with. case_bool_decide as Hb.
  { simpl. split; [by apply wf_buffer_ok|]. done. }
  eapply safe_bind.
  { apply (replay_loop_safe _ _ _ _ c); try done.
    simpl. by rewrite Hm, Hp. }
  intros s1 (Hwf1 & Hro1 & Hrep1 & Hbuf1 & Hrec1). simpl in *.
  split; [apply wf_buffer_ok in Hwf1; by destruct s1|].
  split; [done|].
  assert (_dot_recording s1 = false) as Hr1.
  { destruct (_dot_recording s1); [|done]. rewrite Hrec1 in Hrec; done. }
  split; [|done].
  intros _. simpl. split; [done|]. exists c. rewrite Hbuf1. split; [done|].
  intros Hr. congruence.
Qed.

End EditorReplay.


(** ** The editor: the session flags and the bound on the history *)

Lemma len_drop {A} (n : nat) (l : list A) : len (drop n l) = Z.max 0 (len l - Z.of_nat n).
Proof. unfold len. rewrite length_drop. lia. Qed.

Lemma len_drop_last {A} (l : list A) : len (drop_last l) = Z.max 0 (len l - 1).
Proof. unfold drop_last, len. rewrite length_take. lia. Qed.

Lemma last_Some_len {A} (l : list A) (x : A) : list.last l = Some x → 0 < len l.
Proof. intros [l' ->]%last_Some. rewrite len_app, len_cons. pose proof (len_nonneg l'). unfold len at 2. simpl. lia. Qed.

Ltac hist_goal :=
  unfold history_ok in *; simpl in *;
  repeat match goal with
         | |- context [if ?a <? ?b then _ else _] => destruct (Z.ltb_spec a b)
         | H : list.last _ = Some _ |- _ => apply last_Some_len in H
         end;
  repeat first [rewrite len_app in * | rewrite len_cons in *
               | rewrite len_drop in * | rewrite len_drop_last in * ];
  repeat match goal with
         | |- context [@len ?A []] => change (@len A []) with 0
         | H : context [@len ?A []] |- _ => change (@len A []) with 0 in H
         end;
  try (unfold len in *; lia).

Ltac kept_goal :=
  unfold kept in *;
  repeat match goal with
         | H : ∃ _, _ |- _ => destruct H
         | H : _ ∧ _ |- _ => destruct H
         | H : moved _ _ |- _ => rewrite H; clear H
         end;
  subst; unfold kept in *; simpl in *;
  repeat match goal with
         | |- context [if ?c then _ else _] =>
             lazymatch c with
             | _ <? _ => fail
             | _ => destruct c eqn:?; simpl
             end
         | |- context [match ?c with _ => _ end] =>
             lazymatch c with
             | _ <? _ => fail
             | _ => destruct c eqn:?; simpl
             end
         end;
  repeat split; try done; try congruence; try (intros ?; hist_goal).

Section EditorKept.
Context {R : Runtime}.

Lemma kept_refl (s : JsonEditor) : kept s s.
Proof. done. Qed.

Lemma kept_trans (s1 s2 s3 : JsonEditor) : kept s1 s2 → kept s2 s3 → kept s1 s3.
Proof. intros (? & ? & ?) (? & ? & ?). repeat split; try congruence. auto. Qed.

Lemma moved_kept (s s' : JsonEditor) : moved s s' → kept s s'.
Proof. intros ->. done. Qed.

Lemma save_undo_kept (s : JsonEditor) : kept s (_save_undo s).
Proof.
  kept_goal.
Qed.

Lemma undo_kept (s : JsonEditor) : kept s (_undo s).
Proof. unfold _undo. kept_goal. Qed.

Lemma redo_kept (s : JsonEditor) : kept s (_redo s).
Proof. unfold _redo. kept_goal. Qed.

Lemma format_json_kept (s : JsonEditor) : kept s (_format_json s).
Proof. unfold _format_json, _format_jsonl. kept_goal. Qed.

Lemma request_save_kept (force : bool) (arg : str) (q : bool) (s : JsonEditor) :
  kept s (request_save force arg q s).
Proof. unfold request_save. kept_goal. Qed.

Lemma handle_insert_kept (s s' : JsonEditor) (ev : KeyEvent) :
  _handle_insert s ev = Ok s' → kept s s'.
Proof. unfold _handle_insert. intros H. ok_inv H; kept_goal. Qed.

Lemma exec_command_kept (s s' : JsonEditor) (cmd : str) :
  _exec_command s cmd = Ok s' → kept s s'.
Proof.
  unfold _exec_command. intros H.
  ok_inv H; auto using format_json_kept, request_save_kept; kept_goal.
Qed.

Lemma handle_command_kept (s s' : JsonEditor) (ev : KeyEvent) :
  _handle_command s ev = Ok s' → kept s s'.
Proof.
  unfold _handle_command. intros H.
  ok_inv H;
    try match goal with
        | Ha : _exec_command _ _ = Ok _ |- _ => apply exec_command_kept in Ha
        end;
    kept_goal; auto.
Qed.

Lemma handle_pending_kept (s s' : JsonEditor) (char key : str) :
  _handle_pending s char key = Ok s' → kept s s'.
Proof.
  unfold _handle_pending. intros H.
  ok_inv H; unfold _enter_insert in *;
    try match goal with
        | Ha : _delete_word _ = Ok _ |- _ => apply delete_word_lines in Ha as [? ->]
        | Ha : _edit_embedded_json _ = Ok _ |- _ =>
            apply edit_embedded_json_frame in Ha as [[? ->]|[? ->]]
        end;
    kept_goal.
Qed.

Lemma handle_normal_kept (replay : JsonEditor → Outcome JsonEditor) (height : Z)
    (s s' : JsonEditor) (ev : KeyEvent) :
  (∀ t t', replay t = Ok t' → kept t t') →
  handle_normal_with replay height s ev = Ok s' → kept s s'.
Proof.
  unfold handle_normal_with. intros Hrep H.
  destruct (negb (bool_decide (pending s = []))); [by eapply handle_pending_kept|].
  repeat match type of H with
         | (if ?c then _ else _) = _ => destruct c eqn:?
         end.
  all: try (by apply Hrep).
  all: try match goal with
           | Ha : _move_word_forward _ = Ok _ |- _ =>
               apply move_word_forward_moved in Ha; by apply moved_kept
           | Ha : _move_word_backward _ = Ok _ |- _ =>
               apply move_word_backward_moved in Ha; by apply moved_kept
           | Ha : _jump_matching_bracket _ = Ok _ |- _ =>
               apply jump_matching_bracket_moved in Ha; by apply moved_kept
           end.
  all: unfold _enter_insert, _dot_start, _paste_after, _paste_before in *.
  all: ok_inv H;
    try match goal with
        | Ha : _join_lines _ = Ok _ |- _ =>
            apply join_lines_frame in Ha as [->|(? & ? & ->)]
        end;
    auto using undo_kept, redo_kept; kept_goal.
Qed.

Lemma for_each_kept {A} (step : JsonEditor → A → Outcome JsonEditor) (xs : list A)
    (s s' : JsonEditor) :
  (∀ t x t', step t x = Ok t' → kept t t') →
  for_each step xs s = Ok s' → kept s s'.
Proof.
  intros Hstep. revert s. induction xs as [|x xs IH]; intros s H; simpl in H.
  - apply Ok_inj in H as <-. apply kept_refl.
  - apply bind_Ok_inv in H as (s1 & H1 & H). eapply kept_trans; eauto.
Qed.

Lemma replay_step_kept (normal : JsonEditor → KeyEvent → Outcome JsonEditor)
    (s s' : JsonEditor) (ev : KeyEvent) :
  (∀ t e t', normal t e = Ok t' → kept t t') →
  replay_step normal s ev = Ok s' → kept s s'.
Proof.
  intros Hn H. unfold replay_step in H. apply bind_Ok_inv in H as (s1 & H1 & H).
  apply clamp_cursor_moved, moved_kept in H.
  eapply kept_trans; [|done].
  destruct (_mode s); [by eapply Hn|by eapply handle_insert_kept|].
  apply Ok_inj in H1 as <-. apply kept_refl.
Qed.

Lemma dot_replay_with_kept (normal : JsonEditor → KeyEvent → Outcome JsonEditor)
    (s s' : JsonEditor) :
  (∀ t e t', normal t e = Ok t' → kept t t') →
  dot_replay_with normal s = Ok s' → kept s s'.
Proof.
  intros Hn H. unfold dot_replay_with in H. case_bool_decide.
  { apply Ok_inj in H as <-. apply kept_refl. }
  apply bind_Ok_inv in H as (s1 & H1 & H). apply Ok_inj in H as <-.
  apply for_each_kept in H1; [|intros; by eapply replay_step_kept].
  destruct H1 as (? & ? & ?). by repeat split.
Qed.

Lemma dot_replay_kept (depth : nat) (height : Z) (s s' : JsonEditor) :
  _dot_replay depth height s = Ok s' → kept s s'.
Proof.
  revert s s'. induction depth as [|depth IH]; intros s s' H; simpl in H.
  - eapply dot_replay_with_kept; [|done]. intros t e t'.
    apply handle_normal_kept. intros ? ? [=].
  - eapply dot_replay_with_kept; [|done]. intros t e t'.
    apply handle_normal_kept. intros ? ?. apply IH.
Qed.

Lemma on_key_kept (height : Z) (s s' : JsonEditor) (ev : KeyEvent) :
  on_key height s ev = Ok s' → kept s s'.
Proof.
  unfold on_key. intros H. apply bind_Ok_inv in H as (s1 & H1 & H).
  apply clamp_cursor_moved, moved_kept in H.
  eapply kept_trans; [|done].
  match type of H1 with
  | context [_mode ?s0] =>
      assert (kept s s0) as H0 by (destruct (_ && _); done);
      assert (kept s0 s1); [|by eapply kept_trans]
  end.
  destruct (_mode _).
  - unfold _handle_normal in H1. eapply handle_normal_kept; [|done].
    intros ? ?. apply dot_replay_kept.
  - by eapply handle_insert_kept.
  - by eapply handle_command_kept.
Qed.


End EditorKept.


(** ** The editor: every key event leaves a well-formed state *)

Section EditorInvariant.
Context {R : Runtime}.

Lemma safe_and {A} (P Q : A → Prop) (o : Outcome A) :
  safe P o → (∀ a, o = Ok a → Q a) → safe (λ a, P a ∧ Q a) o.
Proof. destruct o; simpl; auto. Qed.

Lemma dot_ok_moved (s s' : JsonEditor) : moved s s' → dot_ok s → dot_ok s'.
Proof. intros ->. done. Qed.

Lemma dot_ok_read_only (s : JsonEditor) : read_only s = true → dot_ok s.
Proof. intros H H'. congruence. Qed.

Lemma edit_prefix_active (p char key : str) :
  edit_prefix p → pending_passive p char key = false.
Proof.
  unfold pending_passive. intros [-> | [-> | ->]];
    destruct (negb _); simpl; try done;
    unfold is_lit; simpl; by rewrite ?andb_false_r.
Qed.

Lemma edit_prefix_nonempty (p : str) : edit_prefix p → p ≠ [].
Proof. by intros [-> | [-> | ->]]. Qed.

(** While recording: the key is appended to the dot buffer, then handled. *)
Lemma recorded_key_safe (height : Z) (s : JsonEditor) (ev : KeyEvent) :
  loads_literal_is_str → wf s → dot_ok s → read_only s = false →
  _dot_recording s = true →
  let s0 := set_dot_buffer (_dot_buffer s ++ [ev]) s in
  safe (λ s1, buffer_ok s1 ∧ dot_ok s1)
    match _mode s0 with
    | NORMAL => _handle_normal height s0 ev
    | INSERT => _handle_insert s0 ev
    | COMMAND => _handle_command s0 ev
    end.
Proof.
  intros Hlaw Hwf Hdot Hro Hrec s0.
  destruct (Hdot Hro) as (Hrep & c & Hrun & Hshape).
  destruct (Hshape Hrec) as (-> & Hcase).
  assert (wf s0) as Hwf0 by by destruct s.
  pose proof (ctl_run_app _ ev _ _ Hrun) as Hrun'.
  destruct Hcase as [Hm|[Hm Hp]]; simpl; rewrite Hm.
  - apply safe_and; [by apply handle_insert_safe|].
    intros s1 H1. apply handle_insert_ctl in H1 as (Hro1 & Hp1 & Hm1 & Hb1 & Hr1 & Hrec1).
    simpl in *. intros _. split; [congruence|].
    unfold ctl_step in Hrun'. simpl in Hrun'. rewrite Hm in Hrun'.
    eexists. rewrite Hb1. split; [exact Hrun'|].
    rewrite Hrec1, Hm1, Hp1, Hm. destruct (key ev == "escape"); [done|]. auto.
  - pose proof (edit_prefix_nonempty _ Hp) as Hne.
    unfold _handle_normal.
    apply safe_and.
    { apply handle_normal_with_safe; [done|done|]. intros Hp'. simpl in Hp'. done. }
    intros s1 H1. unfold handle_normal_with in H1. simpl in H1.
    rewrite bool_decide_eq_false_2 in H1 by done. simpl in H1.
    apply handle_pending_ctl in H1 as (Hro1 & Hp1 & Hm1 & (Hb1 & Hr1 & _) & Hrec1);
      [|done].
    simpl in *. intros _. split; [congruence|].
    unfold ctl_step in Hrun'. simpl in Hrun'. rewrite Hm in Hrun'.
    rewrite bool_decide_eq_false_2 in Hrun' by done. simpl in Hrun'.
    eexists. rewrite Hb1. split; [exact Hrun'|].
    intros Hr. destruct (Hrec1 Hr) as [He|He].
    + rewrite Hm1, Hp1, He. auto.
    + by rewrite edit_prefix_active in He.
Qed.

(** Not recording: the key is handled as it comes. *)
Lemma plain_key_safe (height : Z) (s : JsonEditor) (ev : KeyEvent) :
  loads_literal_is_str → wf s → dot_ok s → read_only s = false →
  _dot_recording s = false →
  safe (λ s1, buffer_ok s1 ∧ dot_ok s1)
    match _mode s with
    | NORMAL => _handle_normal height s ev
    | INSERT => _handle_insert s ev
    | COMMAND => _handle_command s ev
    end.
Proof.
  intros Hlaw Hwf Hdot Hro Hrec.
  destruct (Hdot Hro) as (Hrep & c & Hrun & _).
  destruct (_mode s) eqn:Hm.
  - unfold _handle_normal.
    destruct (decide (pending s = [])) as [Hp|Hp].
    + destruct (normal_key (key ev) (default [] (character ev))) eqn:Hk.
      5:{ rewrite handle_normal_replays by done.
          eapply safe_mono; [by apply dot_replay_safe|]. intros s1 (? & ? & ? & ?). done. }
      all: apply safe_and;
        [apply handle_normal_with_safe; [done|done|]; intros _ Hk'; congruence|].
      all: intros s1 H1; pose proof (handle_normal_ctl _ _ _ _ _ H1 Hro Hp) as Hn;
        simpl in Hn; rewrite Hk in Hn; unfold dot_same, dot_started in Hn;
        rewrite ?Hrep in Hn; intros _.
      all: try destruct recorded.
      all: repeat match goal with H : _ ∧ _ |- _ => destruct H end.
      all: split; [congruence|].
      all: try (exists c; split; [congruence|]; intros; congruence).
      all: match goal with Hb : _dot_buffer _ = [_] |- _ => rewrite Hb end.
      all: simpl; unfold ctl_step; simpl; rewrite Hk; eexists; (split; [done|]).
      all: intros Hr; try congruence.
      * split; [congruence|]. left. done.
      * split; [congruence|]. right. split; [congruence|].
        match goal with Hp1 : pending _ = default _ _ |- _ => rewrite Hp1 end. auto.
    + apply safe_and.
      { apply handle_normal_with_safe; [done|done|]. intros Hp'. done. }
      intros s1 H1. unfold handle_normal_with in H1.
      rewrite bool_decide_eq_false_2 in H1 by done. simpl in H1.
      apply handle_pending_ctl in H1 as (Hro1 & Hp1 & Hm1 & (Hb1 & Hr1 & Hrec1) & _);
        [|done].
      intros _. split; [congruence|]. exists c. split; [congruence|].
      intros Hr. apply Hrec1 in Hr. congruence.
  - apply safe_and; [by apply handle_insert_safe|].
    intros s1 H1. apply handle_insert_ctl in H1 as (Hro1 & Hp1 & Hm1 & Hb1 & Hr1 & Hrec1).
    intros _. split; [congruence|]. exists c. split; [congruence|].
    rewrite Hrec1, Hrec. by destruct (key ev == "escape").
  - apply safe_and; [apply handle_command_safe; by apply wf_buffer_ok|].
    intros s1 H1. apply handle_command_ctl in H1 as (Hro1 & Hp1 & (Hb1 & Hrec1 & Hr1) & _).
    intros _. split; [congruence|]. exists c. split; [congruence|]. congruence.
Qed.

(** In a read-only session nothing is recorded or replayed. *)
Lemma read_only_key_safe (height : Z) (s : JsonEditor) (ev : KeyEvent) :
  loads_literal_is_str → wf s → read_only s = true →
  safe buffer_ok
    match _mode s with
    | NORMAL => _handle_normal height s ev
    | INSERT => _handle_insert s ev
    | COMMAND => _handle_command s ev
    end.
Proof.
  intros Hlaw Hwf Hro. destruct (_mode s).
  - apply handle_normal_with_safe; [done|done|]. intros _ _ ?. congruence.
  - by apply handle_insert_safe.
  - apply handle_command_safe. by apply wf_buffer_ok.
Qed.

(** The invariant of a session: after a key event the state is well formed
    and its dot buffer can be replayed; the only exception a key event can
    end in is the [ValueError] of [int()]. *)
Lemma on_key_safe (height : Z) (s : JsonEditor) (ev : KeyEvent) :
  loads_literal_is_str → wf s → dot_ok s →
  safe (λ s', wf s' ∧ dot_ok s') (on_key height s ev).
Proof.
  intros Hlaw Hwf Hdot.
  assert (∀ o, safe (λ s1, buffer_ok s1 ∧ dot_ok s1) o →
               safe (λ s', wf s' ∧ dot_ok s') (let! s1 := o in _clamp_cursor s1)) as Hclamp.
  { intros o Ho. eapply safe_bind; [exact Ho|]. intros s1 [Hb Hd]. simpl.
    eapply safe_mono; [by apply clamp_cursor_safe|]. intros s2 [? Hm]. simpl.
    split; [done|]. by eapply dot_ok_moved. }
  unfold on_key. apply Hclamp.
  destruct (read_only s) eqn:Hro.
  - assert (∀ s0, wf s0 → read_only s0 = true →
                  safe (λ s1, buffer_ok s1 ∧ dot_ok s1)
                    match _mode s0 with
                    | NORMAL => _handle_normal height s0 ev
                    | INSERT => _handle_insert s0 ev
                    | COMMAND => _handle_command s0 ev
                    end) as Hro_case.
    { intros s0 Hwf0 Hro0. apply safe_and; [by apply read_only_key_safe|].
      intros s1 H1. apply dot_ok_read_only.
      assert (kept s0 s1) as (? & _); [|congruence].
      destruct (_mode s0).
      - unfold _handle_normal in H1. eapply handle_normal_kept; [|done].
        intros ? ?. apply dot_replay_kept.
      - by eapply handle_insert_kept.
      - by eapply handle_command_kept. }
    destruct (_ && _); apply Hro_case; done.
  - destruct (Hdot Hro) as (Hrep & _). rewrite Hrep. simpl.
    destruct (_dot_recording s) eqn:Hrec.
    + by apply recorded_key_safe.
    + by apply plain_key_safe.
Qed.

Lemma run_keys_safe (s : JsonEditor) (events : list (Z * KeyEvent)) :
  loads_literal_is_str → wf s → dot_ok s →
  safe (λ s', wf s' ∧ dot_ok s') (run_keys s events).
Proof.
  intros Hlaw. revert s. unfold run_keys.
  induction events as [|[h ev] events IH]; intros s Hwf Hdot; simpl; [done|].
  eapply safe_bind; [by apply on_key_safe|]. intros s1 [? ?]. by apply IH.
Qed.

Lemma split_on_nonempty (sep : char) (t : str) : split_on sep t ≠ [].
Proof. destruct t as [|c t]; simpl; [done|]. repeat case_match; done. Qed.

Lemma init_wf (content : str) (ro is_jsonl : bool) :
  wf (init content ro is_jsonl) ∧ dot_ok (init content ro is_jsonl).
Proof.
  split; [|intros _; simpl; split; [done|]; by exists (NORMAL, [])].
  split; [|by split].
  unfold init, cursor_ok. simpl.
  set (ls := if negb _ then split_on NL _ else [[]]).
  assert (ls ≠ []) as Hne.
  { unfold ls. destruct (negb _); [apply split_on_nonempty|done]. }
  destruct ls as [|line ls']; [done|]. rewrite len_cons.
  pose proof (len_nonneg ls'). pose proof (len_nonneg line).
  split; [lia|]. exists line. split; [done|]. split; [lia|].
  intros _ Hl%len_pos_nonempty. lia.
Qed.

End EditorInvariant.

Lemma tiny_loads_literal : @loads_literal_is_str ascii_runtime.
Proof.
  intros raw v. simpl. unfold tiny_loads. simpl.
  repeat case_match; try done; intros [= <-]; eauto.
Qed.

(** C1. After every key event of a session, from any initial content and
    for any flags, the cursor is on the buffer: [0 <= cursor_row < len(lines)],
    [0 <= cursor_col <= len(lines[cursor_row])], and in Normal mode on a line
    that is not empty [cursor_col <= len(line) - 1]. A key event ends
    normally, or in the [ValueError] of [int()] on a line number Python cannot
    read; no other exception can occur. *)
Theorem cursor_invariant {R : Runtime} (content : str) (ro is_jsonl : bool)
    (events : list (Z * KeyEvent)) :
  loads_literal_is_str →
  safe cursor_ok (run_keys (init content ro is_jsonl) events).
Proof.
  intros Hlaw. destruct (init_wf content ro is_jsonl) as [Hwf Hdot].
  eapply safe_mono; [by apply run_keys_safe|]. by intros s' [[? _] _].
Qed.

Lemma cursor_invariant_witness :
  @loads_literal_is_str ascii_runtime
  ∧ safe cursor_ok
      (@run_keys ascii_runtime (@init ascii_runtime (lit "{}") false false)
         [(24, MkKey (lit "o") (Some (lit "o")));
          (24, MkKey (lit "x") (Some (lit "x")));
          (24, MkKey (lit "escape") None);
          (24, MkKey (lit ".") (Some (lit ".")))]).
Proof.
  split; [exact tiny_loads_literal|].
  apply (@cursor_invariant ascii_runtime). exact tiny_loads_literal.
Defined.


(** ** The undo history *)

Section History.
Context {R : Runtime}.

Lemma reachable_history_ok (s : JsonEditor) : reachable s → history_ok s.
Proof.
  induction 1 as [| h s ev s' _ IH Hk | s c _ IH | s v _ IH | s row a b c s' _ IH Hu].
  - unfold history_ok. simpl. change (len (@nil Snapshot)) with 0. lia.
  - apply on_key_kept in Hk as (_ & _ & Hk). auto.
  - done.
  - done.
  - unfold update_embedded_string in Hu. ok_inv Hu.
    pose proof (save_undo_kept s) as (_ & _ & Hs). by apply Hs.
Qed.

Lemma save_undo_pushed (s : JsonEditor) :
  len (undo_stack s) ≤ 200 →
  undo_stack (_save_undo s) = pushed s ∧ redo_stack (_save_undo s) = [].
Proof.
  intros Hlen. split; [|done]. unfold pushed, snapshot. simpl.
  repeat match goal with
         | |- context [if ?a <? ?b then _ else _] => destruct (Z.ltb_spec a b)
         end;
    rewrite ?len_app, ?len_cons in *; unfold len in *; simpl in *; try lia; try done.
  destruct (undo_stack s) as [|e us]; [simpl in *; lia|done].
Qed.

End History.


(** ** Single commands of Normal mode *)

(** The branch [_handle_normal] or [_handle_pending] takes for a key. *)
Ltac dispatch :=
  intros; unfold handle_normal_with, _handle_pending;
  match goal with s : JsonEditor |- _ => destruct s end;
  simpl in *; subst; reflexivity.

Section Commands.
Context {R : Runtime}.

Lemma py_get_nil {A} (i : Z) : py_get (@nil A) i = Raise IndexError.
Proof.
  unfold py_get, norm_index. change (len (@nil A)) with 0.
  destruct (Z.leb_spec 0 i), (Z.ltb_spec i 0), (Z.leb_spec 0 (i + 0)); simpl; (done || lia).
Qed.

Lemma clamp_cursor_Ok (s s' : JsonEditor) : _clamp_cursor s = Ok s' → cursor_ok s'.
Proof.
  intros H. destruct (decide (lines s = [])) as [Hl|Hl].
  - unfold _clamp_cursor, cur_line in H. simpl in H. rewrite Hl, py_get_nil in H. done.
  - destruct (clamp_cursor_ok s Hl) as (s2 & H2 & ? & _). congruence.
Qed.

Lemma on_key_cursor_ok (h : Z) (s s' : JsonEditor) (ev : KeyEvent) :
  on_key h s ev = Ok s' → cursor_ok s'.
Proof. unfold on_key. intros (? & _ & H)%bind_Ok_inv. by eapply clamp_cursor_Ok. Qed.

(** [on_key] in Normal mode: the event is recorded if a recording is on,
    handled, and the cursor clamped. *)
Lemma on_key_normal (h : Z) (s : JsonEditor) (ev : KeyEvent) :
  _mode s = NORMAL →
  ∃ s0, on_key h s ev = (let! s1 := _handle_normal h s0 ev in _clamp_cursor s1)
        ∧ (∃ b, s0 = set_dot_buffer b s).
Proof.
  intros Hm. unfold on_key. destruct (_ && _).
  - eexists. simpl. rewrite Hm. split; [done|]. eauto.
  - exists s. rewrite Hm. split; [done|]. exists (_dot_buffer s). by destruct s.
Qed.

(** A cursor in the first column of a line of the buffer is on the buffer. *)
Lemma cursor_ok_col0 (s : JsonEditor) :
  0 ≤ cursor_row s < len (lines s) → cursor_col s = 0 → cursor_ok s.
Proof.
  intros Hrow Hcol. split; [done|].
  destruct (cur_line_in s Hrow) as (line & _ & Hline). exists line.
  pose proof (len_nonneg line). rewrite Hcol. split; [done|]. split; [lia|].
  intros _ Hne%len_pos_nonempty. lia.
Qed.

Lemma handle_normal_d (replay : JsonEditor → Outcome JsonEditor) (h : Z) (s : JsonEditor) :
  pending s = [] → read_only s = false →
  handle_normal_with replay h s (char_key "d")
  = Ok (set_pending (lit "d") (_dot_start (char_key "d") s)).
Proof. dispatch. Qed.

Lemma handle_pending_dd (s : JsonEditor) :
  pending s = lit "d" → read_only s = false →
  _handle_pending s (lit "d") (lit "d")
  = (let s := _save_undo (set_pending [] s) in
     let! line := cur_line s in
     let s := set_yank_buffer [line] s in
     let! s :=
       if 1 <? len (lines s) then
         let! ls := py_pop (lines s) (cursor_row s) in
         let s := set_lines ls s in
         Ok (if len (lines s) <=? cursor_row s
             then set_cursor_row (len (lines s) - 1) s else s)
       else
         let! ls := py_set (lines s) 0 [] in
         Ok (set_lines ls s) in
     Ok (_dot_stop (set_status_msg (lit "line deleted") (set_cursor_col 0 s)))).
Proof. dispatch. Qed.

(** C4. In a session that is not read-only, [dd] in Normal mode yanks the
    current line and removes it; when it is the only line, the line is
    emptied instead, so the buffer keeps at least one line. *)
Theorem dd_deletes_line (h1 h2 : Z) (s : JsonEditor) :
  cursor_ok s → _mode s = NORMAL → pending s = [] → read_only s = false →
  ∃ line s',
    lines s !! Z.to_nat (cursor_row s) = Some line
    ∧ run_keys s [(h1, char_key "d"); (h2, char_key "d")] = Ok s'
    ∧ yank_buffer s' = [line]
    ∧ lines s' = (if len (lines s) =? 1 then [[]]
                  else delete (Z.to_nat (cursor_row s)) (lines s))
    ∧ 1 ≤ len (lines s')
    ∧ cursor_row s' = Z.min (cursor_row s) (len (lines s') - 1)
    ∧ cursor_col s' = 0.
Proof.
  intros Hok Hm Hp Hro. pose proof Hok as [Hrow (line & Hline & Hcol & Hn)].
  exists line. unfold run_keys. simpl.
  destruct (on_key_normal h1 s (char_key "d") Hm) as (s0 & -> & b & ->).
  unfold _handle_normal. rewrite handle_normal_d by done. simpl.
  rewrite clamp_cursor_id.
  2:{ unfold _dot_start. destruct (_dot_replaying _); by destruct s. }
  simpl.
  match goal with
  | |- context [on_key h2 ?t _] =>
      destruct (on_key_normal h2 t (char_key "d")) as (s1 & -> & b1 & ->)
  end.
  { unfold _dot_start. by destruct (_dot_replaying _). }
  unfold _handle_normal, handle_normal_with.
  replace (pending _) with (lit "d") by (unfold _dot_start; by destruct (_dot_replaying _)).
  simpl. rewrite handle_pending_dd.
  2,3: unfold _dot_start; by destruct (_dot_replaying _).
  unfold _dot_start. destruct s as [ro jl ls row col m cb pd st us rs yb sc db drec drep ob].
  simpl in *. subst.
  pose proof (py_get_lookup _ _ _ (proj1 Hrow) Hline) as Hget.
  destruct drep; simpl; unfold cur_line; simpl; rewrite Hget; simpl.
  all: destruct (Z.ltb_spec 1 (len ls)).
  all: rewrite ?py_pop_in, ?py_set_in by lia; simpl.
  all: rewrite ?len_delete_in by lia.
  all: try destruct (Z.leb_spec (len ls - 1) row).
  all: rewrite clamp_cursor_id
    by (apply cursor_ok_col0; simpl; rewrite ?len_delete_in, ?len_insert by lia; lia).
  all: simpl; eexists; split; [done|]; split; [done|]; simpl.
  all: rewrite ?len_delete_in, ?len_insert by lia.
  all: destruct (Z.eqb_spec (len ls) 1); try lia.
  all: repeat split; try done; try lia.
  all: destruct ls as [|l0 [|l1 ls]]; unfold len in *; simpl in *; done || lia.
Qed.

End Commands.

Lemma dd_deletes_line_witness :
  ∃ s',
    @run_keys ascii_runtime (@init ascii_runtime (lit "only") false false)
        [(24, char_key "d"); (24, char_key "d")] = Ok s'
    ∧ yank_buffer s' = [lit "only"]
    ∧ lines s' = [lit ""]
    ∧ cursor_row s' = 0
    ∧ cursor_col s' = 0.
Proof.
  destruct (@dd_deletes_line ascii_runtime 24 24
              (@init ascii_runtime (lit "only") false false))
    as (line & s' & Hline & Hrun & Hy & Hl & Hlen & Hrow & Hcol).
  - apply init_wf.
  - reflexivity.
  - reflexivity.
  - reflexivity.
  - exists s'. simpl in Hline. injection Hline as <-.
    rewrite Hrow, Hl. simpl. done.
Defined.

(** ** Opening a line: [o] and [O] *)
Section OpenLine.
Context {R : Runtime}.

Lemma len_lstrip_le (t : str) : len (lstrip t) ≤ len t.
Proof.
  induction t as [|c t IH]; simpl; [done|].
  destruct (isspace c); [|done]. rewrite len_cons. lia.
Qed.

Lemma indent_of_range (line : str) : 0 ≤ indent_of line ≤ len line.
Proof.
  unfold indent_of, leading_ws. pose proof (len_lstrip_le line).
  pose proof (len_nonneg (lstrip line)). pose proof (len_nonneg line).
  case_bool_decide; lia.
Qed.

Lemma py_insert_in {A} (l : list A) (i : Z) (x : A) :
  0 ≤ i ≤ len l →
  py_insert l i x = take (Z.to_nat i) l ++ x :: drop (Z.to_nat i) l.
Proof. intros. unfold py_insert. by rewrite slice_bound_in. Qed.

Lemma py_insert_lookup {A} (l : list A) (i : Z) (x : A) :
  0 ≤ i ≤ len l → py_insert l i x !! Z.to_nat i = Some x.
Proof.
  intros. rewrite py_insert_in by done. apply list_lookup_middle.
  rewrite length_take. unfold len in *. lia.
Qed.

Lemma handle_normal_o (replay : JsonEditor → Outcome JsonEditor) (h : Z) (s : JsonEditor) :
  pending s = [] → read_only s = false →
  handle_normal_with replay h s (char_key "o")
  = (let s := _save_undo (_dot_start (char_key "o") s) in
     let! line := cur_line s in
     let indent := indent_of line in
     let extra := if ends_with_open (rstrip line) then lit "    " else [] in
     let s := set_cursor_row (cursor_row s + 1) s in
     let s := set_lines (py_insert (lines s) (cursor_row s) (spaces indent ++ extra)) s in
     let s := set_cursor_col (indent + len extra) s in
     Ok (_enter_insert s)).
Proof. dispatch. Qed.

Lemma handle_normal_O (replay : JsonEditor → Outcome JsonEditor) (h : Z) (s : JsonEditor) :
  pending s = [] → read_only s = false →
  handle_normal_with replay h s (char_key "O")
  = (let s := _save_undo (_dot_start (char_key "O") s) in
     let! line := cur_line s in
     let indent := indent_of line in
     let s := set_lines (py_insert (lines s) (cursor_row s) (spaces indent)) s in
     let s := set_cursor_col indent s in
     Ok (_enter_insert s)).
Proof. dispatch. Qed.

(** A cursor at the end of a line of the buffer is on the buffer when the
    editor is not in Normal mode. *)
Lemma cursor_ok_at_end (s : JsonEditor) (line : str) :
  0 ≤ cursor_row s < len (lines s) →
  lines s !! Z.to_nat (cursor_row s) = Some line →
  cursor_col s = len line → _mode s ≠ NORMAL → cursor_ok s.
Proof.
  intros Hrow Hline Hcol Hm. split; [done|]. exists line.
  pose proof (len_nonneg line). split; [done|]. split; [lia|]. done.
Qed.

(** What [_save_undo] leaves on the undo stack, whatever its length. *)
Lemma push_entry (us : list Snapshot) (e : Snapshot) :
  (if 200 <? len (us ++ [e]) then drop 1 (us ++ [e]) else us ++ [e])
  = (if len us <? 200 then us else drop 1 us) ++ [e].
Proof.
  rewrite len_app. change (len [e]) with 1.
  destruct (Z.ltb_spec 200 (len us + 1)), (Z.ltb_spec (len us) 200); try lia; try done.
  destruct us; [unfold len in *; simpl in *; lia|done].
Qed.

Lemma undo_stack_save_undo (s : JsonEditor) : undo_stack (_save_undo s) = pushed s.
Proof. apply push_entry. Qed.

Ltac pushed_goal := unfold pushed, snapshot; simpl; apply push_entry.

(** What [o] and [O] insert, in the terms of the code: [indent_of] of the
    current line, and for [o] the test [ends_with_open] on the line without
    its trailing white space. *)
Lemma open_line_by_indent (h : Z) (s : JsonEditor) :
  cursor_ok s → _mode s = NORMAL → pending s = [] → read_only s = false →
  ∃ line,
    lines s !! Z.to_nat (cursor_row s) = Some line
    ∧ (∃ s', on_key h s (char_key "o") = Ok s'
         ∧ lines s'
           = take (Z.to_nat (cursor_row s + 1)) (lines s)
             ++ (spaces (indent_of line)
                 ++ (if ends_with_open (rstrip line) then lit "    " else []))
             :: drop (Z.to_nat (cursor_row s + 1)) (lines s)
         ∧ cursor_row s' = cursor_row s + 1
         ∧ cursor_col s'
           = indent_of line + (if ends_with_open (rstrip line) then 4 else 0)
         ∧ _mode s' = INSERT ∧ undo_stack s' = pushed s)
    ∧ (∃ s', on_key h s (char_key "O") = Ok s'
         ∧ lines s'
           = take (Z.to_nat (cursor_row s)) (lines s)
             ++ spaces (indent_of line) :: drop (Z.to_nat (cursor_row s)) (lines s)
         ∧ cursor_row s' = cursor_row s
         ∧ cursor_col s' = indent_of line
         ∧ _mode s' = INSERT ∧ undo_stack s' = pushed s).
Proof.
  intros Hok Hm Hp Hro. pose proof Hok as [Hrow (line & Hline & Hcol & Hn)].
  exists line. split; [done|].
  pose proof (indent_of_range line) as Hind.
  pose proof (py_get_lookup _ _ _ (proj1 Hrow) Hline) as Hget.
  split.
  - destruct (on_key_normal h s (char_key "o") Hm) as (s0 & -> & b & ->).
    unfold _handle_normal. rewrite handle_normal_o by done.
    unfold _dot_start. destruct s as [ro jl ls row col m cb pd st us rs yb sc db drec drep ob].
    simpl in *. subst.
    set (extra := if ends_with_open (rstrip line) then lit "    " else []).
    assert (len extra = if ends_with_open (rstrip line) then 4 else 0) as Hextra
      by (unfold extra; by destruct (ends_with_open _)).
    destruct drep; simpl; unfold cur_line; simpl; rewrite Hget; simpl.
    all: rewrite clamp_cursor_id.
    all: try (eapply cursor_ok_at_end; simpl;
              [rewrite len_py_insert; lia
              |apply py_insert_lookup; lia
              |rewrite len_app, len_spaces; lia
              |done]).
    all: eexists; split; [done|]; simpl.
    all: rewrite py_insert_in by lia.
    all: repeat split; try done; try (fold extra; lia).
    all: pushed_goal.
  - destruct (on_key_normal h s (char_key "O") Hm) as (s0 & -> & b & ->).
    unfold _handle_normal. rewrite handle_normal_O by done.
    unfold _dot_start. destruct s as [ro jl ls row col m cb pd st us rs yb sc db drec drep ob].
    simpl in *. subst.
    destruct drep; simpl; unfold cur_line; simpl; rewrite Hget; simpl.
    all: rewrite clamp_cursor_id.
    all: try (eapply cursor_ok_at_end; simpl;
              [rewrite len_py_insert; lia
              |apply py_insert_lookup; lia
              |rewrite len_spaces; lia
              |done]).
    all: eexists; split; [done|]; simpl.
    all: rewrite py_insert_in by lia.
    all: repeat split; try done; try lia.
    all: pushed_goal.
Qed.

End OpenLine.

(** [O] between a line that ends with an open bracket and the current line
    takes the indentation of the current line and adds nothing. *)
Lemma open_above_ignores_bracket :
  ∃ s1 s2,
    @run_keys ascii_runtime
      (@init ascii_runtime (lit "{" ++ [NL] ++ lit "}") false false)
      [(24, char_key "j")] = Ok s1
    ∧ lines s1 = [lit "{"; lit "}"] ∧ cursor_row s1 = 1
    ∧ @on_key ascii_runtime 24 s1 (char_key "O") = Ok s2
    ∧ lines s2 = [lit "{"; lit ""; lit "}"]
    ∧ cursor_row s2 = 1 ∧ cursor_col s2 = 0 ∧ _mode s2 = INSERT
    ∧ lines s2 !! 0%nat = Some (lit "{") ∧ ends_with_open (lit "{") = true
    ∧ lines s2 !! 1%nat ≠ Some (lit "    ").
Proof.
  eexists. eexists.
  split; [vm_compute; reflexivity|].
  split; [reflexivity|]. split; [reflexivity|].
  split; [vm_compute; reflexivity|].
  repeat split; done.
Qed.

(** ** Commands that find nothing to do *)
Section NoOps.
Context {R : Runtime}.

Lemma handle_normal_p (replay : JsonEditor → Outcome JsonEditor) (h : Z) (s : JsonEditor) :
  pending s = [] →
  handle_normal_with replay h s (char_key "p")
  = if read_only s then Ok (set_status_msg (lit "[readonly]") s)
    else Ok (_paste_after (_dot_stop (_dot_start (char_key "p") s))).
Proof. dispatch. Qed.

Lemma handle_normal_P (replay : JsonEditor → Outcome JsonEditor) (h : Z) (s : JsonEditor) :
  pending s = [] →
  handle_normal_with replay h s (char_key "P")
  = if read_only s then Ok (set_status_msg (lit "[readonly]") s)
    else Ok (_paste_before (_dot_stop (_dot_start (char_key "P") s))).
Proof. dispatch. Qed.

Lemma handle_normal_u (replay : JsonEditor → Outcome JsonEditor) (h : Z) (s : JsonEditor) :
  pending s = [] →
  handle_normal_with replay h s (char_key "u")
  = if read_only s then Ok (set_status_msg (lit "[readonly]") s) else Ok (_undo s).
Proof. dispatch. Qed.

Lemma handle_normal_J (replay : JsonEditor → Outcome JsonEditor) (h : Z) (s : JsonEditor) :
  pending s = [] →
  handle_normal_with replay h s (char_key "J")
  = if read_only s then Ok (set_status_msg (lit "[readonly]") s)
    else _join_lines (_dot_stop (_dot_start (char_key "J") s)).
Proof. dispatch. Qed.

(** C9. In Normal mode, [p] and [P] with an empty yank buffer and [J] on the
    last line of the buffer end normally and change neither the buffer nor
    the cursor nor the status message; [u] with an empty undo stack ends
    normally, changes neither the buffer nor the cursor and sets the status
    message [nothing to undo]. In a read-only session the four keys set the
    status message [[readonly]] instead. *)
Theorem edge_cases_are_no_ops (h : Z) (s : JsonEditor) (c : string) :
  cursor_ok s → _mode s = NORMAL → pending s = [] →
  (c = "p"%string ∧ yank_buffer s = [])
  ∨ (c = "P"%string ∧ yank_buffer s = [])
  ∨ (c = "J"%string ∧ cursor_row s = len (lines s) - 1)
  ∨ (c = "u"%string ∧ undo_stack s = []) →
  ∃ s', on_key h s (char_key c) = Ok s'
        ∧ lines s' = lines s
        ∧ cursor_row s' = cursor_row s ∧ cursor_col s' = cursor_col s
        ∧ _mode s' = NORMAL
        ∧ undo_stack s' = undo_stack s ∧ redo_stack s' = redo_stack s
        ∧ status_msg s'
          = (if read_only s then lit "[readonly]"
             else if String.eqb c "u" then lit "nothing to undo"
             else status_msg s).
Proof.
  intros Hok Hm Hp Hcase.
  destruct (on_key_normal h s (char_key c) Hm) as (s0 & -> & b & ->).
  unfold _handle_normal.
  destruct Hcase as [[-> Hy]|[[-> Hy]|[[-> Hlast]|[-> Hu]]]].
  - rewrite handle_normal_p by by destruct s.
    destruct s as [ro jl ls row col m cb pd st us rs yb sc db drec drep ob].
    simpl in *. subst. unfold _paste_after, _dot_start.
    destruct ro, drep; simpl; rewrite clamp_cursor_id by exact Hok; eexists; done.
  - rewrite handle_normal_P by by destruct s.
    destruct s as [ro jl ls row col m cb pd st us rs yb sc db drec drep ob].
    simpl in *. subst. unfold _paste_before, _dot_start.
    destruct ro, drep; simpl; rewrite clamp_cursor_id by exact Hok; eexists; done.
  - rewrite handle_normal_J by by destruct s.
    destruct s as [ro jl ls row col m cb pd st us rs yb sc db drec drep ob].
    simpl in *. subst. unfold _join_lines, _dot_start.
    destruct ro, drep; simpl; rewrite ?Z.leb_refl; simpl;
      rewrite clamp_cursor_id by exact Hok; eexists; done.
  - rewrite handle_normal_u by by destruct s.
    destruct s as [ro jl ls row col m cb pd st us rs yb sc db drec drep ob].
    simpl in *. subst. unfold _undo.
    destruct ro; simpl; rewrite clamp_cursor_id by exact Hok; eexists; done.
Qed.

End NoOps.

Lemma edge_cases_are_no_ops_witness :
  ∃ s', @on_key ascii_runtime 24 (@init ascii_runtime (lit "a") false false) (char_key "u")
        = Ok s'
        ∧ lines s' = [lit "a"] ∧ cursor_row s' = 0 ∧ cursor_col s' = 0
        ∧ status_msg s' = lit "nothing to undo".
Proof.
  destruct (@edge_cases_are_no_ops ascii_runtime 24
              (@init ascii_runtime (lit "a") false false) "u")
    as (s' & Hrun & Hl & Hrow & Hcol & _ & _ & _ & Hst).
  - apply init_wf.
  - reflexivity.
  - reflexivity.
  - right. right. right. split; reflexivity.
  - exists s'. split; [exact Hrun|]. rewrite Hl, Hrow, Hcol, Hst. done.
Defined.

(** Pasting with an empty yank buffer and joining on the last line say
    nothing: the status message stays empty. *)
Lemma silent_edge_cases :
  let s := @init ascii_runtime (lit "a") false false in
  yank_buffer s = [] ∧ cursor_row s = len (lines s) - 1 ∧ status_msg s = []
  ∧ (∃ s', @on_key ascii_runtime 24 s (char_key "p") = Ok s' ∧ status_msg s' = [])
  ∧ (∃ s', @on_key ascii_runtime 24 s (char_key "P") = Ok s' ∧ status_msg s' = [])
  ∧ (∃ s', @on_key ascii_runtime 24 s (char_key "J") = Ok s' ∧ status_msg s' = []).
Proof.
  repeat split; try done; eexists; (split; [vm_compute; reflexivity|done]).
Qed.


(** ** Undo and redo of one edit *)
Section UndoRedo.
Context {R : Runtime}.

Lemma scan_fwd_Ok (fuel : nat) (p : char → bool) (line : str) (col : Z) :
  0 ≤ col → ∃ c, scan_fwd fuel p line col = Ok c ∧ col ≤ c.
Proof.
  revert col. induction fuel as [|fuel IH]; intros col Hc; simpl; [by exists col|].
  destruct (Z.ltb_spec col (len line)); simpl; [|by exists col].
  destruct (py_get_in line col) as (c & -> & _); [lia|]. simpl.
  destruct (p c); simpl; [|by exists col].
  destruct (IH (col + 1)) as (c' & -> & ?); [lia|]. exists c'. split; [done|lia].
Qed.

Lemma delete_word_Ok (s : JsonEditor) :
  cursor_ok s →
  ∃ ls, _delete_word s = Ok (set_lines ls s) ∧ len ls = len (lines s).
Proof.
  intros [Hrow (line & Hline & Hcol & _)]. unfold _delete_word.
  unfold cur_line. rewrite (py_get_lookup _ _ _ (proj1 Hrow) Hline). simpl.
  destruct (scan_fwd_Ok (Z.to_nat (len line - cursor_col s)) is_word line (cursor_col s))
    as (c1 & H1 & ?); [lia|].
  unfold skip_fwd. rewrite H1. simpl.
  destruct (scan_fwd_Ok (Z.to_nat (len line - c1)) (λ c, (c =? ch " ")%N) line c1)
    as (c2 & H2 & ?); [lia|].
  rewrite H2. simpl. rewrite py_set_in by lia. simpl.
  eexists. split; [done|]. by rewrite len_insert.
Qed.

(** An edit leaves a buffer that [_clamp_cursor] accepts; clamping keeps the
    undo entry. *)
Lemma settle (us : list Snapshot) (t : JsonEditor) :
  lines t ≠ [] → _mode t = NORMAL → pending t = [] → read_only t = false →
  undo_stack t = us → redo_stack t = [] →
  ∃ s1, _clamp_cursor t = Ok s1 ∧ ready s1 ∧ undo_stack s1 = us ∧ redo_stack s1 = [].
Proof.
  intros Hl Hm Hp Hro Hu Hr.
  destruct (clamp_cursor_ok t Hl) as (s1 & H1 & Hok & _ & Hm1 & Hmv).
  exists s1. split; [done|]. rewrite Hmv in *. destruct t. simpl in *. subst. done.
Qed.

Lemma handle_normal_x (replay : JsonEditor → Outcome JsonEditor) (h : Z) (s : JsonEditor) :
  pending s = [] → read_only s = false →
  handle_normal_with replay h s (char_key "x")
  = (let s := _save_undo (_dot_stop (_dot_start (char_key "x") s)) in
     let! line := cur_line s in
     if negb (bool_decide (line = [])) && (cursor_col s <? len line) then
       let! ls := py_set (lines s) (cursor_row s)
                    (slice_to line (cursor_col s) ++ slice_from line (cursor_col s + 1)) in
       Ok (set_lines ls s)
     else Ok s).
Proof. dispatch. Qed.

Ltac open_state s :=
  unfold _dot_start;
  destruct s as [ro jl ls row col m cb pd st us rs yb sc db drec drep ob];
  simpl in *; subst.

Ltac entry_goal := unfold pushed, snapshot; simpl; apply push_entry.

Ltac learn_len l :=
  lazymatch goal with
  | H : 0 ≤ len l |- _ => fail
  | _ => pose proof (len_nonneg l)
  end.

Ltac lines_goal :=
  apply nonempty_len; simpl;
  rewrite ?len_insert, ?len_insert_lines;
  try rewrite len_delete_in by (rewrite ?len_insert; lia);
  rewrite ?len_insert;
  repeat match goal with |- context [len ?l] => learn_len l end;
  try lia.

Ltac settle_goal :=
  lazymatch goal with
  | |- ∃ s1, (let! s := _clamp_cursor ?t in Ok s) = Ok s1 ∧ ready s1
             ∧ undo_stack s1 = ?us ∧ _ =>
      let s1 := fresh "s1" in
      destruct (settle us t) as (s1 & -> & ? & ? & ?);
      [lines_goal|done|done|done|entry_goal|done|exists s1; done]
  end.

Lemma single_key_pushes (h : Z) (e : Edit) (s : JsonEditor) :
  ready s → applies e s →
  match e with EDelChar | EPasteAfter | EPasteBefore | EJoin => True | _ => False end →
  ∃ s1, run_keys s (map (pair h) (keys_of e)) = Ok s1 ∧ ready s1
        ∧ undo_stack s1 = pushed s ∧ redo_stack s1 = [].
Proof.
  intros (Hok & Hm & Hp & Hro) Ha He.
  pose proof Hok as [Hrow (line & Hline & Hcol & Hn)].
  pose proof (py_get_lookup _ _ _ (proj1 Hrow) Hline) as Hget.
  assert (lines s ≠ []) as Hne by (apply nonempty_len; lia).
  destruct e; try done; unfold run_keys; simpl.
  - destruct (on_key_normal h s (char_key "x") Hm) as (s0 & -> & b & ->).
    unfold _handle_normal. rewrite handle_normal_x by by destruct s.
    open_state s. unfold cur_line.
    destruct drep; simpl; rewrite Hget; simpl.
    all: destruct (_ && _); simpl; rewrite ?py_set_in by lia; simpl.
    all: settle_goal.
  - destruct (on_key_normal h s (char_key "p") Hm) as (s0 & -> & b & ->).
    unfold _handle_normal. rewrite handle_normal_p by by destruct s.
    open_state s. unfold _paste_after.
    destruct drep; simpl; rewrite bool_decide_eq_false_2 by done; simpl.
    all: settle_goal.
  - destruct (on_key_normal h s (char_key "P") Hm) as (s0 & -> & b & ->).
    unfold _handle_normal. rewrite handle_normal_P by by destruct s.
    open_state s. unfold _paste_before.
    destruct drep; simpl; rewrite bool_decide_eq_false_2 by done; simpl.
    all: settle_goal.
  - destruct (on_key_normal h s (char_key "J") Hm) as (s0 & -> & b & ->).
    unfold _handle_normal. rewrite handle_normal_J by by destruct s.
    open_state s. unfold _join_lines, cur_line.
    destruct (py_get_in ls (row + 1)) as (nxt & Hnxt & _); [lia|].
    destruct drep; simpl; (destruct (Z.leb_spec (len ls - 1) row); [lia|]); simpl.
    all: rewrite Hget; simpl; rewrite Hnxt; simpl.
    all: rewrite py_set_in by lia; simpl.
    all: rewrite py_pop_in by (rewrite len_insert; lia); simpl.
    all: settle_goal.
Qed.

(** The first key of a pending command. *)
Lemma prefix_key (h : Z) (s : JsonEditor) (c : string) :
  ready s → c = "d"%string ∨ c = "r"%string →
  ∃ b r, on_key h s (char_key c)
         = Ok (set_pending (lit c) (set_dot_recording r (set_dot_buffer b s))).
Proof.
  intros (Hok & Hm & Hp & Hro) Hc.
  destruct (on_key_normal h s (char_key c) Hm) as (s0 & -> & b & ->).
  unfold _handle_normal.
  assert (handle_normal_with (_dot_replay recursion_limit h) h
            (set_dot_buffer b s) (char_key c)
          = Ok (set_pending (lit c) (_dot_start (char_key c) (set_dot_buffer b s)))) as ->.
  { destruct Hc as [-> | ->]; dispatch. }
  simpl. rewrite clamp_cursor_id.
  2:{ unfold _dot_start. destruct (_dot_replaying _); by destruct s. }
  unfold _dot_start.
  destruct s as [ro jl ls row col m cb pd st us rs yb sc db drec drep ob].
  simpl. destruct drep; simpl; [by exists b, drec|eauto].
Qed.

(** The second key of a pending command. *)
Lemma pending_key (h : Z) (s : JsonEditor) (ev : KeyEvent) :
  _mode s = NORMAL → pending s ≠ [] →
  ∃ b, on_key h s ev
       = (let! s1 := _handle_pending (set_dot_buffer b s)
                       (default [] (character ev)) (key ev) in
          _clamp_cursor s1).
Proof.
  intros Hm Hp. destruct (on_key_normal h s ev Hm) as (s0 & -> & b & ->).
  exists b. unfold _handle_normal, handle_normal_with. simpl.
  by rewrite bool_decide_eq_false_2.
Qed.

Lemma handle_pending_dw (s : JsonEditor) :
  pending s = lit "d" → read_only s = false →
  _handle_pending s (lit "w") (lit "w")
  = (let! s := _delete_word (_save_undo (set_pending [] s)) in Ok (_dot_stop s)).
Proof. dispatch. Qed.

Lemma handle_pending_d_end (s : JsonEditor) :
  pending s = lit "d" → read_only s = false →
  _handle_pending s (lit "$") (lit "$")
  = (let s := _save_undo (set_pending [] s) in
     let! line := cur_line s in
     let! ls := py_set (lines s) (cursor_row s) (slice_to line (cursor_col s)) in
     Ok (_dot_stop (set_lines ls s))).
Proof. dispatch. Qed.

Lemma handle_pending_d_start (s : JsonEditor) :
  pending s = lit "d" → read_only s = false →
  _handle_pending s (lit "0") (lit "0")
  = (let s := _save_undo (set_pending [] s) in
     let! line := cur_line s in
     let! ls := py_set (lines s) (cursor_row s) (slice_from line (cursor_col s)) in
     Ok (_dot_stop (set_cursor_col 0 (set_lines ls s)))).
Proof. dispatch. Qed.

Lemma handle_pending_replace (s : JsonEditor) (c : char) :
  pending s = lit "r" → read_only s = false →
  _handle_pending s [c] [c]
  = (let s := _save_undo (set_pending [] s) in
     let! line := cur_line s in
     let! s :=
       if cursor_col s <? len line then
         let! ls := py_set (lines s) (cursor_row s)
                      (slice_to line (cursor_col s) ++ [c]
                       ++ slice_from line (cursor_col s + 1)) in
         Ok (set_lines ls s)
       else Ok s in
     Ok (_dot_stop s)).
Proof.
  intros Hp Hro. unfold _handle_pending. rewrite Hp.
  assert (([c] == "escape") = false) as ->.
  { unfold is_lit. simpl. apply andb_false_r. }
  destruct s. simpl in *. subst. reflexivity.
Qed.

Lemma two_key_pushes (h : Z) (e : Edit) (s : JsonEditor) :
  ready s →
  match e with EDelChar | EPasteAfter | EPasteBefore | EJoin => False | _ => True end →
  ∃ s1, run_keys s (map (pair h) (keys_of e)) = Ok s1 ∧ ready s1
        ∧ undo_stack s1 = pushed s ∧ redo_stack s1 = [].
Proof.
  intros Hready He. pose proof Hready as (Hok & Hm & Hp & Hro).
  pose proof Hok as [Hrow (line & Hline & Hcol & Hn)].
  pose proof (py_get_lookup _ _ _ (proj1 Hrow) Hline) as Hget.
  destruct e; try done; unfold run_keys; simpl.
  all: match goal with
       | |- context [on_key ?h0 ?s0 (char_key ?c)] =>
           destruct (prefix_key h0 s0 c) as (b & r & ->); [done|auto|]
       end; simpl.
  all: match goal with
       | |- context [on_key ?h0 ?t ?k2] =>
           destruct (pending_key h0 t k2) as (b1 & ->); [by destruct s|by destruct s|]
       end; simpl.
  - rewrite handle_pending_dd; [|by destruct s..].
    open_state s. unfold cur_line. simpl. rewrite Hget. simpl.
    destruct (Z.ltb_spec 1 (len ls)); simpl.
    all: rewrite ?py_pop_in, ?py_set_in by lia; simpl.
    all: rewrite ?len_delete_in by lia.
    all: try destruct (Z.leb_spec (len ls - 1) row); simpl.
    all: settle_goal.
  - rewrite handle_pending_dw; [|by destruct s..].
    match goal with
    | |- context [_delete_word ?t] =>
        destruct (delete_word_Ok t) as (ls' & -> & Hlen); [by destruct s|]
    end.
    open_state s. settle_goal.
  - rewrite handle_pending_d_end; [|by destruct s..].
    open_state s. unfold cur_line. simpl. rewrite Hget. simpl.
    rewrite py_set_in by lia. simpl. settle_goal.
  - rewrite handle_pending_d_start; [|by destruct s..].
    open_state s. unfold cur_line. simpl. rewrite Hget. simpl.
    rewrite py_set_in by lia. simpl. settle_goal.
  - rewrite handle_pending_replace; [|by destruct s..].
    open_state s. unfold cur_line. simpl. rewrite Hget. simpl.
    destruct (Z.ltb_spec col (len line)); simpl.
    all: rewrite ?py_set_in by lia; simpl.
    all: settle_goal.
Qed.

(** Every edit pushes one undo entry, the state it was applied in. *)
Lemma edit_pushes (h : Z) (e : Edit) (s : JsonEditor) :
  ready s → applies e s →
  ∃ s1, run_keys s (map (pair h) (keys_of e)) = Ok s1 ∧ ready s1
        ∧ undo_stack s1 = pushed s ∧ redo_stack s1 = [].
Proof.
  intros Hready Ha.
  destruct e; first [by apply single_key_pushes | by apply two_key_pushes].
Qed.

Lemma drop_last_snoc {A} (l : list A) (x : A) : drop_last (l ++ [x]) = l.
Proof.
  unfold drop_last. rewrite length_app. simpl.
  replace (length l + 1 - 1)%nat with (length l) by lia. by rewrite take_app_length.
Qed.

Lemma cursor_ok_restored (s t : JsonEditor) :
  cursor_ok s → _mode t = _mode s →
  cursor_ok (set_cursor_col (cursor_col s) (set_cursor_row (cursor_row s)
               (set_lines (lines s) t))).
Proof. destruct s, t. simpl. intros Hok ->. exact Hok. Qed.

Lemma handle_normal_redo (replay : JsonEditor → Outcome JsonEditor) (h : Z) (s : JsonEditor) :
  pending s = [] →
  handle_normal_with replay h s (named_key "ctrl+r")
  = if read_only s then Ok (set_status_msg (lit "[readonly]") s) else Ok (_redo s).
Proof. dispatch. Qed.

(** [u] takes the last undo entry as buffer and cursor, and leaves the state
    it was pressed in on the redo stack. *)
Lemma undo_restores (h : Z) (s0 s1 : JsonEditor) (us : list Snapshot) :
  ready s0 → ready s1 → undo_stack s1 = us ++ [snapshot s0] →
  ∃ s2, on_key h s1 (char_key "u") = Ok s2 ∧ ready s2
        ∧ snapshot s2 = snapshot s0
        ∧ undo_stack s2 = us
        ∧ redo_stack s2 = redo_stack s1 ++ [snapshot s1].
Proof.
  intros (Hok0 & Hm0 & _) (Hok & Hm & Hp & Hro) Hu.
  destruct (on_key_normal h s1 (char_key "u") Hm) as (t & -> & b & ->).
  unfold _handle_normal. rewrite handle_normal_u by by destruct s1.
  pose proof (cursor_ok_restored s0 s1 Hok0 ltac:(congruence)) as Hres.
  destruct s1 as [ro jl ls row col m cb pd st us1 rs yb sc db drec drep ob].
  simpl in *. subst. unfold _undo. simpl.
  rewrite last_snoc, drop_last_snoc. unfold snapshot at 1. simpl.
  rewrite clamp_cursor_id by exact Hres.
  eexists. split; [done|]. split; [|done]. split; [exact Hres|done].
Qed.

(** [ctrl+r] takes the last redo entry as buffer and cursor. *)
Lemma redo_restores (h : Z) (s1 s2 : JsonEditor) (rs : list Snapshot) :
  ready s1 → ready s2 → redo_stack s2 = rs ++ [snapshot s1] →
  ∃ s3, on_key h s2 (named_key "ctrl+r") = Ok s3 ∧ ready s3
        ∧ snapshot s3 = snapshot s1.
Proof.
  intros (Hok1 & Hm1 & _) (Hok & Hm & Hp & Hro) Hr.
  destruct (on_key_normal h s2 (named_key "ctrl+r") Hm) as (t & -> & b & ->).
  unfold _handle_normal. rewrite handle_normal_redo by by destruct s2.
  pose proof (cursor_ok_restored s1 s2 Hok1 ltac:(congruence)) as Hres.
  destruct s2 as [ro jl ls row col m cb pd st us rs2 yb sc db drec drep ob].
  simpl in *. subst. unfold _redo. simpl.
  rewrite last_snoc, drop_last_snoc. unfold snapshot at 1. simpl.
  rewrite clamp_cursor_id by exact Hres.
  eexists. split; [done|]. split; [|done]. split; [exact Hres|done].
Qed.

(** C2. For each edit of Normal mode that ends in Normal mode and pushes one
    undo entry ([x], [p] and [P] with something to paste, [J] above the last
    line, [dd], [dw], [d$], [d0] and [r{c}]), applied in a session that is not
    read-only: [u] after the edit restores the buffer and the cursor of the
    state the edit was applied in, and [ctrl+r] after that [u] restores the
    buffer and the cursor the edit left. *)
Theorem undo_redo_inverse (h : Z) (e : Edit) (s : JsonEditor) :
  ready s → applies e s →
  ∃ s1 s2 s3,
    run_keys s (map (pair h) (keys_of e)) = Ok s1
    ∧ on_key h s1 (char_key "u") = Ok s2
    ∧ snapshot s2 = snapshot s
    ∧ on_key h s2 (named_key "ctrl+r") = Ok s3
    ∧ snapshot s3 = snapshot s1.
Proof.
  intros Hready Ha.
  destruct (edit_pushes h e s Hready Ha) as (s1 & Hrun & Hready1 & Hu & _).
  destruct (undo_restores h s s1 _ Hready Hready1 Hu) as (s2 & Hrun2 & Hready2 & Hs2 & _ & Hr).
  destruct (redo_restores h s1 s2 _ Hready1 Hready2 Hr) as (s3 & Hrun3 & _ & Hs3).
  by exists s1, s2, s3.
Qed.

End UndoRedo.

Lemma undo_redo_inverse_witness :
  ∃ s1 s2 s3,
    @run_keys ascii_runtime (@init ascii_runtime (lit "ab") false false)
      (map (pair 24) (keys_of EDelLine)) = Ok s1
    ∧ @on_key ascii_runtime 24 s1 (char_key "u") = Ok s2
    ∧ snapshot s2 = snapshot (@init ascii_runtime (lit "ab") false false)
    ∧ @on_key ascii_runtime 24 s2 (named_key "ctrl+r") = Ok s3
    ∧ snapshot s3 = snapshot s1.
Proof.
  apply (@undo_redo_inverse ascii_runtime 24 EDelLine
           (@init ascii_runtime (lit "ab") false false)).
  - split; [apply init_wf|done].
  - exact I.
Defined.

(** [.] is one key of Normal mode, but what it replays may push many undo
    entries: after [i a b escape] the buffer is [ab]; [.] makes it [aabb],
    and [u] takes back the last replayed character only. A key that enters
    Insert mode, such as [o], leaves a mode in which [u] is typed as text. *)
Lemma dot_replay_undone_in_steps :
  ∃ s s1 s2,
    @run_keys ascii_runtime (@init ascii_runtime [] false false)
      (map (pair 24) [char_key "i"; char_key "a"; char_key "b"; named_key "escape"])
    = Ok s
    ∧ snapshot s = ([lit "ab"], 0, 1)
    ∧ _mode s = NORMAL ∧ pending s = [] ∧ read_only s = false
    ∧ @on_key ascii_runtime 24 s (char_key ".") = Ok s1
    ∧ snapshot s1 = ([lit "aabb"], 0, 2) ∧ _mode s1 = NORMAL
    ∧ @on_key ascii_runtime 24 s1 (char_key "u") = Ok s2
    ∧ snapshot s2 = ([lit "aab"], 0, 2)
    ∧ snapshot s2 ≠ snapshot s
    ∧ ∃ t,
        @run_keys ascii_runtime (@init ascii_runtime (lit "a") false false)
          (map (pair 24) [char_key "o"; char_key "u"]) = Ok t
        ∧ lines t = [lit "a"; lit "u"] ∧ _mode t = INSERT.
Proof.
  eexists. eexists. eexists.
  split; [vm_compute; reflexivity|].
  split; [reflexivity|]. split; [reflexivity|]. split; [reflexivity|].
  split; [reflexivity|].
  split; [vm_compute; reflexivity|].
  split; [reflexivity|]. split; [reflexivity|].
  split; [vm_compute; reflexivity|].
  split; [reflexivity|]. split; [done|].
  eexists. split; [vm_compute; reflexivity|]. done.
Qed.

(** ** Reformatting the buffer: [:fmt] *)
Section Format.
Context {R : Runtime}.

Lemma format_blocks_fail (i : Z) (blocks acc : list str) :
  (∃ d, d ∈ blocks ∧ ∃ e, json_loads d = inr e) →
  ∃ j msg, format_blocks_loop i blocks acc = inr (j, msg).
Proof.
  revert i acc. induction blocks as [|block rest IH]; intros i acc (d & Hd & e & He).
  - by apply elem_of_nil in Hd.
  - simpl. destruct (json_loads block) as [v|[msg lineno]] eqn:Hb; [|eauto].
    apply elem_of_cons in Hd as [-> | Hd]; [congruence|]. apply IH. eauto.
Qed.

Lemma format_blocks_all (i : Z) (blocks acc : list str) (vs : list JSON) :
  Forall2 (λ d v, json_loads d = inl v) blocks vs →
  format_blocks_loop i blocks acc
  = inl (acc ++ map (json_dumps (Some 4) false) vs).
Proof.
  intros H. revert i acc. induction H as [|d v blocks vs Hd _ IH]; intros i acc; simpl.
  - by rewrite app_nil_r.
  - rewrite Hd, IH, <- app_assoc. done.
Qed.

(** [_format_json], which [:fmt] and [:format] run in a session that is
    not read-only, reads the buffer as one JSON document, or as the records
    of a JSONL buffer. When a document does not parse, buffer, cursor, undo
    and redo stacks stay as they are and the status message reports
    [cannot format: ...]. When every document parses, an undo entry for the
    state before is pushed, the buffer becomes the lines of the
    serializations with [indent=4] (joined by an empty line for JSONL), the
    cursor goes to the first column of the first line and the status message
    is [formatted]. *)
Theorem format_replaces_or_reports (s : JsonEditor) (vs : list JSON) :
  let docs := if jsonl s then _split_jsonl_blocks (get_content s)
              else [get_content s] in
  let s' := _format_json s in
  ((∃ d, d ∈ docs ∧ ∃ e, json_loads d = inr e) →
   lines s' = lines s ∧ cursor_row s' = cursor_row s ∧ cursor_col s' = cursor_col s
   ∧ undo_stack s' = undo_stack s ∧ redo_stack s' = redo_stack s
   ∧ ∃ msg, status_msg s' = lit "cannot format: " ++ msg)
  ∧ (Forall2 (λ d v, json_loads d = inl v) docs vs →
     lines s' = split_on NL (join [NL; NL] (map (json_dumps (Some 4) false) vs))
     ∧ cursor_row s' = 0 ∧ cursor_col s' = 0
     ∧ undo_stack s' = pushed s ∧ redo_stack s' = []
     ∧ status_msg s' = lit "formatted").
Proof.
  intros docs s'. subst docs s'. unfold _format_json, _format_jsonl.
  destruct (jsonl s); split.
  - intros Hbad. destruct (format_blocks_fail 0 _ [] Hbad) as (j & msg & ->).
    repeat split; try done.
    exists (lit "record " ++ str_of_Z (j + 1) ++ lit ": " ++ msg).
    by destruct s.
  - intros Hall. rewrite (format_blocks_all 0 _ [] vs Hall). simpl.
    repeat split; try done. apply push_entry.
  - intros (d & Hd & e & He). apply list_elem_of_singleton in Hd as ->.
    rewrite He. destruct e as [msg lineno]. repeat split; try done.
    eexists. by destruct s.
  - intros Hall. apply Forall2_cons_inv_l in Hall as (v & vs' & Hv & Hnil & ->).
    apply Forall2_nil_inv_l in Hnil as ->. rewrite Hv. simpl.
    repeat split; try done. apply push_entry.
Qed.

End Format.

Lemma format_replaces_or_reports_witness :
  (let s := @init ascii_runtime (lit "x") false false in
   let s' := @_format_json ascii_runtime s in
   lines s' = lines s ∧ cursor_row s' = cursor_row s ∧ cursor_col s' = cursor_col s
   ∧ undo_stack s' = undo_stack s ∧ redo_stack s' = redo_stack s
   ∧ ∃ msg, status_msg s' = lit "cannot format: " ++ msg)
  ∧ (let s := @init ascii_runtime (lit "{}") false false in
     let s' := @_format_json ascii_runtime s in
     lines s' = [lit "{}"] ∧ cursor_row s' = 0 ∧ cursor_col s' = 0
     ∧ undo_stack s' = pushed s ∧ redo_stack s' = []
     ∧ status_msg s' = lit "formatted").
Proof.
  split.
  - apply (@format_replaces_or_reports ascii_runtime
             (@init ascii_runtime (lit "x") false false) []).
    exists (lit "x"). split; [by left|]. eexists. reflexivity.
  - apply (@format_replaces_or_reports ascii_runtime
             (@init ascii_runtime (lit "{}") false false) [JDict []]).
    repeat constructor.
Defined.

(** The command as it is typed. *)
Example fmt_command :
  ∃ s', @run_keys ascii_runtime (@init ascii_runtime (lit "[]") false false)
          (map (pair 24) [char_key ":"; char_key "f"; char_key "m"; char_key "t";
                          named_key "enter"]) = Ok s'
        ∧ lines s' = [lit "[]"] ∧ _mode s' = NORMAL
        ∧ undo_stack s' = [([lit "[]"], 0, 0)]
        ∧ status_msg s' = lit "formatted".
Proof. eexists. split; [vm_compute; reflexivity|]. done. Qed.


(** ** The diff engine *)

Lemma for_each_total {A S} (P : S → Prop) (step : S → A → Outcome S)
    (xs : list A) (s : S) :
  P s → (∀ s x, x ∈ xs → P s → ∃ s', step s x = Ok s' ∧ P s') →
  ∃ s', for_each step xs s = Ok s' ∧ P s'.
Proof.
  revert s. induction xs as [|x xs IH]; intros s Hs Hstep; simpl; [eauto|].
  destruct (Hstep s x) as (s1 & -> & H1); [by left|done|]. simpl.
  apply IH; [done|]. intros s2 y Hy. apply Hstep. by right.
Qed.

Lemma bind_total {A B} (P : A → Prop) (Q : B → Prop) (m : Outcome A)
    (k : A → Outcome B) :
  (∃ a, m = Ok a ∧ P a) → (∀ a, P a → ∃ b, k a = Ok b ∧ Q b) →
  ∃ b, (let! a := m in k a) = Ok b ∧ Q b.
Proof. intros (a & -> & Ha) Hk. simpl. by apply Hk. Qed.

Lemma elem_of_seqZ_range (m n k : Z) : k ∈ seqZ m n → m ≤ k < m + n.
Proof. intros H%elem_of_seqZ. done. Qed.

Lemma aligned_empty : aligned empty_result.
Proof. done. Qed.

Lemma aligned_append_pair (r : DiffResult) (l x : str) (t : DiffTag.t) :
  aligned r → aligned (append_pair r l x t).
Proof.
  intros (H1 & H2 & H3 & H4). unfold aligned, append_pair. simpl.
  rewrite H4, !len_app. unfold len in *. simpl. rewrite H4 in *. repeat split; lia.
Qed.

Lemma aligned_add_hunk (h : DiffHunk) (r : DiffResult) : aligned r → aligned (add_hunk h r).
Proof. done. Qed.

Lemma aligned_foldl {A} (f : DiffResult → A → DiffResult) (xs : list A) (r : DiffResult) :
  (∀ r x, aligned r → aligned (f r x)) → aligned r → aligned (foldl f r xs).
Proof.
  intros Hf. revert r. induction xs as [|x xs IH]; intros r Hr; simpl; [done|].
  apply IH, Hf, Hr.
Qed.

Lemma aligned_append_hunk (r : DiffResult) (l x : list str) (t : DiffTag.t) :
  aligned r → aligned (append_hunk r l x t).
Proof.
  intros Hr. unfold append_hunk.
  assert (aligned (foldl (λ r k, append_pair r (get_or_empty l k) (get_or_empty x k) t)
                     r (seqZ 0 (Z.max (len l) (len x))))) as H.
  { apply aligned_foldl; [|done]. intros. by apply aligned_append_pair. }
  destruct (_ =? 0); [done|]. by apply aligned_add_hunk.
Qed.

(** [append_equal] reads [right[i]] for every index of [left]. *)
Lemma append_equal_total (r : DiffResult) (l x : list str) :
  aligned r → len l ≤ len x →
  ∃ r', append_equal r l x = Ok r' ∧ aligned r'.
Proof.
  intros Hr Hlen. unfold append_equal. apply for_each_total; [done|].
  intros r0 k Hk%elem_of_seqZ_range Hr0.
  destruct (py_get_in l k) as (a & -> & _); [lia|].
  destruct (py_get_in x k) as (b & -> & _); [lia|]. simpl.
  eexists. split; [done|]. by apply aligned_append_pair.
Qed.

(** *** Lines and line breaks *)

Lemma split_on_newline_free (t : str) : Forall newline_free (split_on NL t).
Proof.
  induction t as [|c t IH]; simpl.
  - constructor; [|done]. unfold newline_free. apply not_elem_of_nil.
  - destruct (N.eqb_spec c NL) as [->|Hc].
    + constructor; [|done]. unfold newline_free. apply not_elem_of_nil.
    + destruct (split_on NL t) as [|w ws]; simpl.
      * constructor; [|done]. unfold newline_free. rewrite list_elem_of_singleton. done.
      * apply list.Forall_cons in IH as [Hw Hws]. constructor; [|done].
        unfold newline_free in *. rewrite elem_of_cons. intros [?|?]; done.
Qed.

Lemma breaks_app (t u : str) : breaks (t ++ u) = (breaks t + breaks u)%nat.
Proof. induction t as [|c t IH]; simpl; [done|]. rewrite IH. lia. Qed.

Lemma breaks_newline_free (t : str) : newline_free t → breaks t = 0%nat.
Proof.
  unfold newline_free. induction t as [|c t IH]; [done|].
  rewrite not_elem_of_cons. intros [Hc Ht]. simpl.
  destruct (N.eqb_spec c NL); [done|]. auto.
Qed.

(** Joining lines puts a line break between two of them. *)
Lemma breaks_join (ls : list str) :
  Forall newline_free ls → ls ≠ [] → breaks (join [NL] ls) = (length ls - 1)%nat.
Proof.
  induction ls as [|l ls IH]; [done|]. intros [Hl Hls]%list.Forall_cons _.
  destruct ls as [|l' ls'].
  - by apply breaks_newline_free.
  - change (join [NL] (l :: l' :: ls')) with (l ++ [NL] ++ join [NL] (l' :: ls')).
    rewrite !breaks_app, (breaks_newline_free l Hl), IH by done. simpl. lia.
Qed.

Lemma join_same_length (l1 l2 : list str) :
  Forall newline_free l1 → Forall newline_free l2 → l1 ≠ [] → l2 ≠ [] →
  join [NL] l1 = join [NL] l2 → len l1 = len l2.
Proof.
  intros H1 H2 Hn1 Hn2 Heq. apply (f_equal breaks) in Heq.
  rewrite !breaks_join in Heq by done.
  destruct l1, l2; try done. unfold len. simpl in *. lia.
Qed.

Lemma Forall_slice {A} (P : A → Prop) (l : list A) (i j : Z) :
  Forall P l → Forall P (slice l i j).
Proof. intros. unfold slice. by apply Forall_drop, Forall_take. Qed.

(** *** The segments of [_build_segments] *)

Lemma segment_in_mono (n m : Z) (se : Z * Z) : n ≤ m → segment_in n se → segment_in m se.
Proof. unfold segment_in. lia. Qed.

Lemma build_step_inv (target : Z) (st : list (Z * Z) * option Z * Z * Z) (line : str) :
  build_inv st → build_inv (build_step target st line) ∧ (build_step target st line).2 = st.2 + 1.
Proof.
  destruct st as [[[segments block_start] gap_start] i]. intros (Hs & Hg & Hb).
  assert (Forall (segment_in (i + 1)) segments) as Hs'.
  { eapply list.Forall_impl; [done|]. intros se. apply segment_in_mono. lia. }
  unfold build_step.
  repeat match goal with
         | |- context [if ?c then _ else _] =>
             lazymatch c with
             | context [if _ then _ else _] => fail
             | _ => destruct c eqn:?
             end
         | |- context [match ?b with Some _ => _ | None => _ end] =>
             is_var b; destruct b
         end; simpl; (split; [|done]).
  all: repeat split; try done; try lia.
  all: try (destruct block_start; lia).
  all: rewrite ?Forall_app, ?Forall_singleton; try split; try done.
  all: unfold segment_in; simpl; lia.
Qed.

Lemma build_segments_in (ls : list str) (target : Z) :
  Forall (segment_in (len ls)) (_build_segments ls target).
Proof.
  unfold _build_segments.
  assert (∀ st, build_inv st →
            build_inv (foldl (build_step target) st ls)
            ∧ (foldl (build_step target) st ls).2 = st.2 + len ls) as Hfold.
  { induction ls as [|l ls IH]; intros st Hst; simpl.
    - split; [done|]. unfold len. simpl. lia.
    - destruct (build_step_inv target st l Hst) as [H1 H2].
      destruct (IH _ H1) as [H3 H4]. split; [done|]. rewrite H4, H2, len_cons. lia. }
  destruct (Hfold ([], None, 0, 0)) as [Hinv Hi].
  { unfold build_inv. split; [done|]. split; [lia|done]. }
  destruct (foldl _ _ ls) as [[[segments block_start] gap_start] i].
  simpl in Hi. destruct Hinv as (Hs & Hg & Hb). subst i.
  rewrite Z.add_0_l in *.
  destruct block_start as [b|].
  - rewrite Forall_app, Forall_singleton. split; [done|]. unfold segment_in. simpl. lia.
  - destruct (Z.ltb_spec gap_start (len ls)); [|done].
    rewrite Forall_app, Forall_singleton. split; [done|]. unfold segment_in. simpl. lia.
Qed.

Lemma slice_lookup {A} (l : list A) (i j k : Z) :
  0 ≤ i ≤ j → j ≤ len l → 0 ≤ k < j - i →
  slice l i j !! Z.to_nat k = l !! Z.to_nat (i + k).
Proof.
  intros. unfold slice. rewrite !slice_bound_in by lia.
  rewrite lookup_drop, lookup_take_lt by lia. f_equal. lia.
Qed.

(** Segments with one key have as many lines. *)
Lemma same_key_same_length (left_src right_src : list str) (l x : Z * Z) :
  Forall newline_free left_src → Forall newline_free right_src →
  segment_in (len left_src) l → segment_in (len right_src) x →
  join [NL] (slice left_src l.1 l.2) = join [NL] (slice right_src x.1 x.2) →
  len (slice left_src l.1 l.2) = len (slice right_src x.1 x.2).
Proof.
  intros Hl Hx [Hl1 Hl2] [Hx1 Hx2] Hkey.
  apply join_same_length; [by apply Forall_slice|by apply Forall_slice| | |done].
  all: apply nonempty_len; rewrite len_slice by lia; lia.
Qed.

Section DiffTotal.
Context {R : Runtime}.
Hypothesis opcodes_law : opcodes_in_range.

Lemma line_diff_step_total (left right : list str) (st : DiffResult * Z) (op : Opcode) :
  opcode_ok left right op → aligned st.1 →
  ∃ st', line_diff_step left right st op = Ok st' ∧ aligned st'.1.
Proof.
  destruct st as [r total], op as [t i1 i2 j1 j2].
  intros (Hi & Hi2 & Hj & Hj2 & Heq) Hr. simpl in *.
  destruct t; simpl.
  1:{ destruct (append_equal_total r (slice left i1 i2) (slice right j1 j2))
        as (r' & -> & Hr'); [done|by rewrite Heq|]. simpl. eauto. }
  all: match goal with
       | |- context [for_each ?f ?xs ?r0] =>
           destruct (for_each_total aligned f xs r0) as (r' & -> & Hr');
             [done| |simpl; eauto]
       end.
  all: intros r0 k Hk%elem_of_seqZ_range Hr0.
  all: destruct (Z.ltb_spec k (i2 - i1)); simpl.
  all: try (destruct (py_get_in left (i1 + k)) as (a & -> & _); [lia|]; simpl).
  all: destruct (Z.ltb_spec k (j2 - j1)); simpl.
  all: try (destruct (py_get_in right (j1 + k)) as (b & -> & _); [lia|]; simpl).
  all: eexists; split; [done|]; by apply aligned_append_pair.
Qed.

Lemma line_diff_total (r : DiffResult) (left right : list str) :
  aligned r → ∃ r', _line_diff r left right = Ok r' ∧ aligned r'.
Proof.
  intros Hr. unfold _line_diff.
  destruct (for_each_total (λ st, aligned st.1) (line_diff_step left right)
              (get_opcodes left right) (r, 0)) as ([r' total] & -> & Hr'); [done| |].
  - intros st op Hop Hst. apply line_diff_step_total; [|done].
    by apply (proj1 (list.Forall_forall _ _) (opcodes_law left right)).
  - simpl. destruct (total =? 0); eauto.
Qed.

Lemma full_diff_step_total (left right : list str) (r : DiffResult) (op : Opcode) :
  opcode_ok left right op → aligned r →
  ∃ r', full_diff_step left right r op = Ok r' ∧ aligned r'.
Proof.
  destruct op as [t i1 i2 j1 j2]. intros (Hi & Hi2 & Hj & Hj2 & Heq) Hr. simpl in *.
  destruct t; simpl; eauto using aligned_append_hunk.
  apply append_equal_total; [done|]. by rewrite Heq.
Qed.

Lemma compute_line_diff_full_total (left right : list str) :
  ∃ r, _compute_line_diff_full left right = Ok r ∧ aligned r.
Proof.
  unfold _compute_line_diff_full. destruct (_ <? _).
  - eexists. split; [done|]. by apply aligned_append_hunk.
  - apply for_each_total; [done|]. intros r op Hop Hr.
    apply full_diff_step_total; [|done].
    by apply (proj1 (list.Forall_forall _ _) (opcodes_law left right)).
Qed.

Lemma handle_replace_segments_total (r : DiffResult) (left_src right_src : list str)
    (left_segs right_segs : list (Z * Z)) :
  aligned r →
  ∃ r', _handle_replace_segments r left_src right_src left_segs right_segs = Ok r'
        ∧ aligned r'.
Proof.
  intros Hr. unfold _handle_replace_segments.
  pose proof (len_nonneg left_segs). pose proof (len_nonneg right_segs).
  match goal with
  | |- context [for_each ?f ?xs r] =>
      destruct (for_each_total aligned f xs r) as (r1 & -> & Hr1); [done| |]
  end.
  { intros r0 k Hk%elem_of_seqZ_range Hr0.
    destruct (py_get_in left_segs k) as (l & -> & _); [lia|].
    destruct (py_get_in right_segs k) as (x & -> & _); [lia|]. simpl.
    case_bool_decide as Heq.
    - apply append_equal_total; [done|]. by rewrite Heq.
    - by apply line_diff_total. }
  simpl.
  match goal with
  | |- context [for_each ?f ?xs r1] =>
      destruct (for_each_total aligned f xs r1) as (r2 & -> & Hr2); [done| |]
  end.
  { intros r0 k Hk%elem_of_seqZ_range Hr0.
    destruct (py_get_in left_segs k) as (l & -> & _); [lia|]. simpl.
    eexists. split; [done|]. by apply aligned_append_hunk. }
  simpl. apply for_each_total; [done|].
  intros r0 k Hk%elem_of_seqZ_range Hr0.
  destruct (py_get_in right_segs k) as (x & -> & _); [lia|]. simpl.
  eexists. split; [done|]. by apply aligned_append_hunk.
Qed.

Lemma len_segment_keys (src : list str) (segs : list (Z * Z)) :
  len (segment_keys src segs) = len segs.
Proof. unfold segment_keys, len. by rewrite length_fmap. Qed.

Lemma block_diff_step_total (left_src right_src : list str)
    (left_segs right_segs : list (Z * Z)) (r : DiffResult) (op : Opcode) :
  Forall newline_free left_src → Forall newline_free right_src →
  Forall (segment_in (len left_src)) left_segs →
  Forall (segment_in (len right_src)) right_segs →
  opcode_ok (segment_keys left_src left_segs) (segment_keys right_src right_segs) op →
  aligned r →
  ∃ r', block_diff_step left_src right_src left_segs right_segs r op = Ok r'
        ∧ aligned r'.
Proof.
  intros Hnl Hnr Hsl Hsr Hop Hr. destruct op as [t i1 i2 j1 j2].
  destruct Hop as (Hi & Hi2 & Hj & Hj2 & Heq). simpl in *.
  rewrite len_segment_keys in Hi2, Hj2.
  destruct t; simpl.
  - specialize (Heq eq_refl).
    assert (i2 - i1 = j2 - j1) as Hlen.
    { apply (f_equal len) in Heq.
      rewrite !len_slice in Heq by (rewrite ?len_segment_keys; lia). done. }
    apply for_each_total; [done|]. intros r0 k Hk%elem_of_seqZ_range Hr0.
    destruct (py_get_in left_segs (i1 + k)) as (l & -> & Hl); [lia|].
    destruct (py_get_in right_segs (j1 + k)) as (x & -> & Hx); [lia|]. simpl.
    apply append_equal_total; [done|].
    assert (len (slice left_src l.1 l.2) = len (slice right_src x.1 x.2)) as ->; [|done].
    apply same_key_same_length; try done.
    + eapply Forall_lookup_1; [exact Hsl|exact Hl].
    + eapply Forall_lookup_1; [exact Hsr|exact Hx].
    + apply (f_equal (λ ks, ks !! Z.to_nat k)) in Heq.
      rewrite !slice_lookup in Heq by (rewrite ?len_segment_keys; lia).
      unfold segment_keys in Heq. rewrite !list_lookup_fmap, Hl, Hx in Heq. simpl in Heq.
      by injection Heq.
  - apply for_each_total; [done|]. intros r0 k Hk%elem_of_seqZ_range Hr0.
    destruct (py_get_in left_segs (i1 + k)) as (l & -> & Hl); [lia|]. simpl.
    eexists. split; [done|]. by apply aligned_append_hunk.
  - apply for_each_total; [done|]. intros r0 k Hk%elem_of_seqZ_range Hr0.
    destruct (py_get_in right_segs (j1 + k)) as (x & -> & Hx); [lia|]. simpl.
    eexists. split; [done|]. by apply aligned_append_hunk.
  - by apply handle_replace_segments_total.
Qed.

Lemma compute_line_diff_total (left_src right_src : list str) :
  Forall newline_free left_src → Forall newline_free right_src →
  ∃ r, _compute_line_diff left_src right_src = Ok r ∧ aligned r.
Proof.
  intros Hnl Hnr. unfold _compute_line_diff.
  destruct (_detect_blocks left_src) as [[li lc]|];
    [|apply compute_line_diff_full_total].
  destruct (_detect_blocks right_src) as [[ri rc]|];
    [|apply compute_line_diff_full_total].
  destruct (li =? ri); [|apply compute_line_diff_full_total].
  unfold _compute_block_diff. apply for_each_total; [done|].
  intros r op Hop Hr. apply block_diff_step_total; try done.
  - apply build_segments_in.
  - apply build_segments_in.
  - by apply (proj1 (list.Forall_forall _ _) (opcodes_law _ _)).
Qed.

Lemma aligned_jsonl_sep (r : DiffResult) (t : DiffTag.t) (first : bool) :
  aligned r → aligned (_jsonl_sep r t first).1.
Proof. intros. unfold _jsonl_sep. simpl. destruct first; simpl; [done|]. by apply aligned_append_pair. Qed.

Lemma aligned_equal_lines (r : DiffResult) (ls : list str) :
  aligned r → aligned (foldl (λ r line, append_pair r line line DiffTag.EQUAL) r ls).
Proof. apply aligned_foldl. intros. by apply aligned_append_pair. Qed.

Lemma jsonl_diff_step_total (left_records right_records : list str)
    (st : DiffResult * bool) (op : Opcode) :
  opcode_ok left_records right_records op → aligned st.1 →
  ∃ st', jsonl_diff_step left_records right_records st op = Ok st' ∧ aligned st'.1.
Proof.
  destruct op as [t i1 i2 j1 j2]. intros (Hi & Hi2 & Hj & Hj2 & _) Hst. simpl in *.
  assert (∀ st0 from to, 0 ≤ from → to ≤ i2 - i1 → aligned st0.1 →
            ∃ st', for_each (λ (st : DiffResult * bool) k,
                       let '(r, first) := _jsonl_sep st.1 DiffTag.DELETE st.2 in
                       let! rec := py_get left_records (i1 + k) in
                       Ok (append_hunk r (split_on NL rec) [] DiffTag.DELETE, first))
                     (seqZ from (to - from)) st0 = Ok st' ∧ aligned st'.1) as Hdel.
  { intros st0 from to Hfrom Hto Hst0. apply for_each_total; [done|].
    intros [r0 first] k Hk%elem_of_seqZ_range Hr0.
    pose proof (aligned_jsonl_sep r0 DiffTag.DELETE first Hr0) as Hsep.
    unfold _jsonl_sep in *. simpl in *.
    destruct (py_get_in left_records (i1 + k)) as (rec & -> & _); [lia|]. simpl.
    eexists. split; [done|]. by apply aligned_append_hunk. }
  assert (∀ st0 from to, 0 ≤ from → to ≤ j2 - j1 → aligned st0.1 →
            ∃ st', for_each (λ (st : DiffResult * bool) k,
                       let '(r, first) := _jsonl_sep st.1 DiffTag.INSERT st.2 in
                       let! rec := py_get right_records (j1 + k) in
                       Ok (append_hunk r [] (split_on NL rec) DiffTag.INSERT, first))
                     (seqZ from (to - from)) st0 = Ok st' ∧ aligned st'.1) as Hins.
  { intros st0 from to Hfrom Hto Hst0. apply for_each_total; [done|].
    intros [r0 first] k Hk%elem_of_seqZ_range Hr0.
    pose proof (aligned_jsonl_sep r0 DiffTag.INSERT first Hr0) as Hsep.
    unfold _jsonl_sep in *. simpl in *.
    destruct (py_get_in right_records (j1 + k)) as (rec & -> & _); [lia|]. simpl.
    eexists. split; [done|]. by apply aligned_append_hunk. }
  destruct t; simpl.
  - apply for_each_total; [done|].
    intros [r0 first] k Hk%elem_of_seqZ_range Hr0.
    pose proof (aligned_jsonl_sep r0 DiffTag.EQUAL first Hr0) as Hsep.
    unfold _jsonl_sep in *. simpl in *.
    destruct (py_get_in left_records (i1 + k)) as (rec & -> & _); [lia|]. simpl.
    eexists. split; [done|]. by apply aligned_equal_lines.
  - apply (Hdel st 0 (i2 - i1)); [lia|lia|done].
  - apply (Hins st 0 (j2 - j1)); [lia|lia|done].
  - eapply (bind_total (λ st, aligned st.1)).
    { apply for_each_total; [done|].
      intros [r0 first] k Hk%elem_of_seqZ_range Hr0.
      pose proof (aligned_jsonl_sep r0 DiffTag.REPLACE first Hr0) as Hsep.
      unfold _jsonl_sep in *. simpl in *.
      destruct (py_get_in left_records (i1 + k)) as (lrec & -> & _); [lia|].
      destruct (py_get_in right_records (j1 + k)) as (rrec & -> & _); [lia|]. simpl.
      case_bool_decide.
      - eexists. split; [done|]. by apply aligned_equal_lines.
      - match goal with
        | |- context [_line_diff ?r1 ?a ?b] =>
            destruct (line_diff_total r1 a b) as (r2 & -> & Hr2); [done|]
        end.
        simpl. eauto. }
    intros st1 Hst1. eapply (bind_total (λ st, aligned st.1)).
    { apply Hdel; [lia|lia|done]. }
    intros st2 Hst2. apply Hins; [lia|lia|done].
Qed.

Lemma compute_jsonl_diff_total (left right : str) (normalize : bool) :
  ∃ r, _compute_jsonl_diff left right normalize = Ok r ∧ aligned r.
Proof.
  unfold _compute_jsonl_diff.
  match goal with
  | |- context [for_each ?f ?xs ?st0] =>
      destruct (for_each_total (λ st, aligned st.1) f xs st0) as (st1 & -> & Hst1);
        [done| |simpl; eauto]
  end.
  intros st op Hop Hst. apply jsonl_diff_step_total; [|done].
  by apply (proj1 (list.Forall_forall _ _) (opcodes_law _ _)).
Qed.

(** C6. With opcodes that name ranges of the two sequences, and equal ranges
    when they say [equal], as [difflib] gives them, [compute_json_diff]
    returns a result for every pair of texts and every choice of the
    [normalize] and [jsonl] flags, and the four lists of the result,
    [left_lines], [right_lines], [left_line_tags] and [right_line_tags],
    have one length. *)
Theorem diff_result_aligned (left right : str) (normalize is_jsonl : bool) :
  ∃ r, compute_json_diff left right normalize is_jsonl = Ok r
       ∧ len (left_lines r) = len (right_lines r)
       ∧ len (right_lines r) = len (left_line_tags r)
       ∧ len (left_line_tags r) = len (right_line_tags r).
Proof.
  assert (∃ r, compute_json_diff left right normalize is_jsonl = Ok r ∧ aligned r)
    as (r & Hr & H1 & H2 & H3 & _); [|by exists r].
  unfold compute_json_diff. destruct is_jsonl.
  - apply compute_jsonl_diff_total.
  - apply compute_line_diff_total; apply split_on_newline_free.
Qed.

End DiffTotal.

Lemma whole_opcodes_in_range : @opcodes_in_range ascii_runtime.
Proof.
  intros a b. simpl. unfold whole_opcodes.
  pose proof (len_nonneg a). pose proof (len_nonneg b).
  repeat case_bool_decide; repeat constructor; simpl; try lia; try done.
  intros _. by subst.
Qed.

Lemma diff_result_aligned_witness :
  ∃ r, @compute_json_diff ascii_runtime (lit "{}") (lit "[]") true false = Ok r
       ∧ len (left_lines r) = len (right_lines r)
       ∧ len (right_lines r) = len (left_line_tags r)
       ∧ len (left_line_tags r) = len (right_line_tags r).
Proof.
  apply (@diff_result_aligned ascii_runtime). exact whole_opcodes_in_range.
Defined.

Example diff_of_two_documents :
  @compute_json_diff ascii_runtime (lit "{}") (lit "[]") true false
  = Ok (MkResult [lit "{}"] [lit "[]"] [DiffTag.REPLACE] [DiffTag.REPLACE]
          [MkHunk 0 1 0 1 DiffTag.REPLACE]).
Proof. vm_compute. reflexivity. Qed.

(** ** White space at the ends of a line *)

Lemma lstrip_blank (ws : str) : Forall (λ c, isspace c = true) ws → lstrip ws = [].
Proof. induction 1 as [|c ws Hc _ IH]; simpl; [done|]. by rewrite Hc. Qed.

Lemma lstrip_app (ws rest : str) :
  Forall (λ c, isspace c = true) ws →
  (∀ c rest', rest = c :: rest' → isspace c = false) →
  lstrip (ws ++ rest) = rest.
Proof.
  intros Hws Hrest. induction Hws as [|c ws Hc _ IH]; simpl.
  - destruct rest as [|c rest']; [done|]. simpl. by rewrite (Hrest c rest').
  - by rewrite Hc.
Qed.

Lemma lstrip_keeps (s : str) (c : char) :
  c ∈ s → isspace c = false → lstrip s ≠ [].
Proof.
  induction s as [|d s IH]; intros Hin Hc; [by apply elem_of_nil in Hin|].
  simpl. destruct (isspace d) eqn:Hd; [|done].
  apply elem_of_cons in Hin as [->|Hin]; [congruence|]. by apply IH.
Qed.

Lemma rstrip_keeps (s : str) (c : char) :
  c ∈ s → isspace c = false → rstrip s ≠ [].
Proof.
  intros Hin Hc. unfold rstrip. intros H%(f_equal reverse).
  rewrite reverse_involutive in H. simpl in H.
  by apply (lstrip_keeps (reverse s) c); [apply elem_of_reverse|..].
Qed.

(** [rstrip] removes the white space after the last other character. *)
Lemma rstrip_app (body trail : str) (c : char) :
  isspace c = false → Forall (λ c, isspace c = true) trail →
  rstrip (body ++ c :: trail) = body ++ [c].
Proof.
  intros Hc Htrail. unfold rstrip.
  rewrite reverse_app, reverse_cons, <- app_assoc.
  rewrite lstrip_app.
  - simpl. by rewrite reverse_cons, reverse_involutive.
  - by apply Forall_reverse.
  - intros d rest' [= <- _]. done.
Qed.

(** What [lstrip] removes is white space, and what it leaves does not start
    with white space. *)
Lemma lstrip_split (s : str) :
  ∃ ws, s = ws ++ lstrip s ∧ Forall (λ c, isspace c = true) ws
        ∧ ∀ c rest', lstrip s = c :: rest' → isspace c = false.
Proof.
  induction s as [|d s (ws & Hs & Hws & Hhead)]; simpl.
  - exists []. by repeat split.
  - destruct (isspace d) eqn:Hd.
    + exists (d :: ws). split; [by rewrite Hs at 1|]. split; [by constructor|done].
    + exists []. split; [done|]. split; [done|]. intros c rest' [= <- _]. done.
Qed.

Lemma rstrip_split (s : str) :
  ∃ trail, s = rstrip s ++ trail ∧ Forall (λ c, isspace c = true) trail
           ∧ ∀ c, list.last (rstrip s) = Some c → isspace c = false.
Proof.
  destruct (lstrip_split (reverse s)) as (ws & Hs & Hws & Hhead).
  exists (reverse ws). unfold rstrip. split; [|split].
  - rewrite <- reverse_app, <- Hs. by rewrite reverse_involutive.
  - by apply Forall_reverse.
  - intros c Hlast. destruct (lstrip (reverse s)) as [|d rest'] eqn:Hl; [done|].
    rewrite reverse_cons, last_snoc in Hlast. injection Hlast as <-. by eapply Hhead.
Qed.

Section Indentation.
Context {R : Runtime}.

(** The indentation [o] and [O] take over: the number of white-space
    characters the line starts with, and 0 for a line of white space only. *)
Lemma indent_of_split (ws rest : str) :
  Forall (λ c, isspace c = true) ws →
  (∀ c rest', rest = c :: rest' → isspace c = false) →
  indent_of (ws ++ rest) = if bool_decide (rest = []) then 0 else len ws.
Proof.
  intros Hws Hrest. unfold indent_of, strip, leading_ws. rewrite lstrip_app by done.
  destruct rest as [|c rest'].
  - rewrite bool_decide_eq_true_2 by done. by rewrite (bool_decide_eq_true_2 _ eq_refl).
  - rewrite (bool_decide_eq_false_2 (c :: rest' = [])) by done.
    rewrite bool_decide_eq_false_2.
    + rewrite len_app. lia.
    + apply (rstrip_keeps _ c); [by left|by eapply Hrest].
Qed.

(** The test of [o] for an open bracket looks at the last character that is
    not white space. *)
Lemma ends_with_open_spec (line : str) :
  ends_with_open (rstrip line) = true
  ↔ ∃ body c trail, line = body ++ c :: trail ∧ (c = ch "{" ∨ c = ch "[")
                    ∧ Forall (λ c, isspace c = true) trail.
Proof.
  split.
  - intros Hopen. destruct (rstrip_split line) as (trail & Hline & Htrail & _).
    unfold ends_with_open, ends_with in Hopen.
    destruct (list.last (rstrip line)) as [d|] eqn:Hlast; [|done].
    apply last_Some in Hlast as [body Hbody].
    exists body, d, trail. split; [|split; [|done]].
    + rewrite Hline at 1. by rewrite Hbody, <- app_assoc.
    + apply orb_true_iff in Hopen as [Hd|Hd]; apply N.eqb_eq in Hd; auto.
  - intros (body & c & trail & -> & Hc & Htrail).
    rewrite rstrip_app; [|by destruct Hc as [-> | ->]|done].
    unfold ends_with_open, ends_with. rewrite last_snoc.
    destruct Hc as [-> | ->]; reflexivity.
Qed.

(** C7. In a session that is not read-only, [o] opens a line below the
    current one and [O] a line above it. The new line holds one space for
    every white-space character the current line starts with (a tab counts as
    one), and none when the current line is white space only; [o] adds four
    more spaces when the last character of the current line that is not white
    space is an open bracket, [O] adds none. Both push an undo entry, enter
    Insert mode and leave the cursor at the end of the new line. *)
Theorem open_line_indents (h : Z) (s : JsonEditor) (ws rest : str) (opens : bool) :
  ready s →
  lines s !! Z.to_nat (cursor_row s) = Some (ws ++ rest) →
  Forall (λ c, isspace c = true) ws →
  (∀ c rest', rest = c :: rest' → isspace c = false) →
  (opens = true
   ↔ ∃ body c trail, ws ++ rest = body ++ c :: trail ∧ (c = ch "{" ∨ c = ch "[")
                     ∧ Forall (λ c, isspace c = true) trail) →
  let indent := replicate (if bool_decide (rest = []) then 0 else length ws) (ch " ") in
  let below := indent ++ (if opens then lit "    " else []) in
  (∃ s', on_key h s (char_key "o") = Ok s'
         ∧ lines s'
           = take (Z.to_nat (cursor_row s + 1)) (lines s)
             ++ below :: drop (Z.to_nat (cursor_row s + 1)) (lines s)
         ∧ cursor_row s' = cursor_row s + 1 ∧ cursor_col s' = len below
         ∧ _mode s' = INSERT ∧ undo_stack s' = pushed s)
  ∧ (∃ s', on_key h s (char_key "O") = Ok s'
           ∧ lines s'
             = take (Z.to_nat (cursor_row s)) (lines s)
               ++ indent :: drop (Z.to_nat (cursor_row s)) (lines s)
           ∧ cursor_row s' = cursor_row s ∧ cursor_col s' = len indent
           ∧ _mode s' = INSERT ∧ undo_stack s' = pushed s).
Proof.
  intros (Hok & Hm & Hp & Hro) Hline Hws Hrest Hopens indent below.
  destruct (open_line_by_indent h s Hok Hm Hp Hro)
    as (line & Hline' & (s1 & H1 & Hl1 & Hr1 & Hc1 & Hm1 & Hu1)
        & (s2 & H2 & Hl2 & Hr2 & Hc2 & Hm2 & Hu2)).
  assert (line = ws ++ rest) as -> by congruence.
  assert (ends_with_open (rstrip (ws ++ rest)) = opens) as Hext.
  { pose proof (ends_with_open_spec (ws ++ rest)) as Hspec.
    destruct (ends_with_open _), opens; try done.
    - symmetry. apply Hopens, Hspec. done.
    - apply Hspec, Hopens. done. }
  assert (spaces (indent_of (ws ++ rest)) = indent) as Hind.
  { unfold spaces, indent. rewrite indent_of_split by done.
    case_bool_decide; [done|]. unfold len. by rewrite Nat2Z.id. }
  assert (indent_of (ws ++ rest) = len indent) as Hlen.
  { rewrite <- Hind, len_spaces. pose proof (indent_of_range (ws ++ rest)). lia. }
  rewrite Hext, Hind in Hl1. rewrite Hext, Hlen in Hc1. rewrite Hind in Hl2.
  rewrite Hlen in Hc2.
  split.
  - exists s1. repeat split; try done.
    unfold below. rewrite len_app, Hc1. by destruct opens.
  - exists s2. repeat split; done.
Qed.

End Indentation.

Lemma open_line_indents_witness :
  let s := @init ascii_runtime (lit "    [") false false in
  ∃ s1 s2,
    @on_key ascii_runtime 24 s (char_key "o") = Ok s1
    ∧ lines s1 = [lit "    ["; lit "        "]
    ∧ cursor_row s1 = 1 ∧ cursor_col s1 = 8 ∧ _mode s1 = INSERT
    ∧ @on_key ascii_runtime 24 s (char_key "O") = Ok s2
    ∧ lines s2 = [lit "    "; lit "    ["]
    ∧ cursor_row s2 = 0 ∧ cursor_col s2 = 4 ∧ _mode s2 = INSERT.
Proof.
  intros s.
  destruct (@open_line_indents ascii_runtime 24 s (lit "    ") (lit "[") true)
    as ((s1 & H1 & Hl1 & Hr1 & Hc1 & Hm1 & _) & (s2 & H2 & Hl2 & Hr2 & Hc2 & Hm2 & _)).
  - split; [apply init_wf|done].
  - reflexivity.
  - repeat constructor.
  - intros c rest' [= <- _]. reflexivity.
  - split; [|done]. intros _. exists (lit "    "), (ch "["), []. repeat split; auto.
  - exists s1, s2. rewrite Hl1, Hr1, Hc1, Hl2, Hr2, Hc2. repeat split; done.
Defined.

(** A line of white space only gives no indentation, and a tab gives one
    space. *)
Example open_line_blank_and_tab :
  (∃ s', @on_key ascii_runtime 24 (@init ascii_runtime (lit "   ") false false)
           (char_key "o") = Ok s'
         ∧ lines s' = [lit "   "; lit ""] ∧ cursor_col s' = 0)
  ∧ (∃ s', @on_key ascii_runtime 24 (@init ascii_runtime [9%N; 97%N] false false)
             (char_key "o") = Ok s'
           ∧ lines s' = [[9%N; 97%N]; lit " "] ∧ cursor_col s' = 1).
Proof. split; eexists; (split; [vm_compute; reflexivity|done]). Qed.

(** ** One key and the history *)

Ltac hist_step_goal :=
  unfold hist_step in *;
  repeat match goal with
         | H : ∃ _, _ |- _ => destruct H
         | H : _ ∧ _ |- _ => destruct H
         | H : moved _ _ |- _ => rewrite H; clear H
         end;
  subst; simpl in *;
  repeat match goal with
         | |- context [if ?c then _ else _] =>
             lazymatch c with
             | _ <? _ => fail
             | _ => destruct c eqn:?; simpl
             end
         | |- context [match ?c with _ => _ end] =>
             lazymatch c with
             | _ <? _ => fail
             | _ => destruct c eqn:?; simpl
             end
         end;
  first [ left; split; reflexivity
        | right; split; [reflexivity|];
          unfold push_on, snapshot; simpl; rewrite ?push_entry;
          first [left; reflexivity | right; reflexivity] ].

Section EditorHistory.
Context {R : Runtime}.

Lemma hist_step_refl (s : JsonEditor) : hist_step s s.
Proof. by left. Qed.

Lemma hist_step_moved (s s' : JsonEditor) : moved s s' → hist_step s s'.
Proof. intros ->. by left. Qed.

Lemma hist_step_frame (s t t' : JsonEditor) :
  undo_stack t' = undo_stack t ∧ redo_stack t' = redo_stack t →
  hist_step s t → hist_step s t'.
Proof. unfold hist_step. intros [-> ->]. done. Qed.

Lemma handle_insert_hist (s s' : JsonEditor) (ev : KeyEvent) :
  _handle_insert s ev = Ok s' → hist_step s s'.
Proof. unfold _handle_insert. intros H. ok_inv H; hist_step_goal. Qed.

Lemma format_json_hist (s : JsonEditor) : hist_step s (_format_json s).
Proof. unfold _format_json, _format_jsonl. hist_step_goal. Qed.

Lemma request_save_hist (force : bool) (arg : str) (q : bool) (s : JsonEditor) :
  hist_step s (request_save force arg q s).
Proof. unfold request_save. hist_step_goal. Qed.

Lemma exec_command_hist (s s' : JsonEditor) (cmd : str) :
  _exec_command s cmd = Ok s' → hist_step s s'.
Proof.
  unfold _exec_command. intros H.
  ok_inv H; auto using format_json_hist, request_save_hist; hist_step_goal.
Qed.

Lemma handle_command_hist (s s' : JsonEditor) (ev : KeyEvent) :
  _handle_command s ev = Ok s' → hist_step s s'.
Proof.
  unfold _handle_command. intros H.
  ok_inv H;
    try match goal with
        | Ha : _exec_command _ _ = Ok _ |- _ =>
            apply exec_command_hist in Ha;
            eapply hist_step_frame; [|exact Ha]; case_bool_decide; by destruct a
        end.
  all: hist_step_goal.
Qed.

Lemma handle_pending_hist (s s' : JsonEditor) (char key : str) :
  _handle_pending s char key = Ok s' → hist_step s s'.
Proof.
  unfold _handle_pending. intros H.
  ok_inv H; unfold _enter_insert in *;
    try match goal with
        | Ha : _delete_word _ = Ok _ |- _ => apply delete_word_lines in Ha as [? ->]
        | Ha : _edit_embedded_json _ = Ok _ |- _ =>
            apply edit_embedded_json_frame in Ha as [[? ->]|[? ->]]
        end;
    hist_step_goal.
Qed.

Lemma handle_normal_hist (replay : JsonEditor → Outcome JsonEditor) (height : Z)
    (s s' : JsonEditor) (ev : KeyEvent) :
  handle_normal_with replay height s ev = Ok s' →
  pending s ≠ []
  ∨ (normal_key (key ev) (default [] (character ev)) ≠ KHistory
     ∧ normal_key (key ev) (default [] (character ev)) ≠ KReplay) →
  hist_step s s'.
Proof.
  unfold handle_normal_with. intros H Hk.
  case_bool_decide as Hp; simpl in H; [|by eapply handle_pending_hist].
  destruct Hk as [Hk|[Hu Hr]]; [done|].
  unfold normal_key, is_motion in Hu, Hr.
  repeat match type of H with
         | (if ?c then _ else _) = _ => destruct c eqn:?
         end.
  all: try match goal with
           | Ha : _move_word_forward _ = Ok _ |- _ =>
               apply move_word_forward_moved in Ha; by apply hist_step_moved
           | Ha : _move_word_backward _ = Ok _ |- _ =>
               apply move_word_backward_moved in Ha; by apply hist_step_moved
           | Ha : _jump_matching_bracket _ = Ok _ |- _ =>
               apply jump_matching_bracket_moved in Ha; by apply hist_step_moved
           end.
  all: try (exfalso; revert Hu Hr; rewrite_tests; simpl; rewrite ?orb_true_r; simpl;
            congruence).
  all: unfold _enter_insert, _dot_start, _paste_after, _paste_before in *.
  all: ok_inv H;
    try match goal with
        | Ha : _join_lines _ = Ok _ |- _ =>
            apply join_lines_frame in Ha as [->|(? & ? & ->)]
        end;
    hist_step_goal.
Qed.

(** A key that is not [u], [ctrl+r] or [.] leaves the history alone or
    pushes. *)
Lemma on_key_hist (height : Z) (s s' : JsonEditor) (ev : KeyEvent) :
  on_key height s ev = Ok s' → ¬ history_key s ev → hist_step s s'.
Proof.
  unfold on_key. intros H Hk. apply bind_Ok_inv in H as (s1 & H1 & H).
  apply clamp_cursor_moved in H.
  assert (hist_step s s1) as Hs1; [|rewrite H; clear H; by destruct s1].
  match type of H1 with
  | context [_mode ?s0] =>
      assert (∃ b, s0 = set_dot_buffer b s) as [b Hb]
        by (destruct (_ && _); [eauto|exists (_dot_buffer s); by destruct s]);
      rewrite Hb in H1; clear Hb
  end.
  assert (∀ t, hist_step (set_dot_buffer b s) t → hist_step s t) as Hframe
    by (intros t Ht; by destruct s).
  apply Hframe. simpl in H1.
  destruct (_mode s) eqn:Hm.
  - unfold _handle_normal in H1. eapply handle_normal_hist; [done|].
    replace (pending (set_dot_buffer b s)) with (pending s) by by destruct s.
    destruct (decide (pending s = [])) as [Hp|Hp]; [right|by left].
    split; intros Hn; apply Hk; unfold history_key; auto.
  - by eapply handle_insert_hist.
  - by eapply handle_command_hist.
Qed.

Lemma run_keys_reachable (s s' : JsonEditor) (events : list (Z * KeyEvent)) :
  reachable s → run_keys s events = Ok s' → reachable s'.
Proof.
  unfold run_keys. revert s. induction events as [|[h ev] events IH]; intros s Hs H; simpl in H.
  - by apply Ok_inj in H as <-.
  - apply bind_Ok_inv in H as (s1 & H1 & H). simpl in H1.
    apply (IH s1); [|done]. by eapply reach_key.
Qed.

Lemma reachable_undo_bound (s : JsonEditor) : reachable s → len (undo_stack s) ≤ 200.
Proof.
  intros Hs%reachable_history_ok. unfold history_ok in Hs.
  pose proof (len_nonneg (redo_stack s)). lia.
Qed.

(** C3. In every state a session can reach, the undo stack holds at most 200
    entries. A key other than [u], [ctrl+r] and [.] leaves undo and redo stack
    as they are, or pushes the buffer and cursor it found on the undo stack
    (twice for a closing bracket typed after text), dropping the oldest entry
    when 200 are there, and leaves the redo stack empty. Each of the edits
    [x], [p], [P], [J], [dd], [dw], [d$], [d0] and [r{c}] ends normally with
    that one entry pushed and the redo stack empty. *)
Theorem undo_stack_bounded (h : Z) (s : JsonEditor) :
  reachable s →
  len (undo_stack s) ≤ 200
  ∧ (∀ ev s', on_key h s ev = Ok s' → ¬ history_key s ev →
       len (undo_stack s') ≤ 200
       ∧ ((undo_stack s' = undo_stack s ∧ redo_stack s' = redo_stack s)
          ∨ (redo_stack s' = []
             ∧ (undo_stack s' = push_on (undo_stack s) (snapshot s)
                ∨ undo_stack s'
                  = push_on (push_on (undo_stack s) (snapshot s)) (snapshot s)))))
  ∧ (∀ e, ready s → applies e s →
       ∃ s1, run_keys s (map (pair h) (keys_of e)) = Ok s1
             ∧ undo_stack s1
               = (if len (undo_stack s) <? 200 then undo_stack s
                  else drop 1 (undo_stack s)) ++ [snapshot s]
             ∧ redo_stack s1 = []
             ∧ len (undo_stack s1) ≤ 200).
Proof.
  intros Hs. split; [by apply reachable_undo_bound|]. split.
  - intros ev s' Hk Hev. split.
    + apply reachable_undo_bound. by eapply reach_key.
    + by apply (on_key_hist h s s' ev).
  - intros e Hready Ha.
    destruct (edit_pushes h e s Hready Ha) as (s1 & Hrun & _ & Hu & Hr).
    exists s1. repeat split; try done.
    apply reachable_undo_bound. by eapply run_keys_reachable.
Qed.

End EditorHistory.

Lemma undo_stack_bounded_witness :
  ∃ s s1 t t1,
    @run_keys ascii_runtime (@init ascii_runtime (lit "ab") false false)
      (replicate 200 (24, char_key "x")) = Ok s
    ∧ len (undo_stack s) = 200
    ∧ @run_keys ascii_runtime s [(24, char_key "x")] = Ok s1
    ∧ undo_stack s1 = drop 1 (undo_stack s) ++ [snapshot s]
    ∧ len (undo_stack s1) ≤ 200
    ∧ @run_keys ascii_runtime s [(24, char_key "u")] = Ok t
    ∧ redo_stack t ≠ []
    ∧ @run_keys ascii_runtime t [(24, char_key "x")] = Ok t1
    ∧ redo_stack t1 = [].
Proof.
  assert (∃ s t,
            @run_keys ascii_runtime (@init ascii_runtime (lit "ab") false false)
              (replicate 200 (24, char_key "x")) = Ok s
            ∧ len (undo_stack s) = 200 ∧ @ready s
            ∧ @run_keys ascii_runtime s [(24, char_key "u")] = Ok t
            ∧ redo_stack t ≠ [] ∧ @ready t) as (s & t & Hs & Hlen & Hready & Ht & Hredo & Hreadyt).
  { eexists. eexists.
    split; [vm_compute; reflexivity|].
    split; [reflexivity|].
    split.
    { split; [|done]. split; [unfold len; simpl; lia|].
      eexists. split; [reflexivity|]. unfold len. simpl. split; [lia|done]. }
    split; [vm_compute; reflexivity|].
    split; [done|].
    split; [|done]. split; [unfold len; simpl; lia|].
    eexists. split; [reflexivity|]. unfold len. simpl. split; [lia|done]. }
  assert (@reachable ascii_runtime s) as Hreach
    by (eapply run_keys_reachable; [apply reach_init|exact Hs]).
  assert (@reachable ascii_runtime t) as Hreacht
    by (eapply run_keys_reachable; [exact Hreach|exact Ht]).
  destruct (@undo_stack_bounded ascii_runtime 24 s Hreach) as (_ & _ & Hedit).
  destruct (Hedit EDelChar Hready I) as (s1 & H1 & Hu1 & _ & Hl1).
  destruct (@undo_stack_bounded ascii_runtime 24 t Hreacht) as (_ & _ & Heditt).
  destruct (Heditt EDelChar Hreadyt I) as (t1 & Ht1 & _ & Hr1 & _).
  exists s, s1, t, t1. rewrite Hlen in Hu1. simpl in Hu1.
  repeat split; done.
Defined.

(** A closing bracket typed after text pushes the same entry twice. *)
Example closing_bracket_pushes_twice :
  ∃ s, @run_keys ascii_runtime (@init ascii_runtime (lit "a") false false)
         [(24, char_key "A"); (24, MkKey (lit "right_curly_bracket") (Some (lit "}")))]
       = Ok s
       ∧ lines s = [lit "a}"]
       ∧ undo_stack s = [([lit "a"], 0, 1); ([lit "a"], 0, 1)].
Proof. eexists. split; [vm_compute; reflexivity|]. done. Qed.

(** ** The size limit of the full line diff *)

Lemma len_replicate {A} (n : nat) (x : A) : len (replicate n x) = Z.of_nat n.
Proof. unfold len. by rewrite length_replicate. Qed.

(** What [append_hunk] adds to the lists: the lines, with the shorter side
    filled up with empty lines. *)
Lemma padded_lines (l : list str) (n : Z) :
  len l ≤ n →
  get_or_empty l <$> seqZ 0 n = l ++ replicate (Z.to_nat (n - len l)) [].
Proof.
  intros Hn. apply list_eq. intros i. rewrite list_lookup_fmap.
  destruct (decide (Z.of_nat i < n)) as [Hi|Hi].
  - rewrite lookup_seqZ_lt by done. simpl. unfold get_or_empty.
    rewrite Z.add_0_l, Nat2Z.id.
    destruct (decide (i < length l)%nat) as [Hl|Hl].
    + rewrite lookup_app_l by done. by destruct (lookup_lt_is_Some_2 l i Hl) as [x ->].
    + rewrite lookup_app_r by lia. rewrite (lookup_ge_None_2 l i) by lia. simpl.
      symmetry. apply lookup_replicate_2. unfold len in *. lia.
  - rewrite lookup_seqZ_ge by lia. simpl. symmetry. apply lookup_ge_None_2.
    rewrite length_app, length_replicate. unfold len in *. lia.
Qed.

Lemma append_pairs_lists (f g : Z → str) (t : DiffTag.t) (ks : list Z) (r : DiffResult) :
  foldl (λ r k, append_pair r (f k) (g k) t) r ks
  = MkResult (left_lines r ++ (f <$> ks)) (right_lines r ++ (g <$> ks))
      (left_line_tags r ++ replicate (length ks) t)
      (right_line_tags r ++ replicate (length ks) t) (hunks r).
Proof.
  revert r. induction ks as [|k ks IH]; intros r; simpl.
  - rewrite !app_nil_r. by destruct r.
  - rewrite IH. unfold append_pair. simpl. by rewrite <- !app_assoc.
Qed.

(** The result of [_make_full_replace] when there is a line at all. *)
Lemma make_full_replace_lists (l x : list str) :
  let n := Z.max (len l) (len x) in
  0 < n →
  _make_full_replace l x
  = MkResult (l ++ replicate (Z.to_nat (n - len l)) [])
      (x ++ replicate (Z.to_nat (n - len x)) [])
      (replicate (Z.to_nat n) DiffTag.REPLACE) (replicate (Z.to_nat n) DiffTag.REPLACE)
      [MkHunk 0 n 0 n DiffTag.REPLACE].
Proof.
  intros n Hn. unfold _make_full_replace, append_hunk. fold n.
  rewrite append_pairs_lists. simpl.
  rewrite !padded_lines by lia. rewrite length_seqZ.
  destruct (Z.eqb_spec n 0); [lia|]. done.
Qed.

Section FullDiff.
Context {R : Runtime}.

(** C5. When one side shows no block structure, or the two sides show it at
    different indentations, the full line diff runs; when the two line counts
    sum to more than 50,000 it compares nothing and returns one REPLACE hunk
    over all the lines of both sides, the shorter side filled up with empty
    lines. *)
Theorem full_diff_limit (left_src right_src : list str) :
  let n := Z.max (len left_src) (len right_src) in
  (∀ li lc ri rc, _detect_blocks left_src = Some (li, lc) →
                  _detect_blocks right_src = Some (ri, rc) → li ≠ ri) →
  50000 < len left_src + len right_src →
  _compute_line_diff left_src right_src
  = Ok (MkResult (left_src ++ replicate (Z.to_nat (n - len left_src)) [])
          (right_src ++ replicate (Z.to_nat (n - len right_src)) [])
          (replicate (Z.to_nat n) DiffTag.REPLACE)
          (replicate (Z.to_nat n) DiffTag.REPLACE)
          [MkHunk 0 n 0 n DiffTag.REPLACE]).
Proof.
  intros n Hblocks Hsize.
  assert (_compute_line_diff left_src right_src
          = _compute_line_diff_full left_src right_src) as ->.
  { unfold _compute_line_diff.
    destruct (_detect_blocks left_src) as [[li lc]|]; [|done].
    destruct (_detect_blocks right_src) as [[ri rc]|]; [|done].
    destruct (Z.eqb_spec li ri) as [Heq|]; [|done].
    by destruct (Hblocks li lc ri rc). }
  unfold _compute_line_diff_full, _FULL_DIFF_LIMIT.
  destruct (Z.ltb_spec 50000 (len left_src + len right_src)); [|lia].
  rewrite make_full_replace_lists by lia. done.
Qed.

End FullDiff.

Lemma full_diff_limit_witness :
  ∃ r, @_compute_line_diff ascii_runtime (replicate (Z.to_nat 50001) (lit "x")) [] = Ok r
       ∧ hunks r = [MkHunk 0 50001 0 50001 DiffTag.REPLACE].
Proof.
  eexists. split.
  - apply (@full_diff_limit ascii_runtime).
    + intros li lc ri rc _ Hr. discriminate Hr.
    + rewrite len_replicate, Z2Nat.id by lia. unfold len. simpl. lia.
  - cbn [hunks]. rewrite len_replicate, Z2Nat.id by lia. reflexivity.
Defined.

(** *** The block diff has no size limit *)

Lemma for_each_keeps {A S} (Q : S → Prop) (step : S → A → Outcome S) (xs : list A)
    (s s' : S) :
  (∀ s x s', x ∈ xs → step s x = Ok s' → Q s → Q s') →
  for_each step xs s = Ok s' → Q s → Q s'.
Proof.
  revert s. induction xs as [|x xs IH]; intros s Hstep H Hs; simpl in H.
  - by apply Ok_inj in H as <-.
  - apply bind_Ok_inv in H as (s1 & H1 & H).
    apply (IH s1); [|done|].
    + intros s2 y s3 Hy. apply Hstep. by right.
    + eapply Hstep; [by left|done|done].
Qed.

(** Equal lines add no hunk. *)
Lemma append_equal_hunks (r r' : DiffResult) (l x : list str) :
  append_equal r l x = Ok r' → hunks r' = hunks r.
Proof.
  intros H. symmetry. unfold append_equal in H.
  eapply (for_each_keeps (λ r0, hunks r = hunks r0)); [|exact H|done].
  intros r0 k r1 _ Hk Hr0. apply bind_Ok_inv in Hk as (a & _ & Hk).
  apply bind_Ok_inv in Hk as (b & _ & Hk). apply Ok_inj in Hk as <-. done.
Qed.

(** Lines that open no block leave the count of [_detect_blocks] alone. *)
Lemma detect_blocks_prefix (head : list str) (n : nat) :
  _detect_blocks (head ++ replicate n (lit "x")) = _detect_blocks head.
Proof.
  unfold _detect_blocks. rewrite foldl_app.
  match goal with
  | |- context [foldl ?f ?acc (replicate n _)] =>
      assert (foldl f acc (replicate n (lit "x")) = acc) as ->; [|done]
  end.
  generalize (foldl
    (λ counts line,
       if starts_open (lstrip line)
       then count_incr (len line - len (lstrip line)) counts else counts) [] head).
  induction n as [|n IH]; intros acc; [done|]. simpl. apply IH.
Qed.

(** With the opcodes of the concrete runtime, a side with block structure
    compared with itself gives no hunk, whatever its length. *)
Lemma block_diff_of_equal_sides (side : list str) (indent count : Z) :
  Forall newline_free side → @_detect_blocks side = Some (indent, count) →
  ∃ r, @_compute_line_diff ascii_runtime side side = Ok r ∧ hunks r = [].
Proof.
  intros Hnl Hdet.
  destruct (@compute_line_diff_total ascii_runtime whole_opcodes_in_range side side Hnl Hnl)
    as (r & Hr & _).
  exists r. split; [done|].
  unfold _compute_line_diff in Hr. rewrite Hdet, Z.eqb_refl in Hr.
  unfold _compute_block_diff in Hr. simpl in Hr. unfold whole_opcodes in Hr.
  rewrite bool_decide_eq_true_2 in Hr by done.
  eapply (for_each_keeps (λ r0, hunks r0 = [])); [|exact Hr|done].
  intros r0 op r1 Hop Hstep Hr0. case_bool_decide; [by apply elem_of_nil in Hop|].
  apply list_elem_of_singleton in Hop as ->. simpl in Hstep.
  eapply (for_each_keeps (λ r2, hunks r2 = [])); [|exact Hstep|done].
  intros r2 k r3 _ Hk Hr2.
  apply bind_Ok_inv in Hk as (l & _ & Hk). apply bind_Ok_inv in Hk as (x & _ & Hk).
  apply append_equal_hunks in Hk. congruence.
Qed.

Lemma newline_free_one (c : char) : c ≠ NL → newline_free [c].
Proof. intros Hc. unfold newline_free. rewrite list_elem_of_singleton. congruence. Qed.

Lemma block_side_facts (n : nat) :
  let side := [lit "{"; lit "}"; lit "{"; lit "}"; lit "{"; lit "}"; lit "{"; lit "}"]
              ++ replicate n (lit "x") in
  len side = 8 + Z.of_nat n ∧ Forall newline_free side
  ∧ @_detect_blocks side = Some (0, 4).
Proof.
  intros side. split; [|split].
  - unfold side. rewrite len_app, len_replicate. reflexivity.
  - unfold side. apply Forall_app. split.
    + repeat (apply list.Forall_cons; split); try apply Forall_nil_2.
      all: by apply newline_free_one.
    + apply Forall_replicate. by apply newline_free_one.
  - unfold side. rewrite detect_blocks_prefix. reflexivity.
Qed.

(** Two sides with block structure at one indentation are compared block by
    block, however long they are: 25,008 lines on each side, the same on both,
    give a result without any hunk. *)
Lemma block_diff_ignores_limit :
  let side := [lit "{"; lit "}"; lit "{"; lit "}"; lit "{"; lit "}"; lit "{"; lit "}"]
              ++ replicate (Z.to_nat 25000) (lit "x") in
  50000 < len side + len side
  ∧ ∃ r, @_compute_line_diff ascii_runtime side side = Ok r ∧ hunks r = [].
Proof.
  destruct (block_side_facts (Z.to_nat 25000)) as (Hlen & Hnl & Hdet).
  split.
  - rewrite Hlen, Z2Nat.id by lia. lia.
  - by eapply block_diff_of_equal_sides.
Qed.

(** ** Read-only sessions *)


Section ReadOnly.
Context {R : Runtime}.









End ReadOnly.


(** ** The segments of the block diff *)

Lemma build_step_tiled (target : Z) (st : list (Z * Z) * option Z * Z * Z) (line : str) :
  build_inv st → build_tiled st → build_tiled (build_step target st line).
Proof.
  destruct st as [[[segments block_start] gap_start] i]. intros (Hs & Hg & Hb) Ht.
  unfold build_step.
  repeat match goal with
         | |- context [if ?c then _ else _] =>
             lazymatch c with
             | context [if _ then _ else _] => fail
             | _ => destruct c eqn:?
             end
         | |- context [match ?b with Some _ => _ | None => _ end] =>
             is_var b; destruct b
         end; simpl in *; try done.
  all: try match goal with
           | H : _ && bool_decide (?b = None) = true |- _ =>
               apply andb_true_iff in H as [_ H]; apply bool_decide_eq_true in H;
               subst b
           end.
  all: try (apply tiles_snoc; [done|lia]).
  all: try match goal with
           | H : (_ <? _) = false |- _ => apply Z.ltb_ge in H
           end.
  all: try (by replace i with gap_start by lia).
Qed.

(** X2. The segments of [_build_segments] cut the list of lines into ranges
    that are not empty, lie inside the list and follow one another without a
    gap from the first line to the last. *)
Theorem build_segments_tile (ls : list str) (target : Z) :
  tiles 0 (_build_segments ls target) (len ls)
  ∧ Forall (λ se : Z * Z, 0 ≤ se.1 < se.2 ∧ se.2 ≤ len ls) (_build_segments ls target).
Proof.
  split; [|apply build_segments_in].
  unfold _build_segments.
  assert (∀ st, build_inv st → build_tiled st →
            build_inv (foldl (build_step target) st ls)
            ∧ build_tiled (foldl (build_step target) st ls)
            ∧ (foldl (build_step target) st ls).2 = st.2 + len ls) as Hfold.
  { induction ls as [|l ls IH]; intros st Hst Ht; simpl.
    - split; [done|]. split; [done|]. unfold len. simpl. lia.
    - destruct (build_step_inv target st l Hst) as [H1 H2].
      pose proof (build_step_tiled target st l Hst Ht) as H3.
      destruct (IH _ H1 H3) as (H4 & H5 & H6). split; [done|]. split; [done|].
      rewrite H6, H2, len_cons. lia. }
  destruct (Hfold ([], None, 0, 0)) as (Hinv & Ht & Hi).
  { unfold build_inv. split; [done|]. split; [lia|done]. }
  { done. }
  destruct (foldl _ _ ls) as [[[segments block_start] gap_start] i].
  simpl in Hi. destruct Hinv as (Hs & Hg & Hb). subst i. rewrite Z.add_0_l in *.
  simpl in Ht. destruct block_start as [b|].
  - apply tiles_snoc; [done|lia].
  - destruct (Z.ltb_spec gap_start (len ls)); [apply tiles_snoc; [done|lia]|].
    by replace (len ls) with gap_start by lia.
Qed.

Example build_segments_of_two_blocks :
  _build_segments [lit "["; lit "  {"; lit "  }"; lit "  {"; lit "  }"; lit "]"] 2
  = [(0, 1); (1, 3); (3, 5); (5, 6)].
Proof. reflexivity. Qed.

(** ** The content of the buffer as one text *)

Lemma join_split_on (t : str) : join [NL] (split_on NL t) = t.
Proof.
  induction t as [|c t IH]; [done|]. simpl.
  pose proof (split_on_nonempty NL t) as Hne.
  destruct (split_on NL t) as [|w ws]; [done|].
  destruct (N.eqb_spec c NL) as [->|Hc].
  - change (join [NL] ([] :: w :: ws)) with ([NL] ++ join [NL] (w :: ws)).
    by rewrite IH.
  - destruct ws as [|w' ws].
    + simpl in *. by rewrite IH.
    + change (join [NL] ((c :: w) :: w' :: ws))
        with (c :: (w ++ [NL] ++ join [NL] (w' :: ws))).
      change (join [NL] (w :: w' :: ws)) with (w ++ [NL] ++ join [NL] (w' :: ws)) in IH.
      by rewrite IH.
Qed.

Lemma split_on_line (l : str) : newline_free l → split_on NL l = [l].
Proof.
  unfold newline_free. induction l as [|c l IH]; [done|].
  rewrite not_elem_of_cons. intros [Hc Hl]. simpl.
  destruct (N.eqb_spec c NL); [congruence|]. by rewrite IH.
Qed.

Lemma split_on_app_break (l t : str) :
  newline_free l → split_on NL (l ++ NL :: t) = l :: split_on NL t.
Proof.
  unfold newline_free. induction l as [|c l IH]; intros Hl; simpl.
  - done.
  - apply not_elem_of_cons in Hl as [Hc Hl].
    destruct (N.eqb_spec c NL); [congruence|]. by rewrite IH.
Qed.

Lemma split_on_join (ls : list str) :
  Forall newline_free ls → ls ≠ [] → split_on NL (join [NL] ls) = ls.
Proof.
  induction ls as [|l ls IH]; [done|]. intros [Hl Hls]%list.Forall_cons _.
  destruct ls as [|l' ls].
  - by apply split_on_line.
  - change (join [NL] (l :: l' :: ls)) with (l ++ NL :: join [NL] (l' :: ls)).
    rewrite split_on_app_break by done. by rewrite IH.
Qed.

Section Content.
Context {R : Runtime}.

(** X3. In a session that is not JSONL, [set_content] followed by
    [get_content] gives the text back, whatever it is, with the cursor on the
    first column of the first line; and [get_content] followed by
    [set_content] gives the lines back when none of them holds a line
    break. *)
Theorem content_round_trip (s : JsonEditor) (content : str) :
  jsonl s = false →
  get_content (set_content s content) = content
  ∧ cursor_row (set_content s content) = 0
  ∧ cursor_col (set_content s content) = 0
  ∧ (Forall newline_free (lines s) → lines s ≠ [] →
     lines (set_content s (get_content s)) = lines s).
Proof.
  intros Hj. unfold set_content, get_content. rewrite Hj. simpl.
  split; [|split; [done|split; [done|]]].
  - case_bool_decide as Hc; simpl; [by subst|]. apply join_split_on.
  - intros Hnl Hne. case_bool_decide as Hc; simpl; [|by apply split_on_join].
    destruct (lines s) as [|l [|l' ls]]; [done| |].
    + simpl in Hc. by subst.
    + change (join [NL] (l :: l' :: ls)) with (l ++ NL :: join [NL] (l' :: ls)) in Hc.
      by destruct l.
Qed.

End Content.

Lemma content_round_trip_witness :
  let s := @init ascii_runtime (lit "{}") false false in
  let text := lit "[" ++ [NL] ++ lit "]" in
  @get_content (@set_content ascii_runtime s text) = text
  ∧ lines (@set_content ascii_runtime s text) = [lit "["; lit "]"].
Proof.
  intros s text.
  destruct (@content_round_trip ascii_runtime s text eq_refl) as (Hget & _).
  split; [exact Hget|reflexivity].
Defined.

(** ** Further properties of the editor *)

Section MoreEditor.
Context {R : Runtime}.

(** X4. Whatever the line holds, for a width of at least one column
    [_make_segments] returns segments that follow one another from column 0
    to the end of the line, each starting where the one before ends; an empty
    line gives the one segment [(0, 0)]. *)
Theorem segments_tile_line (line : str) (avail : Z) :
  1 ≤ avail →
  ∃ segs, _make_segments line avail = Ok segs ∧ tiles 0 segs (len line)
          ∧ (line = [] → segs = [(0, 0)]).
Proof. apply make_segments_tiles. Qed.

(** X5. For a width of at least two columns, so that every character fits a
    row, [_wrap_rows] returns the number of segments of [_make_segments]; for
    a line of ASCII characters one column is enough. *)
Theorem rows_count_segments (line : str) (avail : Z) :
  2 ≤ avail ∨ (1 ≤ avail ∧ isascii line = true) →
  ∃ segs, _make_segments line avail = Ok segs
          ∧ _wrap_rows line avail = Ok (len segs).
Proof.
  intros [Ha|[Ha Hascii]].
  - by apply wrap_rows_counts_segments_wide.
  - apply wrap_rows_counts_segments; [done|].
    intros c Hc. unfold _char_width.
    assert ((c <? 256)%N = true) as ->; [|lia].
    unfold isascii in Hascii. rewrite forallb_forall in Hascii.
    apply list_elem_of_lookup_2, list_elem_of_In, Hascii in Hc.
    apply N.ltb_lt. apply N.ltb_lt in Hc. lia.
Qed.


Lemma handle_normal_y (replay : JsonEditor → Outcome JsonEditor) (h : Z) (s : JsonEditor) :
  pending s = [] →
  handle_normal_with replay h s (char_key "y") = Ok (set_pending (lit "y") s).
Proof.
  intros Hp. unfold handle_normal_with. rewrite Hp.
  destruct (read_only s); reflexivity.
Qed.

Lemma handle_pending_yy (s : JsonEditor) :
  pending s = lit "y" →
  _handle_pending s (lit "y") (lit "y")
  = (let s := set_pending [] s in
     let! line := cur_line s in
     Ok (set_status_msg (lit "line yanked") (set_yank_buffer [line] s))).
Proof.
  intros Hp. unfold _handle_pending. rewrite Hp. simpl.
  by rewrite andb_false_r.
Qed.

(** X7. In Normal mode of a session that is not read-only, [yy] followed by
    [p] puts a copy of the current line below it: the buffer grows by that
    one line, the cursor goes to the first column of the copy, the yank
    buffer holds the line, one undo entry for the buffer and cursor before is
    pushed and the redo stack is empty. *)
Theorem yank_paste_duplicates (h : Z) (s : JsonEditor) :
  ready s →
  ∃ line s',
    lines s !! Z.to_nat (cursor_row s) = Some line
    ∧ run_keys s (map (pair h) [char_key "y"; char_key "y"; char_key "p"]) = Ok s'
    ∧ lines s' = take (Z.to_nat (cursor_row s + 1)) (lines s)
                 ++ line :: drop (Z.to_nat (cursor_row s + 1)) (lines s)
    ∧ cursor_row s' = cursor_row s + 1 ∧ cursor_col s' = 0
    ∧ yank_buffer s' = [line]
    ∧ undo_stack s' = pushed s ∧ redo_stack s' = [] ∧ _mode s' = NORMAL.
Proof.
  intros (Hok & Hm & Hp & Hro).
  pose proof Hok as [Hrow (line & Hline & Hcol & Hn)].
  pose proof (py_get_lookup _ _ _ (proj1 Hrow) Hline) as Hget.
  exists line. unfold run_keys. simpl.
  destruct (on_key_normal h s (char_key "y") Hm) as (s0 & -> & b & ->).
  unfold _handle_normal. rewrite handle_normal_y by by destruct s. simpl.
  rewrite clamp_cursor_id by by destruct s. simpl.
  match goal with
  | |- context [on_key h ?t (char_key "y")] =>
      destruct (pending_key h t (char_key "y")) as (b1 & ->);
        [by destruct s|by destruct s|]
  end.
  simpl. rewrite handle_pending_yy by by destruct s.
  destruct s as [ro jl ls row col m cb pd st us rs yb sc db drec drep ob].
  simpl in *. subst. unfold cur_line. simpl. rewrite Hget. simpl.
  rewrite clamp_cursor_id by exact Hok. simpl.
  match goal with
  | |- context [on_key h ?t (char_key "p")] =>
      destruct (on_key_normal h t (char_key "p") eq_refl) as (s0 & -> & b2 & ->)
  end.
  unfold _handle_normal. rewrite handle_normal_p by done. simpl.
  unfold _paste_after, _dot_start. simpl.
  destruct drep; simpl.
  all: rewrite py_insert_in by lia.
  all: rewrite clamp_cursor_id
    by (apply cursor_ok_col0; simpl; [|done];
        rewrite <- (py_insert_in ls (row + 1) line) by lia; rewrite len_py_insert; lia).
  all: eexists; split; [done|]; split; [done|]; simpl.
  all: repeat split; try done.
  all: unfold pushed, snapshot; simpl; apply push_entry.
Qed.

End MoreEditor.

Lemma segments_tile_line_witness :
  ∃ segs, @_make_segments ascii_runtime (lit "abcdefg") 3 = Ok segs
          ∧ segs = [(0, 3); (3, 6); (6, 7)] ∧ tiles 0 segs 7.
Proof.
  destruct (@segments_tile_line ascii_runtime (lit "abcdefg") 3) as (segs & Hs & Ht & _);
    [lia|].
  exists segs. vm_compute in Hs. injection Hs as <-. split; [reflexivity|].
  split; [reflexivity|exact Ht].
Defined.

Lemma rows_count_segments_witness :
  ∃ segs, @_make_segments ascii_runtime [20013%N; 97%N; 20013%N] 2 = Ok segs
          ∧ @_wrap_rows ascii_runtime [20013%N; 97%N; 20013%N] 2 = Ok (len segs)
          ∧ len segs = 3.
Proof.
  destruct (@rows_count_segments ascii_runtime [20013%N; 97%N; 20013%N] 2)
    as (segs & Hs & Hr); [left; lia|].
  exists segs. split; [exact Hs|]. split; [exact Hr|].
  vm_compute in Hs. injection Hs as <-. reflexivity.
Defined.


Lemma yank_paste_duplicates_witness :
  ∃ s', @run_keys ascii_runtime (@init ascii_runtime (lit "ab") false false)
          (map (pair 24) [char_key "y"; char_key "y"; char_key "p"]) = Ok s'
        ∧ lines s' = [lit "ab"; lit "ab"]
        ∧ cursor_row s' = 1 ∧ cursor_col s' = 0 ∧ yank_buffer s' = [lit "ab"].
Proof.
  destruct (@yank_paste_duplicates ascii_runtime 24
              (@init ascii_runtime (lit "ab") false false))
    as (line & s' & Hline & Hrun & Hl & Hr & Hc & Hy & _).
  - split; [apply init_wf|done].
  - exists s'. simpl in Hline. injection Hline as <-.
    rewrite Hl, Hr, Hc, Hy. repeat split; done.
Defined.

(** ** Rows tagged EQUAL *)

Lemma faithful_empty : faithful empty_result.
Proof. exists []. by repeat split. Qed.

Lemma faithful_append_pair (r : DiffResult) (l x : str) (t : DiffTag.t) :
  faithful r → (t = DiffTag.EQUAL → l = x) → faithful (append_pair r l x t).
Proof.
  intros (rows & (H1 & H2 & H3 & H4) & Hrows) Ht.
  exists (rows ++ [(l, x, t)]). split.
  - unfold row_view, append_pair. simpl. rewrite !fmap_app, H1, H2, H3, H4. done.
  - apply Forall_app. split; [done|]. by constructor.
Qed.

Lemma faithful_add_hunk (h : DiffHunk) (r : DiffResult) : faithful r → faithful (add_hunk h r).
Proof. done. Qed.

Lemma faithful_foldl {A} (f : DiffResult → A → DiffResult) (xs : list A) (r : DiffResult) :
  (∀ r x, faithful r → faithful (f r x)) → faithful r → faithful (foldl f r xs).
Proof.
  intros Hf. revert r. induction xs as [|x xs IH]; intros r Hr; simpl; [done|].
  apply IH, Hf, Hr.
Qed.

Lemma faithful_append_hunk (r : DiffResult) (l x : list str) (t : DiffTag.t) :
  t ≠ DiffTag.EQUAL → faithful r → faithful (append_hunk r l x t).
Proof.
  intros Ht Hr. unfold append_hunk.
  assert (faithful (foldl (λ r k, append_pair r (get_or_empty l k) (get_or_empty x k) t)
                      r (seqZ 0 (Z.max (len l) (len x))))) as H.
  { apply faithful_foldl; [|done]. intros. by apply faithful_append_pair. }
  destruct (_ =? 0); [done|]. by apply faithful_add_hunk.
Qed.

Lemma faithful_equal_lines (r : DiffResult) (ls : list str) :
  faithful r → faithful (foldl (λ r line, append_pair r line line DiffTag.EQUAL) r ls).
Proof. apply faithful_foldl. intros. by apply faithful_append_pair. Qed.

Lemma append_equal_faithful (r r' : DiffResult) (l : list str) :
  append_equal r l l = Ok r' → faithful r → faithful r'.
Proof.
  unfold append_equal. apply for_each_keeps.
  intros r0 k r1 _ Hk Hr0. apply bind_Ok_inv in Hk as (a & Ha & Hk).
  apply bind_Ok_inv in Hk as (b & Hb & Hk). apply Ok_inj in Hk as <-.
  apply faithful_append_pair; [done|]. congruence.
Qed.

(** Lines without line breaks are the lines of their joined text. *)
Lemma join_lines_inj (l1 l2 : list str) :
  Forall newline_free l1 → Forall newline_free l2 → l1 ≠ [] → l2 ≠ [] →
  join [NL] l1 = join [NL] l2 → l1 = l2.
Proof.
  intros H1 H2 Hn1 Hn2 Heq.
  rewrite <- (split_on_join l1), <- (split_on_join l2) by done. by rewrite Heq.
Qed.

Section Faithful.
Context {R : Runtime}.
Hypothesis opcodes_law : opcodes_in_range.

Lemma line_diff_step_faithful (left right : list str) (st st' : DiffResult * Z)
    (op : Opcode) :
  opcode_ok left right op →
  line_diff_step left right st op = Ok st' → faithful st.1 → faithful st'.1.
Proof.
  destruct st as [r total], op as [t i1 i2 j1 j2].
  intros (Hi & Hi2 & Hj & Hj2 & Heq) H Hr. simpl in *.
  destruct t; simpl in H.
  1:{ rewrite Heq in H by done. apply bind_Ok_inv in H as (r1 & H1 & H).
      apply Ok_inj in H as <-. by eapply append_equal_faithful. }
  all: apply bind_Ok_inv in H as (r1 & H1 & H); apply Ok_inj in H as <-; simpl.
  all: eapply (for_each_keeps faithful); [|exact H1|done].
  all: intros r0 k r2 _ Hk Hr0.
  all: apply bind_Ok_inv in Hk as (a & _ & Hk); apply bind_Ok_inv in Hk as (b & _ & Hk).
  all: apply Ok_inj in Hk as <-; by apply faithful_append_pair.
Qed.

Lemma line_diff_faithful (r r' : DiffResult) (left right : list str) :
  _line_diff r left right = Ok r' → faithful r → faithful r'.
Proof.
  unfold _line_diff. intros H Hr. apply bind_Ok_inv in H as ([r1 total] & H1 & H).
  assert (faithful r1) as Hr1.
  { eapply (for_each_keeps (λ st, faithful st.1) _ _ (r, 0) (r1, total)); [|exact H1|done].
    intros st op st' Hop Hstep. eapply line_diff_step_faithful; [|exact Hstep].
    by apply (proj1 (list.Forall_forall _ _) (opcodes_law left right)). }
  simpl in H. destruct (total =? 0); apply Ok_inj in H as <-; done.
Qed.

Lemma full_diff_step_faithful (left right : list str) (r r' : DiffResult) (op : Opcode) :
  opcode_ok left right op →
  full_diff_step left right r op = Ok r' → faithful r → faithful r'.
Proof.
  destruct op as [t i1 i2 j1 j2]. intros (Hi & Hi2 & Hj & Hj2 & Heq) H Hr. simpl in *.
  destruct t; simpl in H.
  - rewrite Heq in H by done. by eapply append_equal_faithful.
  - apply Ok_inj in H as <-. by apply faithful_append_hunk.
  - apply Ok_inj in H as <-. by apply faithful_append_hunk.
  - apply Ok_inj in H as <-. by apply faithful_append_hunk.
Qed.

Lemma compute_line_diff_full_faithful (left right : list str) (r : DiffResult) :
  _compute_line_diff_full left right = Ok r → faithful r.
Proof.
  unfold _compute_line_diff_full. destruct (_ <? _); intros H.
  - apply Ok_inj in H as <-. apply faithful_append_hunk; [done|apply faithful_empty].
  - eapply (for_each_keeps faithful); [|exact H|apply faithful_empty].
    intros r0 op r1 Hop. apply full_diff_step_faithful.
    by apply (proj1 (list.Forall_forall _ _) (opcodes_law left right)).
Qed.

Lemma handle_replace_segments_faithful (r r' : DiffResult) (left_src right_src : list str)
    (left_segs right_segs : list (Z * Z)) :
  _handle_replace_segments r left_src right_src left_segs right_segs = Ok r' →
  faithful r → faithful r'.
Proof.
  unfold _handle_replace_segments. intros H Hr.
  apply bind_Ok_inv in H as (r1 & H1 & H). apply bind_Ok_inv in H as (r2 & H2 & H).
  assert (faithful r1) as Hr1.
  { eapply (for_each_keeps faithful); [|exact H1|done].
    intros r0 k r3 _ Hk Hr0. apply bind_Ok_inv in Hk as (l & _ & Hk).
    apply bind_Ok_inv in Hk as (x & _ & Hk). case_bool_decide as Heq.
    - rewrite Heq in Hk. by eapply append_equal_faithful.
    - by eapply line_diff_faithful. }
  assert (faithful r2) as Hr2.
  { eapply (for_each_keeps faithful); [|exact H2|done].
    intros r0 k r3 _ Hk Hr0. apply bind_Ok_inv in Hk as (l & _ & Hk).
    apply Ok_inj in Hk as <-. by apply faithful_append_hunk. }
  eapply (for_each_keeps faithful); [|exact H|done].
  intros r0 k r3 _ Hk Hr0. apply bind_Ok_inv in Hk as (x & _ & Hk).
  apply Ok_inj in Hk as <-. by apply faithful_append_hunk.
Qed.

Lemma py_get_Ok_lookup {A} (l : list A) (i : Z) (x : A) :
  0 ≤ i → py_get l i = Ok x → l !! Z.to_nat i = Some x.
Proof.
  intros Hi H. destruct (decide (i < len l)) as [Hlt|Hge].
  - destruct (py_get_in l i) as (y & Hy & Hl); [lia|]. congruence.
  - unfold py_get, norm_index in H.
    destruct (Z.leb_spec 0 i); [|lia]. destruct (Z.ltb_spec i (len l)); [lia|].
    destruct (Z.ltb_spec i 0); [lia|]. done.
Qed.

Lemma block_diff_step_faithful (left_src right_src : list str)
    (left_segs right_segs : list (Z * Z)) (r r' : DiffResult) (op : Opcode) :
  Forall newline_free left_src → Forall newline_free right_src →
  Forall (segment_in (len left_src)) left_segs →
  Forall (segment_in (len right_src)) right_segs →
  opcode_ok (segment_keys left_src left_segs) (segment_keys right_src right_segs) op →
  block_diff_step left_src right_src left_segs right_segs r op = Ok r' →
  faithful r → faithful r'.
Proof.
  intros Hnl Hnr Hsl Hsr Hop H Hr. destruct op as [t i1 i2 j1 j2].
  destruct Hop as (Hi & Hi2 & Hj & Hj2 & Heq). simpl in *.
  rewrite len_segment_keys in Hi2, Hj2.
  destruct t; simpl in H.
  - specialize (Heq eq_refl).
    assert (i2 - i1 = j2 - j1) as Hlen.
    { apply (f_equal len) in Heq.
      rewrite !len_slice in Heq by (rewrite ?len_segment_keys; lia). done. }
    eapply (for_each_keeps faithful); [|exact H|done].
    intros r0 k r1 Hk%elem_of_seqZ_range Hstep Hr0.
    apply bind_Ok_inv in Hstep as (l & Hl & Hstep).
    apply bind_Ok_inv in Hstep as (x & Hx & Hstep).
    apply py_get_Ok_lookup in Hl; [|lia]. apply py_get_Ok_lookup in Hx; [|lia].
    assert (slice left_src l.1 l.2 = slice right_src x.1 x.2) as Hsame.
    { pose proof (Forall_lookup_1 _ _ _ _ Hsl Hl) as [Hl1 Hl2].
      pose proof (Forall_lookup_1 _ _ _ _ Hsr Hx) as [Hx1 Hx2].
      apply join_lines_inj; [by apply Forall_slice|by apply Forall_slice| | |].
      - apply nonempty_len. rewrite len_slice by lia. lia.
      - apply nonempty_len. rewrite len_slice by lia. lia.
      - apply (f_equal (λ ks, ks !! Z.to_nat k)) in Heq.
        rewrite !slice_lookup in Heq by (rewrite ?len_segment_keys; lia).
        unfold segment_keys in Heq. rewrite !list_lookup_fmap, Hl, Hx in Heq.
        simpl in Heq. by injection Heq. }
    rewrite Hsame in Hstep. by eapply append_equal_faithful.
  - eapply (for_each_keeps faithful); [|exact H|done].
    intros r0 k r1 _ Hstep Hr0. apply bind_Ok_inv in Hstep as (l & _ & Hstep).
    apply Ok_inj in Hstep as <-. by apply faithful_append_hunk.
  - eapply (for_each_keeps faithful); [|exact H|done].
    intros r0 k r1 _ Hstep Hr0. apply bind_Ok_inv in Hstep as (x & _ & Hstep).
    apply Ok_inj in Hstep as <-. by apply faithful_append_hunk.
  - by eapply handle_replace_segments_faithful.
Qed.

Lemma compute_line_diff_faithful (left_src right_src : list str) (r : DiffResult) :
  Forall newline_free left_src → Forall newline_free right_src →
  _compute_line_diff left_src right_src = Ok r → faithful r.
Proof.
  intros Hnl Hnr. unfold _compute_line_diff.
  destruct (_detect_blocks left_src) as [[li lc]|];
    [|apply compute_line_diff_full_faithful].
  destruct (_detect_blocks right_src) as [[ri rc]|];
    [|apply compute_line_diff_full_faithful].
  destruct (li =? ri); [|apply compute_line_diff_full_faithful].
  unfold _compute_block_diff. intros H.
  eapply (for_each_keeps faithful); [|exact H|apply faithful_empty].
  intros r0 op r1 Hop. apply block_diff_step_faithful; try done.
  - apply build_segments_in.
  - apply build_segments_in.
  - by apply (proj1 (list.Forall_forall _ _) (opcodes_law _ _)).
Qed.

Lemma faithful_jsonl_sep (r : DiffResult) (t : DiffTag.t) (first : bool) :
  faithful r → faithful (_jsonl_sep r t first).1.
Proof.
  intros. unfold _jsonl_sep. simpl. destruct first; simpl; [done|].
  by apply faithful_append_pair.
Qed.

Lemma jsonl_diff_step_faithful (left_records right_records : list str)
    (st st' : DiffResult * bool) (op : Opcode) :
  jsonl_diff_step left_records right_records st op = Ok st' →
  faithful st.1 → faithful st'.1.
Proof.
  destruct op as [t i1 i2 j1 j2]. intros H Hst.
  assert (∀ st0 st1 ks, for_each (λ (st : DiffResult * bool) k,
                       let '(r, first) := _jsonl_sep st.1 DiffTag.DELETE st.2 in
                       let! rec := py_get left_records (i1 + k) in
                       Ok (append_hunk r (split_on NL rec) [] DiffTag.DELETE, first))
                     ks st0 = Ok st1 → faithful st0.1 → faithful st1.1) as Hdel.
  { intros st0 st1 ks. apply (for_each_keeps (λ st, faithful st.1)).
    intros [r0 first] k st2 _ Hk Hr0.
    pose proof (faithful_jsonl_sep r0 DiffTag.DELETE first Hr0) as Hsep.
    unfold _jsonl_sep in *. simpl in *.
    apply bind_Ok_inv in Hk as (rec & _ & Hk). apply Ok_inj in Hk as <-. simpl.
    by apply faithful_append_hunk. }
  assert (∀ st0 st1 ks, for_each (λ (st : DiffResult * bool) k,
                       let '(r, first) := _jsonl_sep st.1 DiffTag.INSERT st.2 in
                       let! rec := py_get right_records (j1 + k) in
                       Ok (append_hunk r [] (split_on NL rec) DiffTag.INSERT, first))
                     ks st0 = Ok st1 → faithful st0.1 → faithful st1.1) as Hins.
  { intros st0 st1 ks. apply (for_each_keeps (λ st, faithful st.1)).
    intros [r0 first] k st2 _ Hk Hr0.
    pose proof (faithful_jsonl_sep r0 DiffTag.INSERT first Hr0) as Hsep.
    unfold _jsonl_sep in *. simpl in *.
    apply bind_Ok_inv in Hk as (rec & _ & Hk). apply Ok_inj in Hk as <-. simpl.
    by apply faithful_append_hunk. }
  destruct t; simpl in H.
  - eapply (for_each_keeps (λ st, faithful st.1)); [|exact H|done].
    intros [r0 first] k st2 _ Hk Hr0.
    pose proof (faithful_jsonl_sep r0 DiffTag.EQUAL first Hr0) as Hsep.
    unfold _jsonl_sep in *. simpl in *.
    apply bind_Ok_inv in Hk as (rec & _ & Hk). apply Ok_inj in Hk as <-. simpl.
    by apply faithful_equal_lines.
  - by eapply Hdel.
  - by eapply Hins.
  - apply bind_Ok_inv in H as (st1 & H1 & H). apply bind_Ok_inv in H as (st2 & H2 & H).
    eapply Hins; [exact H|]. eapply Hdel; [exact H2|].
    eapply (for_each_keeps (λ st, faithful st.1)); [|exact H1|done].
    intros [r0 first] k st3 _ Hk Hr0.
    pose proof (faithful_jsonl_sep r0 DiffTag.REPLACE first Hr0) as Hsep.
    unfold _jsonl_sep in *. simpl in *.
    apply bind_Ok_inv in Hk as (lrec & _ & Hk). apply bind_Ok_inv in Hk as (rrec & _ & Hk).
    case_bool_decide.
    + apply Ok_inj in Hk as <-. simpl. by apply faithful_equal_lines.
    + apply bind_Ok_inv in Hk as (r2 & Hd & Hk). apply Ok_inj in Hk as <-. simpl.
      by eapply line_diff_faithful.
Qed.

Lemma compute_jsonl_diff_faithful (left right : str) (normalize : bool) (r : DiffResult) :
  _compute_jsonl_diff left right normalize = Ok r → faithful r.
Proof.
  unfold _compute_jsonl_diff. intros H. apply bind_Ok_inv in H as (st & H1 & H).
  apply Ok_inj in H as <-.
  eapply (for_each_keeps (λ st, faithful st.1)); [|exact H1|apply faithful_empty].
  intros st0 op st1 _. apply jsonl_diff_step_faithful.
Qed.

(** X8. With opcodes as [difflib] gives them, [compute_json_diff] returns a
    result, for every pair of texts and every choice of the flags, whose two
    tag lists are the same list, and in which every row tagged [EQUAL] shows
    the same line on the left and on the right. *)
Theorem equal_rows_agree (left right : str) (normalize is_jsonl : bool) :
  ∃ r, compute_json_diff left right normalize is_jsonl = Ok r
       ∧ left_line_tags r = right_line_tags r
       ∧ ∀ k l x, left_line_tags r !! k = Some DiffTag.EQUAL →
                  left_lines r !! k = Some l → right_lines r !! k = Some x → l = x.
Proof.
  assert (∃ r, compute_json_diff left right normalize is_jsonl = Ok r ∧ faithful r)
    as (r & Hr & rows & (H1 & H2 & H3 & H4) & Hrows).
  { unfold compute_json_diff. destruct is_jsonl.
    - destruct (compute_jsonl_diff_total opcodes_law left right normalize) as (r & Hr & _).
      exists r. split; [done|]. by eapply compute_jsonl_diff_faithful.
    - destruct (compute_line_diff_total opcodes_law
                  (split_on NL ((if normalize then normalize_json else format_json) left))
                  (split_on NL ((if normalize then normalize_json else format_json) right)))
        as (r & Hr & _); [apply split_on_newline_free..|].
      exists r. split; [done|].
      eapply compute_line_diff_faithful; [| |exact Hr]; apply split_on_newline_free. }
  exists r. split; [done|]. split; [congruence|].
  intros k l x Ht Hl Hx. rewrite H3 in Ht. rewrite H1 in Hl. rewrite H2 in Hx.
  rewrite list_lookup_fmap in Ht. rewrite !list_lookup_fmap in Hl.
  rewrite !list_lookup_fmap in Hx.
  destruct (rows !! k) as [[[l0 x0] t0]|] eqn:Hk; [|done].
  simpl in *. injection Ht as ->. injection Hl as ->. injection Hx as ->.
  by apply (Forall_lookup_1 _ _ _ _ Hrows Hk).
Qed.

End Faithful.

Lemma equal_rows_agree_witness :
  ∃ r, @compute_json_diff ascii_runtime (lit "{}") (lit "{}") true false = Ok r
       ∧ left_line_tags r = [DiffTag.EQUAL] ∧ right_line_tags r = [DiffTag.EQUAL]
       ∧ left_lines r = right_lines r.
Proof.
  destruct (@equal_rows_agree ascii_runtime whole_opcodes_in_range (lit "{}") (lit "{}")
              true false) as (r & Hr & Ht & Hrows).
  exists r. split; [exact Hr|].
  vm_compute in Hr. injection Hr as <-. repeat split; reflexivity.
Defined.
